(** * ffxiv-bot: catalog resolver, catalog loader and price aggregator

    A shallow embedding of [index.js] (the Discord bot) and of
    [scripts/update-item-db.js] (the catalog generator), with the
    properties of the specification stated over it.

    Conventions of the embedding:
    - a JavaScript string is the list of its UTF-16 code units;
    - a JavaScript number that the program only uses as an integer
      (ids, prices, lengths, timestamps) is a [Z]; this is exact below 2^53;
    - [null] / [undefined] are [None] unless a function distinguishes them;
    - a [Map] is the list of its entries in insertion order;
    - [String.prototype.toLowerCase] (full Unicode case mapping) is a
      parameter of the development. *)

From Stdlib Require Import ZArith NArith Lia Ascii String.
From stdpp Require Import base decidable option list sorting gmap.

Local Open Scope Z_scope.

(** ** JavaScript strings *)

Module JSString.

Abbreviation t := (list N) (only parsing).

(** An ASCII literal as a JavaScript string. *)
Definition ofString (s : string) : t :=
  (λ c, N_of_ascii c) <$> list_ascii_of_string s.

(** [s.startsWith(q)] *)
Fixpoint startsWith (s q : t) {struct q} : bool :=
  match q, s with
  | [], _ => true
  | _ :: _, [] => false
  | c :: q', d :: s' => (c =? d)%N && startsWith s' q'
  end.

(** [s.endsWith(q)] *)
Definition endsWith (s q : t) : bool :=
  startsWith (reverse s) (reverse q).

(** [s.includes(q)] *)
Fixpoint includes (s q : t) : bool :=
  startsWith s q ||
  match s with
  | [] => false
  | _ :: s' => includes s' q
  end.

(** [s.length] *)
Definition length (s : t) : Z := Z.of_nat (List.length s).

(** White space and line terminators, the code units that [trim] and
    [parseInt] strip. *)
Definition isWhiteSpace (c : N) : bool :=
  ((9 <=? c) && (c <=? 13) || (c =? 32) || (c =? 160) || (c =? 5760)
   || (8192 <=? c) && (c <=? 8202) || (c =? 8232) || (c =? 8233)
   || (c =? 8239) || (c =? 8287) || (c =? 12288) || (c =? 65279))%N.

(** [s.trimStart()] *)
Fixpoint trimStart (s : t) : t :=
  match s with
  | c :: s' => if isWhiteSpace c then trimStart s' else s
  | [] => []
  end.

(** [s.trim()] *)
Definition trim (s : t) : t := reverse (trimStart (reverse (trimStart s))).

(** [s.padStart(targetLength, fill)] for a filler of one code unit. *)
Definition padStart (s : t) (targetLength : nat) (fill : N) : t :=
  replicate (targetLength - List.length s) fill ++ s.

(** [s.substring(start, end)] for [start <= end]. *)
Definition substring (s : t) (start end_ : nat) : t :=
  take (end_ - start) (drop start s).

End JSString.

Abbreviation js := JSString.ofString.

(** ** [Array.prototype.sort] with a comparator

    The sort of ECMAScript is stable; with a consistent comparator its
    result is the stable sorted arrangement, which insertion from the
    right computes. *)

Section ArraySort.
Context {A : Type} (compareFn : A → A → Z).

Fixpoint sort_insert (x : A) (l : list A) : list A :=
  match l with
  | [] => [x]
  | y :: l' => if compareFn x y <=? 0 then x :: l else y :: sort_insert x l'
  end.

Definition Array_sort (l : list A) : list A := foldr sort_insert [] l.
End ArraySort.

(** ** Catalog entries and the [Map] that indexes them *)

Module Item.
Record t := mk { id : Z; name : JSString.t; icon : option JSString.t }.

#[global] Instance eq_dec : EqDecision t.
Proof. solve_decision. Defined.
End Item.

Module JSMap.
Section map.
Context {V : Type}.

(** Entries in insertion order; keys are pairwise distinct. *)
Definition t := list (JSString.t * V).

Definition empty : t := [].

(** [m.set(k, v)]: an existing key keeps its position. *)
Fixpoint set (m : t) (k : JSString.t) (v : V) : t :=
  match m with
  | [] => [(k, v)]
  | (k', v') :: m' =>
      if decide (k' = k) then (k, v) :: m' else (k', v') :: set m' k v
  end.

(** [m.get(k)] *)
Fixpoint get (m : t) (k : JSString.t) : option V :=
  match m with
  | [] => None
  | (k', v') :: m' => if decide (k' = k) then Some v' else get m' k
  end.

(** [m.has(k)] *)
Fixpoint has (m : t) (k : JSString.t) : bool :=
  match m with
  | [] => false
  | (k', _) :: m' => if decide (k' = k) then true else has m' k
  end.

Definition keys (m : t) : list JSString.t := m.*1.
Definition values (m : t) : list V := m.*2.
End map.
Arguments t : clear implicits.
End JSMap.

(** ** The text resolver ([loadKoreanItemDB], [searchKoreanItem]) *)

Inductive Tier := EndsWith | StartsWith | Contains.

#[global] Instance Tier_eq_dec : EqDecision Tier.
Proof. solve_decision. Defined.

Record Matches := mkMatches {
  endsWithMatches : list Item.t;
  startsWithMatches : list Item.t;
  containsMatches : list Item.t
}.

Record SearchResult := mkSearchResult {
  item : option Item.t;
  suggestions : list Item.t
}.

Section Resolver.
Variable toLowerCase : JSString.t → JSString.t.

(** The loop of [loadKoreanItemDB] over the parsed file, started from the
    current content of the global [koreanItemDB]. *)
Definition loadKoreanItemDB (data : list Item.t)
    (koreanItemDB : JSMap.t Item.t) : JSMap.t Item.t :=
  foldl (λ db item, JSMap.set db (toLowerCase (Item.name item)) item)
        koreanItemDB data.

(** The comparator [sortFn]. *)
Definition sortFn (a b : Item.t) : Z :=
  if negb (JSString.length (Item.name a) =? JSString.length (Item.name b))
  then JSString.length (Item.name a) - JSString.length (Item.name b)
  else Item.id a - Item.id b.

(** One iteration of the scan [for (const [name, item] of koreanItemDB)]. *)
Definition scanStep (queryLower : JSString.t) (acc : Matches)
    (entry : JSString.t * Item.t) : Matches :=
  let '(name, item) := entry in
  if JSString.endsWith name queryLower then
    mkMatches (endsWithMatches acc ++ [item]) (startsWithMatches acc)
              (containsMatches acc)
  else if JSString.startsWith name queryLower then
    mkMatches (endsWithMatches acc) (startsWithMatches acc ++ [item])
              (containsMatches acc)
  else if JSString.includes name queryLower then
    mkMatches (endsWithMatches acc) (startsWithMatches acc)
              (containsMatches acc ++ [item])
  else acc.

Definition scan (koreanItemDB : JSMap.t Item.t) (queryLower : JSString.t)
    : Matches :=
  foldl (scanStep queryLower) (mkMatches [] [] []) koreanItemDB.

(** The three sorted arrays spread into [allMatches]. *)
Definition allMatches (koreanItemDB : JSMap.t Item.t)
    (queryLower : JSString.t) : list Item.t :=
  let m := scan koreanItemDB queryLower in
  Array_sort sortFn (endsWithMatches m)
  ++ Array_sort sortFn (startsWithMatches m)
  ++ Array_sort sortFn (containsMatches m).

Definition searchKoreanItem (koreanItemDB : JSMap.t Item.t)
    (query : JSString.t) : SearchResult :=
  let queryLower := toLowerCase query in
  if JSMap.has koreanItemDB queryLower then
    mkSearchResult (JSMap.get koreanItemDB queryLower) []
  else
    let allMatches := allMatches koreanItemDB queryLower in
    if decide (List.length allMatches = 0%nat) then mkSearchResult None []
    else mkSearchResult (allMatches !! 0%nat) (take 10 (drop 1 allMatches)).

End Resolver.

(** ASCII-only lower-casing, the instance used on concrete inputs. *)
Definition asciiLower (s : JSString.t) : JSString.t :=
  (λ c, if (65 <=? c)%N && (c <=? 90)%N then (c + 32)%N else c) <$> s.

Definition entry (id : Z) (name : string) : Item.t := Item.mk id (js name) None.

(** ** The catalog generator ([scripts/update-item-db.js])

    Numbers are [option Z] here, [None] being [NaN]. *)

(** Value of a code unit as a digit: 0-9, a-z and A-Z. *)
Definition digitValue (c : N) : option Z :=
  if ((48 <=? c) && (c <=? 57))%N then Some (Z.of_N c - 48)
  else if ((97 <=? c) && (c <=? 122))%N then Some (Z.of_N c - 87)
  else if ((65 <=? c) && (c <=? 90))%N then Some (Z.of_N c - 55)
  else None.

(** The longest prefix of digits of the radix, read as a number; [acc] is
    the value read so far, [None] before the first digit. *)
Fixpoint parseDigits (radix : Z) (s : JSString.t) (acc : option Z)
    : option Z :=
  match s with
  | [] => acc
  | c :: s' =>
      match digitValue c with
      | Some d =>
          if d <? radix
          then parseDigits radix s' (Some (default 0 acc * radix + d))
          else acc
      | None => acc
      end
  end.

(** The steps of [parseInt] on the input stripped of leading white space:
    the sign, the text after the sign, and the test for a hexadecimal
    prefix. *)
Definition signOf (trimmed : JSString.t) : Z :=
  match trimmed with
  | c :: _ => if (c =? 45)%N then -1 else 1
  | [] => 1
  end.

Definition stripSign (trimmed : JSString.t) : JSString.t :=
  match trimmed with
  | c :: rest => if ((c =? 45) || (c =? 43))%N then rest else trimmed
  | [] => []
  end.

Definition hasHexPrefix (s : JSString.t) : bool :=
  match s with
  | c0 :: c1 :: _ => ((c0 =? 48) && ((c1 =? 120) || (c1 =? 88)))%N
  | _ => false
  end.

(** [parseInt(s, radix)]; radix 0 stands for an omitted radix. The
    result is the integer that the digits write: it is the Number that
    the source computes when it is below 2^53 in absolute value (beyond,
    the source rounds it to a double). *)
Definition parseInt (s : JSString.t) (radix : Z) : option Z :=
  let trimmed := JSString.trimStart s in
  let sign := signOf trimmed in
  let unsigned := stripSign trimmed in
  if negb (radix =? 0) && ((radix <? 2) || (36 <? radix)) then None
  else
    let stripPrefix := (radix =? 0) || (radix =? 16) in
    let R := if stripPrefix && hasHexPrefix unsigned then 16
             else if radix =? 0 then 10 else radix in
    let digits := if stripPrefix && hasHexPrefix unsigned
                  then drop 2 unsigned else unsigned in
    (λ mathInt, sign * mathInt) <$> parseDigits R digits None.

(** Decimal digits of a non-negative integer, most significant first;
    the fuel bounds the number of digits. *)
Fixpoint decimalDigits (fuel : nat) (n : Z) (acc : JSString.t) : JSString.t :=
  match fuel with
  | O => acc
  | S fuel' =>
      let acc' := Z.to_N (48 + n mod 10) :: acc in
      if n <? 10 then acc' else decimalDigits fuel' (n / 10) acc'
  end.

(** [n.toString()] for [NaN] or an integer below 2^53 in absolute value
    (beyond, the source writes the shortest digits that denote the
    double, and an exponent from 10^21 on). *)
Definition Number_toString (n : option Z) : JSString.t :=
  match n with
  | None => js "NaN"
  | Some n =>
      if n <? 0
      then 45%N :: decimalDigits (S (Z.to_nat (Z.log2 (- n)))) (- n) []
      else decimalDigits (S (Z.to_nat (Z.log2 n))) n []
  end.

(** [parseCSVLine]: the loop over the characters of a line. *)
Fixpoint parseCSVLine_from (line : JSString.t) (result : list JSString.t)
    (current : JSString.t) (inQuotes : bool) : list JSString.t :=
  match line with
  | [] => result ++ [current]
  | char :: rest =>
      if (char =? 34)%N then
        match rest with
        | next :: rest' =>
            if inQuotes && (next =? 34)%N
            then parseCSVLine_from rest' result (current ++ [34%N]) inQuotes
            else parseCSVLine_from rest result current (negb inQuotes)
        | [] => parseCSVLine_from rest result current (negb inQuotes)
        end
      else if (char =? 44)%N && negb inQuotes then
        parseCSVLine_from rest (result ++ [current]) [] inQuotes
      else parseCSVLine_from rest result (current ++ [char]) inQuotes
  end.

Definition parseCSVLine (line : JSString.t) : list JSString.t :=
  parseCSVLine_from line [] [] false.

(** The icon path of a row, [None] when no [icon] field is set. *)
Definition iconOf (iconId : JSString.t) : option JSString.t :=
  if bool_decide (iconId ≠ []) && bool_decide (iconId ≠ js "0")
     && bool_decide (is_Some (parseInt iconId 0))
  then
    let iconNum := parseInt iconId 10 in
    let paddedId := JSString.padStart (Number_toString iconNum) 6 48%N in
    let folder := JSString.substring paddedId 0 3 ++ js "000" in
    Some (js "/i/" ++ folder ++ js "/" ++ paddedId ++ js ".png")
  else None.

(** What the loop of [parseCSV] does with the cells of one line. *)
Inductive RowOutcome :=
| RowSkipped            (* too few columns: [errorCount++] *)
| RowDropped            (* no valid id or no name *)
| RowItem (item : Item.t).

Definition parseRow (nameIndex iconIndex : nat) (cols : list JSString.t)
    : RowOutcome :=
  if decide (length cols < Nat.max nameIndex iconIndex + 1)%nat then RowSkipped
  else
    let id := parseInt (default [] (cols !! 0%nat)) 10 in
    let name := default [] (cols !! nameIndex) in
    let iconId := default [] (cols !! iconIndex) in
    match id with
    | Some id =>
        if (0 <? id) && bool_decide (name ≠ [])
           && bool_decide (JSString.trim name ≠ [])
        then RowItem (Item.mk id (JSString.trim name) (iconOf iconId))
        else RowDropped
    | None => RowDropped
    end.

(** The loop of [parseCSV] over the data lines, from the fourth line on:
    the items and the count of skipped lines. *)
Definition parseRows (nameIndex iconIndex : nat) (lines : list JSString.t)
    : list Item.t * Z :=
  foldl (λ '(items, errorCount) rawLine,
           let line := JSString.trim rawLine in
           if decide (line = []) then (items, errorCount)
           else
             match parseRow nameIndex iconIndex (parseCSVLine line) with
             | RowSkipped => (items, errorCount + 1)
             | RowDropped => (items, errorCount)
             | RowItem item => (items ++ [item], errorCount)
             end)
        ([], 0) (drop 3 lines).

(** ** The shards *)

Module Server.
Record t := mk { id : Z; name : JSString.t; emoji : JSString.t }.
End Server.

Definition KOREAN_SERVERS : list Server.t :=
  [ Server.mk 2075 [52852; 48281; 53364]%N [55357; 56462]%N;
    Server.mk 2076 [52488; 53076; 48372]%N [55357; 56356]%N;
    Server.mk 2077 [47784; 44536; 47532]%N [55358; 56824]%N;
    Server.mk 2078 [53668; 48288; 47532]%N [55357; 56801; 65039]%N;
    Server.mk 2080 [54172; 47532; 47476]%N [55357; 56378]%N ].

(** ** Payloads of the price source

    [response.data] of the Universalis endpoints, with the fields the bot
    reads; [None] is an absent field. Listings and history entries have
    the same shape; [worldID] is present in data-center responses. *)

Module Listing.
Record t := mk { worldID : option Z; hq : bool; pricePerUnit : Z }.
End Listing.

Module MarketData.
Record t := mk {
  hasData : option bool;
  listings : option (list Listing.t);
  recentHistory : option (list Listing.t);
  lastUploadTime : option Z;
  worldUploadTimes : option (gmap Z Z);
  dcName : option JSString.t
}.
End MarketData.

(** Outcome of one [axios.get]: the promise resolves with [response.data]
    or rejects with an error; [status] is [error.response?.status]. *)
Inductive AxiosResult :=
| Resolved (data : MarketData.t)
| Rejected (status : option Z) (message : JSString.t).

(** The network as the bot sees it during one aggregation: the outcome of
    the data-center request for an item, and of the request for a world
    and an item. Each URL is requested at most once. *)
Record Network := mkNetwork {
  requestDC : Z → AxiosResult;
  requestWorld : Z → Z → AxiosResult
}.

Module JSError.
Record t := mk { status : option Z; message : JSString.t }.
End JSError.

(** Completion of a function that may throw. *)
Inductive Completion (A : Type) :=
| Return (value : A)
| Throw (error : JSError.t).
Arguments Return {A} value.
Arguments Throw {A} error.

(** ** Per-shard summaries and the report *)

(** The two object shapes pushed on [results]. *)
Inductive ServerResult :=
| ServerQuote (server : JSString.t) (serverId : Z) (emoji : JSString.t)
    (hasData : option bool) (listingCount : Z)
    (minPriceNQ minPriceHQ : option Z) (lastUploadTime : option Z)
| ServerError (server : JSString.t) (serverId : Z) (emoji : JSString.t)
    (error : JSString.t).

Record Report := mkReport {
  servers : list ServerResult;
  recentTradeMinNQ : option Z;
  recentTradeMinHQ : option Z;
  dcName : JSString.t
}.

(** Value of a property read on a report or on a summary. *)
Inductive JSValue :=
| JSUndefined
| JSNull
| JSNumber (n : Z)
| JSText (s : JSString.t)
| JSBoolean (b : bool)
| JSServers (l : list ServerResult).

Definition ofNullable (v : option Z) : JSValue :=
  match v with Some n => JSNumber n | None => JSNull end.

(** [report[key]] for the object literal the aggregator returns. *)
Definition reportProperty (report : Report) (key : string) : JSValue :=
  if decide (key = "servers"%string) then JSServers (servers report)
  else if decide (key = "recentTradeMinNQ"%string)
       then ofNullable (recentTradeMinNQ report)
  else if decide (key = "recentTradeMinHQ"%string)
       then ofNullable (recentTradeMinHQ report)
  else if decide (key = "dcName"%string) then JSText (dcName report)
  else JSUndefined.

Definition serverIdOf (r : ServerResult) : Z :=
  match r with
  | ServerQuote _ serverId _ _ _ _ _ _ | ServerError _ serverId _ _ => serverId
  end.

(** [r.error] *)
Definition errorOf (r : ServerResult) : JSValue :=
  match r with
  | ServerQuote _ _ _ _ _ _ _ _ => JSUndefined
  | ServerError _ _ _ error => JSText error
  end.

(** [r.listingCount] *)
Definition listingCountOf (r : ServerResult) : JSValue :=
  match r with
  | ServerQuote _ _ _ _ listingCount _ _ _ => JSNumber listingCount
  | ServerError _ _ _ _ => JSUndefined
  end.

(** [r.minPriceNQ] *)
Definition minPriceNQOf (r : ServerResult) : JSValue :=
  match r with
  | ServerQuote _ _ _ _ _ minPriceNQ _ _ => ofNullable minPriceNQ
  | ServerError _ _ _ _ => JSUndefined
  end.

(** [r.minPriceHQ] *)
Definition minPriceHQOf (r : ServerResult) : JSValue :=
  match r with
  | ServerQuote _ _ _ _ _ _ minPriceHQ _ => ofNullable minPriceHQ
  | ServerError _ _ _ _ => JSUndefined
  end.

(** ** The price aggregator *)

(** [xs.length > 0 ? Math.min(...xs.map(l => l.pricePerUnit)) : null] *)
Definition minPrice (xs : list Listing.t) : option Z :=
  match Listing.pricePerUnit <$> xs with
  | [] => None
  | p :: ps => Some (foldl Z.min p ps)
  end.

Definition nqOf (xs : list Listing.t) : list Listing.t :=
  filter (λ l, Listing.hq l = false) xs.

Definition hqOf (xs : list Listing.t) : list Listing.t :=
  filter (λ l, Listing.hq l = true) xs.

(** [getMarketData]: a 404 is an empty result, other rejections are
    rethrown. *)
Definition getMarketData (net : Network) (serverId itemId : Z)
    : Completion MarketData.t :=
  match requestWorld net serverId itemId with
  | Resolved data => Return data
  | Rejected status message =>
      if decide (status = Some 404) then
        Return (MarketData.mk (Some false) (Some []) (Some []) None None None)
      else Throw (JSError.mk status message)
  end.

(** Body of the loop of [getAllKoreanServerPrices] for one server. *)
Definition unifiedResult (data : MarketData.t) (server : Server.t)
    : ServerResult :=
  let serverListings :=
    filter (λ l, Listing.worldID l = Some (Server.id server))
           (default [] (MarketData.listings data)) in
  let listingCount := Z.of_nat (length serverListings) in
  let minPriceNQ :=
    if decide (0 < length serverListings)%nat
    then minPrice (nqOf serverListings) else None in
  let minPriceHQ :=
    if decide (0 < length serverListings)%nat
    then minPrice (hqOf serverListings) else None in
  let worldUploadTime :=
    match MarketData.worldUploadTimes data ≫= (.!! Server.id server) with
    | Some time => if decide (time = 0) then None else Some time
    | None => None
    end in
  ServerQuote (Server.name server) (Server.id server) (Server.emoji server)
    (Some (bool_decide (0 < listingCount))) listingCount
    minPriceNQ minPriceHQ worldUploadTime.

(** [x || 'Korea'] *)
Definition dcNameOr (name : option JSString.t) : JSString.t :=
  match name with
  | Some (c :: s) => c :: s
  | _ => js "Korea"
  end.

(** The [try] block of [getAllKoreanServerPrices] on a resolved payload. *)
Definition unifiedReport (data : MarketData.t) : Report :=
  let results :=
    foldl (λ results server, results ++ [unifiedResult data server])
          [] KOREAN_SERVERS in
  let history := default [] (MarketData.recentHistory data) in
  let recentTradeMinNQ :=
    if decide (0 < length history)%nat then minPrice (nqOf history) else None in
  let recentTradeMinHQ :=
    if decide (0 < length history)%nat then minPrice (hqOf history) else None in
  mkReport results recentTradeMinNQ recentTradeMinHQ
           (dcNameOr (MarketData.dcName data)).

(** One iteration of the loop of [getAllKoreanServerPricesFallback]. *)
Definition fallbackStep (net : Network) (itemId : Z)
    (results : list ServerResult) (server : Server.t) : list ServerResult :=
  match getMarketData net (Server.id server) itemId with
  | Return data =>
      let listings := default [] (MarketData.listings data) in
      let listingCount :=
        if decide (0 < length listings)%nat
        then Z.of_nat (length listings) else 0 in
      let minPriceNQ :=
        if decide (0 < length listings)%nat
        then minPrice (nqOf listings) else None in
      let minPriceHQ :=
        if decide (0 < length listings)%nat
        then minPrice (hqOf listings) else None in
      results ++
      [ServerQuote (Server.name server) (Server.id server)
         (Server.emoji server) (MarketData.hasData data) listingCount
         minPriceNQ minPriceHQ (MarketData.lastUploadTime data)]
  | Throw error =>
      results ++
      [ServerError (Server.name server) (Server.id server)
         (Server.emoji server) (JSError.message error)]
  end.

Definition getAllKoreanServerPricesFallback (net : Network) (itemId : Z)
    : Report :=
  mkReport (foldl (fallbackStep net itemId) [] KOREAN_SERVERS)
           None None (js "Korea").

(** [getAllKoreanServerPrices]: every rejection of the data-center request
    lands in the [catch] and starts the per-server queries. *)
Definition getAllKoreanServerPrices (net : Network) (itemId : Z) : Report :=
  match requestDC net itemId with
  | Resolved data => unifiedReport data
  | Rejected _ _ => getAllKoreanServerPricesFallback net itemId
  end.

(** ** The summary computed by [createResultEmbed] *)

(** Truthiness of a value. *)
Definition truthy (v : JSValue) : bool :=
  match v with
  | JSUndefined | JSNull => false
  | JSNumber n => negb (n =? 0)
  | JSText s => match s with [] => false | _ => true end
  | JSBoolean b => b
  | JSServers _ => true
  end.

(** [a === b] on the values compared by the summary. *)
Definition strictEquals (a b : JSValue) : bool :=
  match a, b with
  | JSUndefined, JSUndefined => true
  | JSNull, JSNull => true
  | JSNumber x, JSNumber y => x =? y
  | JSText x, JSText y => bool_decide (x = y)
  | JSBoolean x, JSBoolean y => bool_decide (x = y)
  | _, _ => false
  end.

(** [a < b] between numbers, [null] and [undefined]. *)
Definition toNumber (v : JSValue) : option Z :=
  match v with
  | JSNumber n => Some n
  | JSNull => Some 0
  | _ => None
  end.

Definition lessThan (a b : JSValue) : bool :=
  match toNumber a, toNumber b with
  | Some x, Some y => x <? y
  | _, _ => false
  end.

Definition overallMinStep (price : ServerResult → JSValue)
    (overallMin : JSValue) (r : ServerResult) : JSValue :=
  if strictEquals overallMin JSNull || lessThan (price r) overallMin
  then price r else overallMin.

Record EmbedSummary := mkEmbedSummary {
  overallMinNQ : JSValue;
  overallMinHQ : JSValue;
  stars : list bool;
  noData : bool
}.

(** The data that [createResultEmbed] derives from the report when the
    price lines of every server are rendered: the two overall minima, for
    each server whether its price lines get the star, and whether the
    embed is replaced by the no-data message. *)
Definition summaryOf (data : Report) : EmbedSummary :=
  let servers := servers data in
  let serversWithNQ :=
    filter (λ r, truthy (errorOf r) = false
                 ∧ strictEquals (minPriceNQOf r) JSNull = false) servers in
  let serversWithHQ :=
    filter (λ r, truthy (errorOf r) = false
                 ∧ strictEquals (minPriceHQOf r) JSNull = false) servers in
  let overallMinNQ := foldl (overallMinStep minPriceNQOf) JSNull serversWithNQ in
  let overallMinHQ := foldl (overallMinStep minPriceHQOf) JSNull serversWithHQ in
  let star (r : ServerResult) : bool :=
    if truthy (errorOf r) then false
    else
      let isMinNQ := strictEquals (minPriceNQOf r) overallMinNQ
                     && negb (strictEquals overallMinNQ JSNull) in
      let isMinHQ := strictEquals (minPriceHQOf r) overallMinHQ
                     && negb (strictEquals overallMinHQ JSNull) in
      let isMin := isMinNQ || isMinHQ in
      if negb (strictEquals (minPriceNQOf r) JSNull)
         || negb (strictEquals (minPriceHQOf r) JSNull)
      then isMin else false in
  mkEmbedSummary overallMinNQ overallMinHQ (star <$> servers)
    (bool_decide (length serversWithNQ = 0%nat)
     && bool_decide (length serversWithHQ = 0%nat)).

(** [v.toLocaleString()] on a price: a TypeError when [v] is [undefined]
    or [null], with the message that V8 gives it. *)
Definition toLocaleStringError (v : JSValue) : option JSError.t :=
  match v with
  | JSUndefined =>
      Some (JSError.mk None
              (js "Cannot read properties of undefined (reading 'toLocaleString')"))
  | JSNull =>
      Some (JSError.mk None
              (js "Cannot read properties of null (reading 'toLocaleString')"))
  | _ => None
  end.

(** One iteration of the loop of [createResultEmbed] over [servers]:
    whether the price lines of the server get the star. The iteration
    throws when it formats a price that is [undefined]. *)
Definition priceLines (overallMinNQ overallMinHQ : JSValue)
    (r : ServerResult) : Completion bool :=
  if truthy (errorOf r) then Return false
  else
    let isMinNQ := strictEquals (minPriceNQOf r) overallMinNQ
                   && negb (strictEquals overallMinNQ JSNull) in
    let isMinHQ := strictEquals (minPriceHQOf r) overallMinHQ
                   && negb (strictEquals overallMinHQ JSNull) in
    let isMin := isMinNQ || isMinHQ in
    if negb (strictEquals (minPriceNQOf r) JSNull)
       || negb (strictEquals (minPriceHQOf r) JSNull)
    then
      match (if negb (strictEquals (minPriceNQOf r) JSNull)
             then toLocaleStringError (minPriceNQOf r) else None) with
      | Some error => Throw error
      | None =>
          match (if negb (strictEquals (minPriceHQOf r) JSNull)
                 then toLocaleStringError (minPriceHQOf r) else None) with
          | Some error => Throw error
          | None => Return isMin
          end
      end
    else Return false.

(** A loop that collects one value per element and stops at the first
    exception. *)
Fixpoint forEach {A B : Type} (f : A → Completion B) (l : list A)
    : Completion (list B) :=
  match l with
  | [] => Return []
  | x :: l' =>
      match f x with
      | Throw error => Throw error
      | Return y =>
          match forEach f l' with
          | Throw error => Throw error
          | Return ys => Return (y :: ys)
          end
      end
  end.

(** [createResultEmbed], for what depends on the report: it returns the
    embed, described by its summary, or throws in the loop over
    [servers]. The calls of the embed builder are not part of the
    model. *)
Definition createResultEmbed (data : Report) : Completion EmbedSummary :=
  let servers := servers data in
  let serversWithNQ :=
    filter (λ r, truthy (errorOf r) = false
                 ∧ strictEquals (minPriceNQOf r) JSNull = false) servers in
  let serversWithHQ :=
    filter (λ r, truthy (errorOf r) = false
                 ∧ strictEquals (minPriceHQOf r) JSNull = false) servers in
  let overallMinNQ := foldl (overallMinStep minPriceNQOf) JSNull serversWithNQ in
  let overallMinHQ := foldl (overallMinStep minPriceHQOf) JSNull serversWithHQ in
  match forEach (priceLines overallMinNQ overallMinHQ) servers with
  | Throw error => Throw error
  | Return stars =>
      Return (mkEmbedSummary overallMinNQ overallMinHQ stars
                (bool_decide (length serversWithNQ = 0%nat)
                 && bool_decide (length serversWithHQ = 0%nat)))
  end.

(** ** Vocabulary of the specification for the resolver *)

(** Tier of a normalized name for a normalized query: the first of
    ends-with, starts-with, contains that holds. *)
Definition inTier (q : JSString.t) (T : Tier) (name : JSString.t) : Prop :=
  match T with
  | EndsWith => q `suffix_of` name
  | StartsWith => ¬ q `suffix_of` name ∧ q `prefix_of` name
  | Contains =>
      ¬ q `suffix_of` name ∧ ¬ q `prefix_of` name ∧ ∃ a b, name = a ++ q ++ b
  end.

(** Ascending by name length, then ascending by id. *)
Definition byLengthThenId (a b : Item.t) : Prop :=
  JSString.length (Item.name a) < JSString.length (Item.name b)
  ∨ (JSString.length (Item.name a) = JSString.length (Item.name b)
     ∧ Item.id a ≤ Item.id b).

(** The invariant of the catalog index: keys are pairwise distinct and each
    entry is stored under its normalized name. *)
Definition keyedByNormalizedName (toLowerCase : JSString.t → JSString.t)
    (db : JSMap.t Item.t) : Prop :=
  NoDup (JSMap.keys db)
  ∧ ∀ k v, (k, v) ∈ db → k = toLowerCase (Item.name v).

(** The tier the scan assigns to an entry stored under [name]. *)
Definition tierOf (q name : JSString.t) : option Tier :=
  if JSString.endsWith name q then Some EndsWith
  else if JSString.startsWith name q then Some StartsWith
  else if JSString.includes name q then Some Contains
  else None.

(** The catalog entries of one tier, in catalog order. *)
Definition tierItems (toLowerCase : JSString.t → JSString.t)
    (db : JSMap.t Item.t) (q : JSString.t) (T : Tier) : list Item.t :=
  filter (λ it, tierOf q (toLowerCase (Item.name it)) = Some T)
         (JSMap.values db).

(** ** Vocabulary of the specification for the aggregator *)

(** The summary carries a failure marker (an [error] property). *)
Definition hasFailureMarker (r : ServerResult) : bool :=
  match r with ServerError _ _ _ _ => true | ServerQuote _ _ _ _ _ _ _ _ => false end.

(** The call for one shard fails: [getMarketData] throws. *)
Definition shardCallFails (net : Network) (itemId : Z) (server : Server.t)
    : bool :=
  match getMarketData net (Server.id server) itemId with
  | Throw _ => true
  | Return _ => false
  end.

(** The payload listings of one shard. *)
Definition listingsOf (data : MarketData.t) (server : Server.t)
    : list Listing.t :=
  filter (λ l, Listing.worldID l = Some (Server.id server))
         (default [] (MarketData.listings data)).

(** Least element of a list of prices, absent for the empty list. *)
Definition leastOf (xs : list Z) : option Z :=
  match xs with
  | [] => None
  | x :: xs' => Some (foldl Z.min x xs')
  end.

(** Prices present on the non-failed shards of a report. *)
Definition presentNQ (servers : list ServerResult) : list Z :=
  omap (λ r, match r with
             | ServerQuote _ _ _ _ _ minPriceNQ _ _ => minPriceNQ
             | ServerError _ _ _ _ => None
             end) servers.

Definition presentHQ (servers : list ServerResult) : list Z :=
  omap (λ r, match r with
             | ServerQuote _ _ _ _ _ _ minPriceHQ _ => minPriceHQ
             | ServerError _ _ _ _ => None
             end) servers.

(** The failure marker of the summary, if it has one, is not the empty
    string. *)
Definition markerNonEmpty (r : ServerResult) : Prop :=
  match r with
  | ServerError _ _ _ error => error ≠ []
  | ServerQuote _ _ _ _ _ _ _ _ => True
  end.

(** ** Vocabulary of the specification for the catalog generator *)

(** A code unit between "0" and "9". *)
Definition isDecimalDigit (c : N) : Prop := (48 ≤ c ≤ 57)%N.

(** Value of a text of decimal digits, continuing from [a]. *)
Definition decimalValue (a : Z) (ds : JSString.t) : Z :=
  foldl (λ a c, a * 10 + (Z.of_N c - 48)) a ds.

(** ** Further vocabulary for the resolver *)

(** Rank of a tier, the best first; 3 for a name that does not match. *)
Definition tierRank (T : option Tier) : nat :=
  match T with
  | Some EndsWith => 0
  | Some StartsWith => 1
  | Some Contains => 2
  | None => 3
  end.

(** Best match first: by tier, then by name length, then by id. *)
Definition bestFirst (toLowerCase : JSString.t → JSString.t)
    (q : JSString.t) (a b : Item.t) : Prop :=
  (tierRank (tierOf q (toLowerCase (Item.name a)))
   < tierRank (tierOf q (toLowerCase (Item.name b))))%nat
  ∨ (tierRank (tierOf q (toLowerCase (Item.name a)))
     = tierRank (tierOf q (toLowerCase (Item.name b)))
     ∧ byLengthThenId a b).

(** The distinct elements of a list, each at its first occurrence. *)
Definition firstOccurrences {A} `{EqDecision A} (l : list A) : list A :=
  reverse (remove_dups (reverse l)).

(** ** Further vocabulary for the aggregator *)

(** The listings of one shard in the source the aggregator ends up using:
    the data-center payload filtered on the shard when that request
    resolves, the payload of the shard's own request otherwise. *)
Definition shardListings (net : Network) (itemId : Z) (server : Server.t)
    : list Listing.t :=
  match requestDC net itemId with
  | Resolved data => listingsOf data server
  | Rejected _ _ =>
      match getMarketData net (Server.id server) itemId with
      | Return data => default [] (MarketData.listings data)
      | Throw _ => []
      end
  end.

(** A single-world payload rewritten as a data-center payload: the same
    listings, each tagged with the id of the world. *)
Definition asDataCenterPayload (serverId : Z) (data : MarketData.t)
    : MarketData.t :=
  MarketData.mk None
    (Some ((λ l, Listing.mk (Some serverId) (Listing.hq l)
                   (Listing.pricePerUnit l))
           <$> default [] (MarketData.listings data)))
    None None None None.

(** ** The rest of the catalog generator: [splitCSVLines] and [parseCSV] *)

(** [xs.join(sep)] *)
Fixpoint Array_join (sep : JSString.t) (xs : list JSString.t) : JSString.t :=
  match xs with
  | [] => []
  | x :: rest =>
      match rest with
      | [] => x
      | _ :: _ => x ++ sep ++ Array_join sep rest
      end
  end.

(** [if (currentLine.trim()) lines.push(currentLine)] *)
Definition pushLine (lines : list JSString.t) (currentLine : JSString.t)
    : list JSString.t :=
  if decide (JSString.trim currentLine = []) then lines
  else lines ++ [currentLine].

(** [splitCSVLines]: the loop over the characters of the text. *)
Fixpoint splitCSVLines_from (csvText : JSString.t) (lines : list JSString.t)
    (currentLine : JSString.t) (inQuotes : bool) : list JSString.t :=
  match csvText with
  | [] => pushLine lines currentLine
  | char :: rest =>
      if (char =? 34)%N then
        splitCSVLines_from rest lines (currentLine ++ [char]) (negb inQuotes)
      else if ((char =? 10) || (char =? 13))%N && negb inQuotes then
        match rest with
        | next :: rest' =>
            if ((char =? 13) && (next =? 10))%N
            then splitCSVLines_from rest' (pushLine lines currentLine) []
                                    inQuotes
            else splitCSVLines_from rest (pushLine lines currentLine) []
                                    inQuotes
        | [] => splitCSVLines_from rest (pushLine lines currentLine) []
                                   inQuotes
        end
      else splitCSVLines_from rest lines (currentLine ++ [char]) inQuotes
  end.

Definition splitCSVLines (csvText : JSString.t) : list JSString.t :=
  splitCSVLines_from csvText [] [] false.

(** The loop of [parseCSV] over the column names: the index of the last
    column called Name and of the last column called Icon, [None] for the
    initial -1. *)
Definition findColumns (columnNames : list JSString.t)
    : option nat * option nat :=
  foldl (λ '(nameIndex, iconIndex) '(i, column),
           let col := JSString.trim column in
           (if decide (col = js "Name") then Some i else nameIndex,
            if decide (col = js "Icon") then Some i else iconIndex))
        (None, None) (imap pair columnNames).

(** The message of the error thrown for a text of fewer than 4 lines. *)
Definition csvFormatError : JSString.t :=
  [67; 83; 86; 32; 54028; 51068; 32; 54805; 49885; 51060; 32; 50732; 48148;
   47476; 51648; 32; 50506; 49845; 45768; 45796; 46]%N.

(** [parseCSV] *)
Definition parseCSV (csvText : JSString.t) : Completion (list Item.t) :=
  let lines := splitCSVLines csvText in
  if decide (length lines < 4)%nat
  then Throw (JSError.mk None csvFormatError)
  else
    let columnNames := parseCSVLine (default [] (lines !! 1%nat)) in
    let '(nameIndex, iconIndex) := findColumns columnNames in
    Return (parseRows (default 10%nat nameIndex) (default 11%nat iconIndex)
                      lines).1.

(** ** Vocabulary for the CSV format *)

(** A cell written between quotes, its quotes doubled. *)
Definition csvQuoted (cell : JSString.t) : JSString.t :=
  [34%N] ++ (cell ≫= λ c, if (c =? 34)%N then [34; 34]%N else [c]) ++ [34%N].

(** A cell as written in a row: quoted, or as it is. *)
Definition csvCell (cell : bool * JSString.t) : JSString.t :=
  if cell.1 then csvQuoted cell.2 else cell.2.

(** A cell that can be written without quotes: no quote and no comma. *)
Definition csvPlain (cell : JSString.t) : Prop :=
  Forall (λ c, c ≠ 34%N ∧ c ≠ 44%N) cell.

(** The pieces of a text between separators. *)
Fixpoint segmentsFrom (isSeparator : N → bool) (s current : JSString.t)
    : list JSString.t :=
  match s with
  | [] => [current]
  | c :: s' =>
      if isSeparator c then current :: segmentsFrom isSeparator s' []
      else segmentsFrom isSeparator s' (current ++ [c])
  end.

Definition isLineBreak (c : N) : bool := ((c =? 10) || (c =? 13))%N.

(** What the generator guarantees of an emitted entry. *)
Definition wellFormedItem (item : Item.t) : Prop :=
  0 < Item.id item
  ∧ Item.name item ≠ []
  ∧ JSString.trim (Item.name item) = Item.name item
  ∧ match Item.icon item with
    | Some path =>
        js "/i/" `prefix_of` path ∧ js ".png" `suffix_of` path
        ∧ (20 ≤ length path)%nat
    | None => True
    end.

(** The last column called [target], [None] when no column is. *)
Definition lastColumn (target : JSString.t) (columnNames : list JSString.t)
    (index : option nat) : Prop :=
  match index with
  | Some i =>
      (∃ column, columnNames !! i = Some column
                 ∧ JSString.trim column = target)
      ∧ ∀ j column, (i < j)%nat → columnNames !! j = Some column →
                    JSString.trim column ≠ target
  | None => Forall (λ column, JSString.trim column ≠ target) columnNames
  end.

(** A row of cells written as a line, and rows written as a text with a
    line feed between the lines. *)
Definition csvLine (cells : list (bool * JSString.t)) : JSString.t :=
  Array_join [44%N] (csvCell <$> cells).

Definition csvText (rows : list (list (bool * JSString.t))) : JSString.t :=
  Array_join [10%N] (csvLine <$> rows).

(** A row that can be written: at least one cell, no quote, comma or line
    break in a cell written without quotes, and a line that is not blank. *)
Definition csvWritten (cells : list (bool * JSString.t)) : Prop :=
  cells ≠ []
  ∧ Forall (λ cell, cell.1 = false →
                    Forall (λ c, c ≠ 34%N ∧ c ≠ 44%N ∧ isLineBreak c = false)
                           cell.2) cells
  ∧ JSString.trim (csvLine cells) ≠ [].

(** The item of a row of cells, if the row gives one. *)
Definition itemOfRow (nameIndex iconIndex : nat) (cols : list JSString.t)
    : option Item.t :=
  match parseRow nameIndex iconIndex cols with
  | RowItem item => Some item
  | _ => None
  end.

(** ** The commands of the [messageCreate] handler *)

(** The prefixes of the two price commands, [!] and two Hangul syllables
    followed by a space, or by [id] and a space. *)
Definition priceCommand : JSString.t := [33; 49884; 49464; 32]%N.
Definition idCommand : JSString.t := [33; 49884; 49464; 105; 100; 32]%N.

(** [s.slice(start)] for [0 <= start]. *)
Definition String_slice (s : JSString.t) (start : nat) : JSString.t :=
  drop start s.

(** A row of [response.data.results] of the XIVAPI search, with the
    fields the bot reads. *)
Module XivRow.
Record t := mk {
  row_id : Z;
  Name : JSString.t;
  Icon_path_hr1 : option JSString.t
}.
End XivRow.

(** Outcome of the request of [searchItemByNameEN]: the promise resolves
    with [response.data.results], [None] when the field is absent, or
    rejects. *)
Inductive XivResult :=
| XivResolved (results : option (list XivRow.t))
| XivRejected (message : JSString.t).

(** [searchItemByNameEN], given the outcome of its request. *)
Definition searchItemByNameEN (response : XivResult) : option Item.t :=
  match response with
  | XivResolved (Some (result :: _)) =>
      Some (Item.mk (XivRow.row_id result) (XivRow.Name result)
              match XivRow.Icon_path_hr1 result with
              | Some path => if decide (path = []) then None else Some path
              | None => None
              end)
  | _ => None
  end.

(** The icon address, set under [if (item.icon)]. *)
Definition iconUrlOf (icon : option JSString.t) : option JSString.t :=
  match icon with
  | Some path =>
      if decide (path = []) then None
      else Some (js "https://xivapi.com" ++ path)
  | None => None
  end.

(** The footer: the names of the first five alternates. *)
Definition footerPrefix : JSString.t :=
  [45796; 47480; 32; 50500; 51060; 53596; 51012; 32; 52286; 51004; 49512;
   45208; 50836; 63; 32]%N.

Definition footerOf (suggestions : list Item.t) : option JSString.t :=
  if decide (0 < length suggestions)%nat
  then Some (footerPrefix
             ++ Array_join [32; 8226; 32]%N (Item.name <$> take 5 suggestions))
  else None.

(** The title of an item that is not in the catalog. *)
Definition defaultTitle (itemId : Z) : JSString.t :=
  [50500; 51060; 53596; 32; 35]%N ++ Number_toString (Some itemId).

(** The loop of the id command over the catalog: the first entry, in
    iteration order, with the id. *)
Fixpoint lookupById (koreanItemDB : JSMap.t Item.t) (itemId : Z)
    : option Item.t :=
  match koreanItemDB with
  | [] => None
  | (_, item) :: rest =>
      if decide (Item.id item = itemId) then Some item
      else lookupById rest itemId
  end.

(** What a command does with a message whose author is not a bot:
    nothing, the reply that explains the usage, the edit that says that
    nothing was found, or the call of [createResultEmbed] with these
    arguments, followed by [setFooter] when there is a footer. *)
Inductive Outcome :=
| Ignored
| Usage
| NotFound (itemName : JSString.t)
| Quote (itemName : JSString.t) (itemId : Z) (data : Report)
        (iconUrl : option JSString.t) (footer : option JSString.t).

Section Commands.
Variable toLowerCase : JSString.t → JSString.t.
Variable xivapi : JSString.t → XivResult.
Variable net : Network.
Variable koreanItemDB : JSMap.t Item.t.

(** The name command. *)
Definition priceCommandOutcome (content : JSString.t) : Outcome :=
  if negb (JSString.startsWith content priceCommand) then Ignored
  else
    let itemName := JSString.trim (String_slice content 4) in
    if decide (itemName = []) then Usage
    else
      let '(item, iconUrl, suggestions) :=
        if decide (0 < length koreanItemDB)%nat then
          let result := searchKoreanItem toLowerCase koreanItemDB itemName in
          (item result,
           match item result with
           | Some item => iconUrlOf (Item.icon item)
           | None => None
           end,
           suggestions result)
        else (None, None, []) in
      let '(item, iconUrl) :=
        match item with
        | Some _ => (item, iconUrl)
        | None =>
            match searchItemByNameEN (xivapi itemName) with
            | Some enItem =>
                (Some enItem,
                 match iconUrlOf (Item.icon enItem) with
                 | Some url => Some url
                 | None => iconUrl
                 end)
            | None => (None, iconUrl)
            end
        end in
      match item with
      | None => NotFound itemName
      | Some item =>
          Quote (Item.name item) (Item.id item)
                (getAllKoreanServerPrices net (Item.id item)) iconUrl
                (footerOf suggestions)
      end.

(** The body of the id command, for a valid id. *)
Definition quoteById (itemId : Z) : Outcome :=
  let '(itemName, iconUrl) :=
    match lookupById koreanItemDB itemId with
    | Some item => (Item.name item, iconUrlOf (Item.icon item))
    | None => (defaultTitle itemId, None)
    end in
  Quote itemName itemId (getAllKoreanServerPrices net itemId) iconUrl None.

(** The id command. *)
Definition idCommandOutcome (content : JSString.t) : Outcome :=
  if negb (JSString.startsWith content idCommand) then Ignored
  else
    let itemIdStr := JSString.trim (String_slice content 7) in
    match parseInt itemIdStr 10 with
    | None => Usage
    | Some itemId => if itemId <=? 0 then Usage else quoteById itemId
    end.

End Commands.

(** ** Concrete inputs *)

Definition catalogPot : list Item.t :=
  [entry 1 "Spot"; entry 2 "Pottery"; entry 3 "Hot Pot"].

Definition catalogDup : list Item.t :=
  [entry 1 "Potion"; entry 2 "Ether"; entry 3 "POTION"].

Definition catalogA (withExact : bool) : list Item.t :=
  (if withExact then [entry 1 "a"] else [])
  ++ [entry 2 "ab"; entry 3 "ac"; entry 4 "ad"; entry 5 "ae"; entry 6 "af";
      entry 7 "ag"; entry 8 "ah"; entry 9 "ai"; entry 10 "aj"; entry 11 "ak";
      entry 12 "al"; entry 13 "am"].

Definition timeoutMessage : JSString.t := js "timeout of 10000ms exceeded".

Definition notFound : AxiosResult :=
  Rejected (Some 404) (js "Request failed with status code 404").

(** The data-center request is answered 404 and every world request
    times out. *)
Definition netNotFoundThenTimeouts : Network :=
  mkNetwork (λ _, notFound) (λ _ _, Rejected None timeoutMessage).

Definition worldPayload : MarketData.t :=
  MarketData.mk None
    (Some [Listing.mk None false 50; Listing.mk None false 30;
           Listing.mk None true 90])
    (Some [Listing.mk None false 45]) (Some 1700000000) None None.

(** The data-center request fails; world 2077 times out, world 2080 is
    answered 404 and the other worlds have listings. *)
Definition netOneShardDown : Network :=
  mkNetwork (λ _, Rejected None (js "Network Error"))
    (λ serverId _,
       if decide (serverId = 2077) then Rejected None timeoutMessage
       else if decide (serverId = 2080) then notFound
       else Resolved worldPayload).

Definition dcPayload : MarketData.t :=
  MarketData.mk None
    (Some [Listing.mk (Some 2075) false 50; Listing.mk (Some 9999) false 1;
           Listing.mk (Some 2075) false 30; Listing.mk (Some 2076) true 70;
           Listing.mk None true 2])
    (Some [Listing.mk (Some 2078) false 40; Listing.mk (Some 2075) true 65])
    None (Some {[ 2075 := 1700000000 ]}) (Some (js "Korea")).

Definition netUnified : Network :=
  mkNetwork (λ _, Resolved dcPayload) (λ _ _, Rejected None timeoutMessage).

Definition quoteOf (serverId : Z) (minPriceNQ minPriceHQ : option Z)
    : ServerResult :=
  ServerQuote (js "world") serverId (js "*") (Some true) 1
              minPriceNQ minPriceHQ None.

(** Per-shard standard minima 50, 30, 30, none, and a failed shard. *)
Definition reportTies : Report :=
  mkReport [quoteOf 2075 (Some 50) None; quoteOf 2076 (Some 30) (Some 80);
            quoteOf 2077 (Some 30) None; quoteOf 2078 None None;
            ServerError (js "world") 2080 (js "*") timeoutMessage]
           None None (js "Korea").

Definition rowDye : list JSString.t :=
  [js "17534"; js " Pure White Dye "; js "25847"].

(** The first world of the data center. *)
Definition carbuncle : Server.t :=
  Server.mk 2075 [52852; 48281; 53364]%N [55357; 56462]%N.

(** The data-center request fails; the request for world 2075 is rejected
    with an error whose message is the empty string, and the other worlds
    have listings. *)
Definition netEmptyMessage : Network :=
  mkNetwork (λ _, Rejected None (js "Network Error"))
    (λ serverId _,
       if decide (serverId = 2075) then Rejected None []
       else Resolved worldPayload).

(** A row with a quoted cell that holds a comma and a quote. *)
Definition rowQuoted : list (bool * JSString.t) :=
  [(false, js "17534"); (true, js "Dye, " ++ [34%N] ++ js "Pure White");
   (false, js "25847")].

(** A catalog of three header rows and two data rows, the second without
    a name. *)
Definition catalogHeader1 : list (bool * JSString.t) :=
  [(false, js "key"); (false, js "0"); (false, js "1")].

Definition catalogColumns : list (bool * JSString.t) :=
  [(false, js "#"); (false, js "Name"); (false, js "Icon")].

Definition catalogHeader3 : list (bool * JSString.t) :=
  [(false, js "int32"); (false, js "str"); (false, js "Image")].

Definition catalogRows : list (list (bool * JSString.t)) :=
  [ [(false, js "17534"); (true, js "Pure White Dye"); (false, js "25847")];
    [(false, js "2"); (false, []); (false, js "0")] ].

(** An English search that fails. *)
Definition xivapiDown : JSString.t → XivResult :=
  λ _, XivRejected (js "Network Error").

(* ================================================================== *)
(** * Properties *)
(* ================================================================== *)

(** ** Strings *)

Lemma startsWith_prefix (s q : JSString.t) :
  JSString.startsWith s q = true ↔ q `prefix_of` s.
Proof.
  revert s. induction q as [|c q IH]; intros s; simpl.
  - split; [intros _; apply prefix_nil | reflexivity].
  - destruct s as [|d s].
    + split; [done | intros H; by apply prefix_nil_not in H].
    + rewrite andb_true_iff, N.eqb_eq, IH. split.
      * intros [-> H]. by apply prefix_cons.
      * intros H. split; [by eapply prefix_cons_inv_1 | by eapply prefix_cons_inv_2].
Qed.

Lemma endsWith_suffix (s q : JSString.t) :
  JSString.endsWith s q = true ↔ q `suffix_of` s.
Proof.
  unfold JSString.endsWith. rewrite startsWith_prefix.
  symmetry. apply suffix_prefix_reverse.
Qed.

Lemma includes_infix (s q : JSString.t) :
  JSString.includes s q = true ↔ ∃ a b, s = a ++ q ++ b.
Proof.
  induction s as [|d s IH]; simpl; rewrite orb_true_iff, startsWith_prefix.
  - split.
    + intros [[k Hk]|?]; [|done]. exists [], k. done.
    + intros (a & b & H). left. symmetry in H.
      apply app_eq_nil in H as [-> H]. apply app_eq_nil in H as [-> _].
      apply prefix_nil.
  - rewrite IH. split.
    + intros [[k Hk]|(a & b & ->)]; [by exists [], k | by exists (d :: a), b].
    + intros (a & b & H). destruct a as [|x a]; simpl in H.
      * left. by exists b.
      * right. injection H as -> ->. by exists a, b.
Qed.

(** ** Sorting *)

Section ArraySortFacts.
Context {A : Type} (compareFn : A → A → Z).

Lemma sort_insert_Permutation x l : sort_insert compareFn x l ≡ₚ x :: l.
Proof.
    induction l as [|y l IH]; simpl; [done|].
    destruct (compareFn x y <=? 0); [done|].
    rewrite IH. apply Permutation_swap.
Qed.

Lemma Array_sort_Permutation l : Array_sort compareFn l ≡ₚ l.
Proof.
    induction l as [|x l IH]; simpl; [done|].
    by rewrite sort_insert_Permutation, IH.
Qed.

Lemma Array_sort_length l : length (Array_sort compareFn l) = length l.
Proof. apply Permutation_length, Array_sort_Permutation. Qed.

Hypothesis compareFn_total : ∀ x y, compareFn x y ≤ 0 ∨ compareFn y x ≤ 0.

Lemma sort_insert_Sorted x l :
    Sorted (λ a b, compareFn a b ≤ 0) l →
    Sorted (λ a b, compareFn a b ≤ 0) (sort_insert compareFn x l).
Proof.
    induction 1 as [|y l Hl IH Hhd]; simpl.
    - repeat constructor.
    - destruct (Z.leb_spec (compareFn x y) 0) as [Hle|Hgt].
      + constructor; [by constructor | by constructor].
      + constructor; [done|].
        destruct l as [|z l]; simpl in *.
        * constructor. destruct (compareFn_total x y); [lia | done].
        * destruct (compareFn x z <=? 0).
          -- constructor. destruct (compareFn_total x y); [lia | done].
          -- constructor. by inversion Hhd.
Qed.

Lemma Array_sort_Sorted l :
    Sorted (λ a b, compareFn a b ≤ 0) (Array_sort compareFn l).
Proof.
    induction l as [|x l IH]; simpl; [constructor | by apply sort_insert_Sorted].
Qed.
End ArraySortFacts.

Lemma Sorted_weaken {A} (R1 R2 : relation A) l :
  (∀ a b, R1 a b → R2 a b) → Sorted R1 l → Sorted R2 l.
Proof.
  intros HR. induction 1 as [|x l _ IH Hhd]; constructor; [done|].
  destruct Hhd; constructor; auto.
Qed.

Lemma sortFn_le a b : sortFn a b ≤ 0 ↔ byLengthThenId a b.
Proof.
  unfold sortFn, byLengthThenId.
  destruct (Z.eqb_spec (JSString.length (Item.name a))
                       (JSString.length (Item.name b))); simpl; lia.
Qed.

#[global] Instance byLengthThenId_trans : Transitive byLengthThenId.
Proof. intros a b c. unfold byLengthThenId. lia. Qed.

Lemma byLengthThenId_total a b : byLengthThenId a b ∨ byLengthThenId b a.
Proof. unfold byLengthThenId. lia. Qed.

Lemma Array_sort_sortFn l :
  StronglySorted byLengthThenId (Array_sort sortFn l)
  ∧ Array_sort sortFn l ≡ₚ l.
Proof.
  split; [|apply Array_sort_Permutation].
  apply Sorted_StronglySorted; [apply _|].
  eapply Sorted_weaken; [|apply (Array_sort_Sorted sortFn)].
  - intros a b. apply sortFn_le.
  - intros a b. rewrite !sortFn_le. apply byLengthThenId_total.
Qed.

(** ** The [Map] *)

Section JSMapFacts.
Context {V : Type}.
Implicit Types (m : JSMap.t V) (k : JSString.t) (v : V).

Lemma has_get m k : JSMap.has m k = bool_decide (is_Some (JSMap.get m k)).
Proof.
    induction m as [|[k' v'] m IH]; simpl; [done|].
    by destruct (decide (k' = k)).
Qed.

Lemma has_false m k : JSMap.has m k = false ↔ JSMap.get m k = None.
Proof.
    rewrite has_get, bool_decide_eq_false.
    split; [apply eq_None_not_Some | intros ->; by intros [? ?]].
Qed.

Lemma has_true m k : JSMap.has m k = true ↔ is_Some (JSMap.get m k).
Proof. by rewrite has_get, bool_decide_eq_true. Qed.

Lemma get_set m k v k' :
    JSMap.get (JSMap.set m k v) k' =
    if decide (k = k') then Some v else JSMap.get m k'.
Proof.
    induction m as [|[k0 v0] m IH]; simpl.
    - done.
    - destruct (decide (k0 = k)) as [->|Hne]; simpl.
      + by destruct (decide (k = k')).
      + rewrite IH. destruct (decide (k0 = k')) as [->|?]; [|done].
        by destruct (decide (k = k')).
Qed.

Lemma get_elem_of m k v : JSMap.get m k = Some v → (k, v) ∈ m.
Proof.
    induction m as [|[k0 v0] m IH]; simpl; [done|].
    destruct (decide (k0 = k)) as [->|?].
    - intros [= ->]. left.
    - intros H. right. auto.
Qed.

Lemma elem_of_get m k v :
    NoDup (JSMap.keys m) → (k, v) ∈ m → JSMap.get m k = Some v.
Proof.
    unfold JSMap.keys.
    induction m as [|[k0 v0] m IH]; simpl; [by intros _ ?%elem_of_nil|].
    rewrite NoDup_cons. intros [Hnotin Hnd] Hin.
    apply elem_of_cons in Hin as [[= -> ->]|Hin].
    - by rewrite decide_True.
    - rewrite decide_False; [auto|].
      intros ->. apply Hnotin. apply (list_elem_of_fmap_2 fst) in Hin. done.
Qed.

Lemma set_elem_of m k v k' v' :
    (k', v') ∈ JSMap.set m k v → (k', v') = (k, v) ∨ (k', v') ∈ m.
Proof.
    induction m as [|[k0 v0] m IH]; simpl.
    - intros ?%list_elem_of_singleton. by left.
    - destruct (decide (k0 = k)) as [->|?].
      + intros [->|?]%elem_of_cons; [by left | right; by right].
      + intros [->|?]%elem_of_cons; [right; left|].
        destruct IH as [?|?]; [done | by left | right; by right].
Qed.

Lemma set_keys_NoDup m k v :
    NoDup (JSMap.keys m) → NoDup (JSMap.keys (JSMap.set m k v)).
Proof.
    unfold JSMap.keys.
    induction m as [|[k0 v0] m IH]; simpl.
    - intros _. apply NoDup_singleton.
    - rewrite NoDup_cons. intros [Hnotin Hnd].
      destruct (decide (k0 = k)) as [->|Hne]; simpl.
      + by apply NoDup_cons.
      + apply NoDup_cons. split; [|auto].
        intros ([k1 v1] & Heq & Hin)%list_elem_of_fmap. simpl in Heq. subst k1.
        apply set_elem_of in Hin as [[= <- _]|Hin]; [done|].
        apply Hnotin. by apply (list_elem_of_fmap_2 fst) in Hin.
Qed.
End JSMapFacts.

(** ** Tiers *)

Lemma tierOf_inTier q name T : tierOf q name = Some T ↔ inTier q T name.
Proof.
  unfold tierOf.
  pose proof (endsWith_suffix name q) as He.
  pose proof (startsWith_prefix name q) as Hs.
  pose proof (includes_infix name q) as Hc.
  destruct T; simpl; rewrite <- ?He, <- ?Hs, <- ?Hc; clear He Hs Hc;
    destruct (JSString.endsWith name q), (JSString.startsWith name q),
      (JSString.includes name q); intuition congruence.
Qed.

Lemma inTier_exclusive q name T1 T2 :
  inTier q T1 name → inTier q T2 name → T1 = T2.
Proof. rewrite <- !tierOf_inTier. congruence. Qed.

Lemma scanStep_spec q acc k v :
  scanStep q acc (k, v) =
  mkMatches
    (endsWithMatches acc ++ (if decide (tierOf q k = Some EndsWith) then [v] else []))
    (startsWithMatches acc ++ (if decide (tierOf q k = Some StartsWith) then [v] else []))
    (containsMatches acc ++ (if decide (tierOf q k = Some Contains) then [v] else [])).
Proof.
  unfold scanStep, tierOf. destruct acc as [e s c]; simpl.
  destruct (JSString.endsWith k q), (JSString.startsWith k q),
    (JSString.includes k q); repeat case_decide; try congruence;
    by rewrite ?app_nil_r.
Qed.

Lemma scan_foldl q db acc :
  foldl (scanStep q) acc db =
  mkMatches
    (endsWithMatches acc ++ (filter (λ e, tierOf q e.1 = Some EndsWith) db).*2)
    (startsWithMatches acc ++ (filter (λ e, tierOf q e.1 = Some StartsWith) db).*2)
    (containsMatches acc ++ (filter (λ e, tierOf q e.1 = Some Contains) db).*2).
Proof.
  revert acc. induction db as [|[k v] db IH]; intros acc.
  - destruct acc. simpl. by rewrite !app_nil_r.
  - cbn [foldl]. rewrite IH, scanStep_spec. simpl. rewrite !filter_cons. simpl.
    f_equal; rewrite <- app_assoc; f_equal; by case_decide.
Qed.

(** The scan visits the entries in insertion order and sends each one to
    the array of its tier. *)
Lemma scan_spec q db :
  scan db q =
  mkMatches (filter (λ e, tierOf q e.1 = Some EndsWith) db).*2
            (filter (λ e, tierOf q e.1 = Some StartsWith) db).*2
            (filter (λ e, tierOf q e.1 = Some Contains) db).*2.
Proof. unfold scan. by rewrite scan_foldl. Qed.

Lemma filter_fmap_agree {A B} (f : A → B) (P : A → Prop) (Q : B → Prop)
    `{∀ x, Decision (P x)} `{∀ y, Decision (Q y)} (l : list A) :
  (∀ x, x ∈ l → P x ↔ Q (f x)) →
  f <$> filter P l = filter Q (f <$> l).
Proof.
  induction l as [|x l IH]; intros HPQ; [done|].
  rewrite fmap_cons, !filter_cons.
  assert (f <$> filter P l = filter Q (f <$> l)) as IH'.
  { apply IH. intros y Hy. apply HPQ. by right. }
  specialize (HPQ x (list_elem_of_here _ _)).
  repeat case_decide; try tauto; by rewrite ?fmap_cons, IH'.
Qed.

(** ** The catalog index *)

Section ResolverFacts.
Variable toLowerCase : JSString.t → JSString.t.

Local Abbreviation load := (loadKoreanItemDB toLowerCase).
Local Abbreviation search := (searchKoreanItem toLowerCase).
Local Abbreviation normalized it := (toLowerCase (Item.name it)).

Lemma load_cons it data db :
  load (it :: data) db = load data (JSMap.set db (normalized it) it).
Proof. reflexivity. Qed.

Lemma load_keyed data db :
  keyedByNormalizedName toLowerCase db →
  keyedByNormalizedName toLowerCase (load data db).
Proof.
  revert db. induction data as [|it data IH]; intros db Hdb; [done|].
  rewrite load_cons. apply IH. destruct Hdb as [Hnd Hkey]. split.
  - by apply set_keys_NoDup.
  - intros k v [[= -> ->]|Hin]%set_elem_of; [done | by apply Hkey].
Qed.

Lemma load_empty_keyed data :
  keyedByNormalizedName toLowerCase (load data JSMap.empty).
Proof.
  apply load_keyed. split; [apply NoDup_nil_2 | by intros k v ?%elem_of_nil].
Qed.

Lemma load_get data db k :
  JSMap.get (load data db) k =
  match last (filter (λ it, normalized it = k) data) with
  | Some it => Some it
  | None => JSMap.get db k
  end.
Proof.
  revert db. induction data as [|it data IH]; intros db; [done|].
  rewrite load_cons, IH, get_set, filter_cons.
  destruct (decide (normalized it = k)) as [Heq|Hne].
  - rewrite last_cons. by destruct (last _).
  - done.
Qed.

Lemma keyed_values_NoDup db :
  keyedByNormalizedName toLowerCase db → NoDup (JSMap.values db).
Proof.
  intros [Hnd Hkey]. unfold JSMap.keys, JSMap.values in *.
  apply (NoDup_fmap_1 (λ it, normalized it)).
  replace ((λ it, normalized it) <$> db.*2) with db.*1; [done|].
  rewrite <- list_fmap_compose. apply Forall_fmap_ext, Forall_forall.
  intros [k v] Hin. simpl. by apply Hkey.
Qed.

Lemma keyed_tier_values db q T :
  keyedByNormalizedName toLowerCase db →
  (filter (λ e, tierOf q e.1 = Some T) db).*2 = tierItems toLowerCase db q T.
Proof.
  intros [_ Hkey]. unfold tierItems, JSMap.values.
  apply filter_fmap_agree. intros [k v] Hin. simpl.
  by rewrite (Hkey k v Hin).
Qed.

Lemma keyed_get_value db E :
  keyedByNormalizedName toLowerCase db →
  E ∈ JSMap.values db → JSMap.get db (normalized E) = Some E.
Proof.
  intros [Hnd Hkey] ([k v] & -> & Hin)%list_elem_of_fmap. simpl.
  apply elem_of_get; [done|]. by rewrite <- (Hkey k v Hin).
Qed.

(** A query has no exact match precisely when no entry of the index has
    it as normalized name. *)
Lemma keyed_has_false db q :
  keyedByNormalizedName toLowerCase db →
  JSMap.has db q = false ↔ ∀ E, E ∈ JSMap.values db → normalized E ≠ q.
Proof.
  intros Hdb. rewrite has_false. split.
  - intros Hnone E HE <-. by rewrite keyed_get_value in Hnone.
  - intros Hall. destruct (JSMap.get db q) as [v|] eqn:Hget; [|done].
    apply get_elem_of in Hget. exfalso. apply (Hall v).
    + apply list_elem_of_fmap. by exists (q, v).
    + symmetry. by apply Hdb.
Qed.

Lemma load_get_last data k :
  JSMap.get (load data JSMap.empty) k
  = last (filter (λ it, normalized it = k) data).
Proof. rewrite load_get. by destruct (last _). Qed.

Lemma load_get_last_of before e after :
  Forall (λ e', normalized e' ≠ normalized e) after →
  JSMap.get (load (before ++ e :: after) JSMap.empty) (normalized e) = Some e.
Proof.
  intros Hafter. rewrite load_get_last, filter_app, filter_cons.
  rewrite decide_True by done.
  replace (filter (λ it, normalized it = normalized e) after) with (@nil Item.t).
  - by rewrite last_snoc.
  - symmetry. induction Hafter as [|x l Hx _ IH]; [done|].
    by rewrite filter_cons, decide_False.
Qed.

(** C8: the index built from an ordered entry list stores every entry under
    its lowercase-normalized name, and looking a key up returns the last
    entry of the list, in load order, that normalizes to this key. *)
Theorem C8_last_loaded_entry_wins (data : list Item.t) :
  let db := load data JSMap.empty in
  (∀ k v, (k, v) ∈ db → k = normalized v)
  ∧ (∀ k, JSMap.get db k = last (filter (λ it, normalized it = k) data))
  ∧ (∀ before e after,
       data = before ++ e :: after →
       Forall (λ e', normalized e' ≠ normalized e) after →
       JSMap.get db (normalized e) = Some e).
Proof.
  intros db. split; [apply load_empty_keyed|].
  split; [apply load_get_last|].
  intros before e after -> Hafter. by apply load_get_last_of.
Qed.

(** C4: an entry E held by the catalog index is returned as primary, with
    no alternates, for every query that normalizes like E's name; the
    answer comes from the exact-match branch, before any scan. *)
Theorem C4_exact_match (data : list Item.t) (E : Item.t) (query : JSString.t) :
  let db := load data JSMap.empty in
  E ∈ JSMap.values db →
  toLowerCase query = normalized E →
  JSMap.has db (toLowerCase query) = true
  ∧ search db query = mkSearchResult (Some E) [].
Proof.
  intros db HE Hq.
  assert (JSMap.get db (toLowerCase query) = Some E) as Hget.
  { rewrite Hq. apply keyed_get_value; [apply load_empty_keyed | done]. }
  assert (JSMap.has db (toLowerCase query) = true) as Hhas.
  { apply has_true. by rewrite Hget. }
  split; [done|]. unfold searchKoreanItem. by rewrite Hhas, Hget.
Qed.

(** An entry of the loaded list is the primary of its own name when no
    later entry normalizes to the same key. *)
Lemma exact_match_of_list before E after query :
  Forall (λ e', normalized e' ≠ normalized E) after →
  toLowerCase query = normalized E →
  search (load (before ++ E :: after) JSMap.empty) query
  = mkSearchResult (Some E) [].
Proof.
  intros Hafter Hq.
  pose proof (load_get_last_of before E after Hafter) as Hlast.
  unfold searchKoreanItem. rewrite Hq.
  replace (JSMap.has _ _) with true; [by rewrite Hlast|].
  symmetry. apply has_true. by rewrite Hlast.
Qed.

(** ** The tiered scan *)

Lemma allMatches_tiers db q :
  keyedByNormalizedName toLowerCase db →
  allMatches db q =
  Array_sort sortFn (tierItems toLowerCase db q EndsWith)
  ++ Array_sort sortFn (tierItems toLowerCase db q StartsWith)
  ++ Array_sort sortFn (tierItems toLowerCase db q Contains).
Proof.
  intros Hdb. unfold allMatches. rewrite scan_spec. simpl.
  by rewrite !keyed_tier_values.
Qed.

Lemma search_no_exact_match db query :
  JSMap.has db (toLowerCase query) = false →
  search db query =
  mkSearchResult (head (allMatches db (toLowerCase query)))
                 (take 10 (drop 1 (allMatches db (toLowerCase query)))).
Proof.
  intros Hhas. unfold searchKoreanItem. rewrite Hhas.
  destruct (allMatches db (toLowerCase query)) as [|x l]; [done|].
  by rewrite decide_False.
Qed.

Lemma tierItems_disjoint db q T1 T2 x :
  T1 ≠ T2 → x ∈ tierItems toLowerCase db q T1 →
  x ∉ tierItems toLowerCase db q T2.
Proof.
  unfold tierItems. rewrite !list_elem_of_filter.
  intros Hne [H1 _] [H2 _]. congruence.
Qed.

Lemma allMatches_NoDup db q :
  keyedByNormalizedName toLowerCase db → NoDup (allMatches db q).
Proof.
  intros Hdb. rewrite allMatches_tiers by done.
  rewrite !Array_sort_Permutation.
  pose proof (keyed_values_NoDup db Hdb) as Hnd.
  assert (∀ T, NoDup (tierItems toLowerCase db q T)) as HT.
  { intros T. by apply NoDup_filter. }
  rewrite !NoDup_app. repeat split; try apply HT.
  - intros x Hx [Hx'|Hx']%elem_of_app;
      revert Hx'; by apply (tierItems_disjoint db q EndsWith).
  - intros x Hx. by apply (tierItems_disjoint db q StartsWith).
Qed.

(** C1: with no exact normalized-name match, every matching entry goes to
    exactly one tier (ends-with, else starts-with, else contains), each
    tier is sorted by name length then id, the tiers are concatenated in
    this order, and primary is the head of the concatenation. *)
Theorem C1_tiered_scan (data : list Item.t) (query : JSString.t) :
  let db := load data JSMap.empty in
  let q := toLowerCase query in
  JSMap.has db q = false →
  (∀ name T, tierOf q name = Some T ↔ inTier q T name)
  ∧ (∀ name T1 T2, inTier q T1 name → inTier q T2 name → T1 = T2)
  ∧ scan db q = mkMatches (tierItems toLowerCase db q EndsWith)
                          (tierItems toLowerCase db q StartsWith)
                          (tierItems toLowerCase db q Contains)
  ∧ ∃ ends starts contains : list Item.t,
      (ends ≡ₚ tierItems toLowerCase db q EndsWith
       ∧ StronglySorted byLengthThenId ends)
      ∧ (starts ≡ₚ tierItems toLowerCase db q StartsWith
         ∧ StronglySorted byLengthThenId starts)
      ∧ (contains ≡ₚ tierItems toLowerCase db q Contains
         ∧ StronglySorted byLengthThenId contains)
      ∧ allMatches db q = ends ++ starts ++ contains
      ∧ item (search db query) = head (ends ++ starts ++ contains)
      ∧ suggestions (search db query)
        = take 10 (drop 1 (ends ++ starts ++ contains)).
Proof.
  intros db q Hhas.
  split; [intros; apply tierOf_inTier|].
  split; [intros name T1 T2; apply inTier_exclusive|].
  pose proof (load_empty_keyed data) as Hdb. fold db in Hdb.
  split; [by rewrite scan_spec, !keyed_tier_values|].
  exists (Array_sort sortFn (tierItems toLowerCase db q EndsWith)),
    (Array_sort sortFn (tierItems toLowerCase db q StartsWith)),
    (Array_sort sortFn (tierItems toLowerCase db q Contains)).
  repeat split; try apply Array_sort_sortFn.
  - by apply allMatches_tiers.
  - rewrite search_no_exact_match by done. simpl.
    by rewrite allMatches_tiers.
  - rewrite search_no_exact_match by done. simpl.
    by rewrite allMatches_tiers.
Qed.

(** There are never more than 10 alternates. *)
Lemma suggestions_at_most_10 db query :
  (length (suggestions (search db query)) ≤ 10)%nat.
Proof.
  unfold searchKoreanItem. destruct (JSMap.has db _); simpl; [lia|].
  case_decide; simpl; [lia|]. rewrite length_take. lia.
Qed.

(** C7 (amended): with no exact normalized-name match and more than 11
    matches in the tier concatenation, there are exactly 10 alternates,
    the elements at positions 1 to 10 of the concatenation, and the
    primary, at position 0, is not among them. *)
Theorem C7_alternates_cap (data : list Item.t) (query : JSString.t) :
  let db := load data JSMap.empty in
  let q := toLowerCase query in
  JSMap.has db q = false →
  (11 < length (allMatches db q))%nat →
  length (suggestions (search db query)) = 10%nat
  ∧ (∀ i, (i < 10)%nat →
       suggestions (search db query) !! i = allMatches db q !! S i)
  ∧ item (search db query) = allMatches db q !! 0%nat
  ∧ (∀ p, item (search db query) = Some p → p ∉ suggestions (search db query)).
Proof.
  intros db q Hhas Hlen.
  rewrite search_no_exact_match by done. fold q. simpl.
  pose proof (allMatches_NoDup db q (load_empty_keyed data)) as Hnd.
  destruct (allMatches db q) as [|x l]; simpl in *; [lia|].
  repeat split.
  - rewrite length_take. unfold drop. lia.
  - intros i Hi. by rewrite lookup_take_lt.
  - intros p [= <-] Hin. apply NoDup_cons in Hnd as [Hx _].
    apply Hx. by eapply subseteq_take.
Qed.

End ResolverFacts.

(** ** The resolver on concrete catalogs *)

(** "hot pot" ends with "pot": the entry is in the ends-with tier, after
    the shorter "Spot" and before the starts-with tier. *)
Example search_pot :
  searchKoreanItem asciiLower
    (loadKoreanItemDB asciiLower catalogPot JSMap.empty) (js "pot")
  = mkSearchResult (Some (entry 1 "Spot")) [entry 3 "Hot Pot"; entry 2 "Pottery"].
Proof. vm_compute. reflexivity. Qed.

Example search_no_match :
  searchKoreanItem asciiLower
    (loadKoreanItemDB asciiLower catalogPot JSMap.empty) (js "elixir")
  = mkSearchResult None [].
Proof. vm_compute. reflexivity. Qed.

Lemma C8_last_loaded_entry_wins_witness :
  JSMap.get (loadKoreanItemDB asciiLower catalogDup JSMap.empty) (js "potion")
  = Some (entry 3 "POTION").
Proof.
  destruct (C8_last_loaded_entry_wins asciiLower catalogDup) as (_ & _ & H).
  apply (H [entry 1 "Potion"; entry 2 "Ether"] (entry 3 "POTION") []).
  - reflexivity.
  - constructor.
Defined.

Lemma C4_exact_match_witness :
  let db := loadKoreanItemDB asciiLower catalogPot JSMap.empty in
  entry 2 "Pottery" ∈ JSMap.values db
  ∧ asciiLower (js "POTTERY") = asciiLower (Item.name (entry 2 "Pottery"))
  ∧ searchKoreanItem asciiLower db (js "POTTERY")
    = mkSearchResult (Some (entry 2 "Pottery")) [].
Proof.
  intros db.
  assert (entry 2 "Pottery" ∈ JSMap.values db) as Hin
    by (vm_compute; right; left).
  assert (asciiLower (js "POTTERY")
          = asciiLower (Item.name (entry 2 "Pottery"))) as Hcase
    by (vm_compute; reflexivity).
  split; [done|]. split; [done|].
  apply (C4_exact_match asciiLower catalogPot (entry 2 "Pottery")
           (js "POTTERY") Hin Hcase).
Defined.

Lemma C1_tiered_scan_witness :
  let db := loadKoreanItemDB asciiLower catalogPot JSMap.empty in
  let q := asciiLower (js "POT") in
  JSMap.has db q = false
  ∧ (∀ name T, tierOf q name = Some T ↔ inTier q T name)
  ∧ (∀ name T1 T2, inTier q T1 name → inTier q T2 name → T1 = T2)
  ∧ scan db q = mkMatches (tierItems asciiLower db q EndsWith)
                          (tierItems asciiLower db q StartsWith)
                          (tierItems asciiLower db q Contains)
  ∧ ∃ ends starts contains : list Item.t,
      (ends ≡ₚ tierItems asciiLower db q EndsWith
       ∧ StronglySorted byLengthThenId ends)
      ∧ (starts ≡ₚ tierItems asciiLower db q StartsWith
         ∧ StronglySorted byLengthThenId starts)
      ∧ (contains ≡ₚ tierItems asciiLower db q Contains
         ∧ StronglySorted byLengthThenId contains)
      ∧ allMatches db q = ends ++ starts ++ contains
      ∧ item (searchKoreanItem asciiLower db (js "POT"))
        = head (ends ++ starts ++ contains)
      ∧ suggestions (searchKoreanItem asciiLower db (js "POT"))
        = take 10 (drop 1 (ends ++ starts ++ contains)).
Proof.
  intros db q. split; [vm_compute; reflexivity|].
  apply (C1_tiered_scan asciiLower catalogPot (js "POT")).
  vm_compute. reflexivity.
Defined.

(** C7 as stated fails on an exact match: the tier concatenation for the
    query "a" has 13 elements, yet there is no alternate. *)
Lemma C7_exact_match_counterexample :
  let db := loadKoreanItemDB asciiLower (catalogA true) JSMap.empty in
  ¬ ((11 < length (allMatches db (asciiLower (js "a"))))%nat →
     length (suggestions (searchKoreanItem asciiLower db (js "a"))) = 10%nat).
Proof.
  intros db H.
  assert (length (suggestions (searchKoreanItem asciiLower db (js "a")))
          = 0%nat) as H0 by (vm_compute; reflexivity).
  rewrite H in H0; [discriminate|].
  vm_compute. lia.
Qed.

Lemma C7_alternates_cap_witness :
  let db := loadKoreanItemDB asciiLower (catalogA false) JSMap.empty in
  JSMap.has db (asciiLower (js "a")) = false
  ∧ (11 < length (allMatches db (asciiLower (js "a"))))%nat
  ∧ length (suggestions (searchKoreanItem asciiLower db (js "a"))) = 10%nat.
Proof.
  intros db.
  assert (JSMap.has db (asciiLower (js "a")) = false) as Hhas
    by (vm_compute; reflexivity).
  assert (11 < length (allMatches db (asciiLower (js "a"))))%nat as Hlen
    by (vm_compute; lia).
  split; [done|]. split; [done|].
  apply (C7_alternates_cap asciiLower (catalogA false) (js "a") Hhas Hlen).
Defined.

(** ** Minimum prices *)

Lemma foldl_min_le a xs : foldl Z.min a xs ≤ a ∧ Forall (λ x, foldl Z.min a xs ≤ x) xs.
Proof.
  revert a. induction xs as [|x xs IH]; intros a; simpl; [by split|].
  destruct (IH (Z.min a x)) as [H1 H2]. split; [lia|].
  constructor; [lia | done].
Qed.

Lemma foldl_min_elem a xs : foldl Z.min a xs ∈ a :: xs.
Proof.
  revert a. induction xs as [|x xs IH]; intros a; simpl; [left|].
  specialize (IH (Z.min a x)). apply elem_of_cons in IH as [->|IH].
  - destruct (Z.min_spec a x) as [[_ ->]|[_ ->]]; [left | right; left].
  - right; by right.
Qed.

Lemma leastOf_None xs : leastOf xs = None ↔ xs = [].
Proof. by destruct xs. Qed.

Lemma leastOf_Some xs m :
  leastOf xs = Some m ↔ m ∈ xs ∧ ∀ x, x ∈ xs → m ≤ x.
Proof.
  destruct xs as [|a xs]; simpl.
  - split; [done | by intros [?%elem_of_nil _]].
  - pose proof (foldl_min_le a xs) as [Ha Hxs].
    pose proof (foldl_min_elem a xs) as Hin.
    rewrite Forall_forall in Hxs. split.
    + intros [= <-]. split; [done|].
      intros x [->|Hx]%elem_of_cons; auto.
    + intros [Hm Hle]. f_equal. apply Z.le_antisymm.
      * apply elem_of_cons in Hm as [->|Hm]; auto.
      * by apply Hle.
Qed.

Lemma minPrice_leastOf xs : minPrice xs = leastOf (Listing.pricePerUnit <$> xs).
Proof. reflexivity. Qed.

(** ** The loops over [KOREAN_SERVERS] *)

Lemma foldl_push {A B} (f : A → B) (l : list A) (acc : list B) :
  foldl (λ results x, results ++ [f x]) acc l = acc ++ (f <$> l).
Proof.
  revert acc. induction l as [|x l IH]; intros acc; simpl.
  - by rewrite app_nil_r.
  - by rewrite IH, <- app_assoc.
Qed.

(** The summary the fallback loop pushes for one server. *)
Lemma fallbackStep_push net itemId results server :
  fallbackStep net itemId results server =
  results ++ fallbackStep net itemId [] server.
Proof. unfold fallbackStep. by destruct (getMarketData _ _ _). Qed.

Lemma fallback_foldl net itemId (l : list Server.t) acc :
  foldl (fallbackStep net itemId) acc l =
  acc ++ (l ≫= fallbackStep net itemId []).
Proof.
  revert acc. induction l as [|x l IH]; intros acc; simpl.
  - by rewrite app_nil_r.
  - by rewrite IH, (fallbackStep_push _ _ acc), <- app_assoc.
Qed.

Lemma fallbackStep_singleton net itemId server :
  ∃ r, fallbackStep net itemId [] server = [r]
       ∧ serverIdOf r = Server.id server
       ∧ hasFailureMarker r = shardCallFails net itemId server.
Proof.
  unfold fallbackStep, shardCallFails.
  destruct (getMarketData _ _ _); simpl; eauto.
Qed.

Lemma fallback_servers_lookup net itemId i server :
  KOREAN_SERVERS !! i = Some server →
  fallbackStep net itemId [] server
  = option_list (servers (getAllKoreanServerPricesFallback net itemId) !! i).
Proof.
  unfold getAllKoreanServerPricesFallback. cbn [servers].
  rewrite fallback_foldl. intros Hi.
  do 5 (destruct i as [|i];
        [injection Hi as <-; cbn [KOREAN_SERVERS mbind list_bind app];
         repeat match goal with
         | |- context [fallbackStep net itemId [] ?s] =>
             let r := fresh "r" in let H := fresh "H" in
             destruct (fallbackStep_singleton net itemId s) as (r & H & _);
             rewrite H; clear H
         end; reflexivity|]).
  discriminate.
Qed.

Lemma fallback_bind_ids net itemId (l : list Server.t) :
  serverIdOf <$> (l ≫= fallbackStep net itemId []) = Server.id <$> l.
Proof.
  induction l as [|s l IH]; [done|].
  destruct (fallbackStep_singleton net itemId s) as (r & Hr & Hid & _).
  rewrite bind_cons, Hr, fmap_app, IH, !fmap_cons, Hid. done.
Qed.

Lemma fallback_bind_failures net itemId (l : list Server.t) :
  length (filter (λ r, hasFailureMarker r = true)
                 (l ≫= fallbackStep net itemId []))
  = length (filter (λ s, shardCallFails net itemId s = true) l).
Proof.
  induction l as [|s l IH]; [done|].
  destruct (fallbackStep_singleton net itemId s) as (r & Hr & _ & Hfail).
  rewrite bind_cons, Hr, filter_app, length_app, IH, !filter_cons, Hfail.
  by destruct (decide (shardCallFails net itemId s = true)).
Qed.

(** ** Fallback mode *)

(** C3: in fallback mode the summary of each shard is what its own call
    produced: a failure marker with the error message when the call
    throws, the quote computed from its payload otherwise (count 0 and no
    marker for a payload without listings); the summaries follow the
    declared shard order and as many are failure-marked as calls failed. *)
Theorem C3_fallback_isolation (net : Network) (itemId : Z) :
  let report := getAllKoreanServerPricesFallback net itemId in
  serverIdOf <$> servers report = [2075; 2076; 2077; 2078; 2080]
  ∧ (∀ i server, KOREAN_SERVERS !! i = Some server →
       match getMarketData net (Server.id server) itemId with
       | Throw error =>
           servers report !! i =
           Some (ServerError (Server.name server) (Server.id server)
                   (Server.emoji server) (JSError.message error))
       | Return data =>
           let listings := default [] (MarketData.listings data) in
           servers report !! i =
           Some (ServerQuote (Server.name server) (Server.id server)
                   (Server.emoji server) (MarketData.hasData data)
                   (Z.of_nat (length listings))
                   (minPrice (nqOf listings)) (minPrice (hqOf listings))
                   (MarketData.lastUploadTime data))
       end)
  ∧ (∀ i server data, KOREAN_SERVERS !! i = Some server →
       getMarketData net (Server.id server) itemId = Return data →
       default [] (MarketData.listings data) = [] →
       ∃ r, servers report !! i = Some r
            ∧ listingCountOf r = JSNumber 0 ∧ hasFailureMarker r = false)
  ∧ (∀ net' i server, KOREAN_SERVERS !! i = Some server →
       requestWorld net' (Server.id server) itemId
       = requestWorld net (Server.id server) itemId →
       servers (getAllKoreanServerPricesFallback net' itemId) !! i
       = servers report !! i)
  ∧ length (filter (λ r, hasFailureMarker r = true) (servers report))
    = length (filter (λ s, shardCallFails net itemId s = true) KOREAN_SERVERS)
  ∧ (length (filter (λ s, shardCallFails net itemId s = true) KOREAN_SERVERS)
     = 1%nat →
     length (filter (λ r, hasFailureMarker r = true) (servers report)) = 1%nat).
Proof.
  intros report.
  assert (servers report = KOREAN_SERVERS ≫= fallbackStep net itemId [])
    as Hservers.
  { unfold report, getAllKoreanServerPricesFallback. cbn [servers].
    by rewrite fallback_foldl. }
  assert (∀ i server, KOREAN_SERVERS !! i = Some server →
       match getMarketData net (Server.id server) itemId with
       | Throw error =>
           servers report !! i =
           Some (ServerError (Server.name server) (Server.id server)
                   (Server.emoji server) (JSError.message error))
       | Return data =>
           let listings := default [] (MarketData.listings data) in
           servers report !! i =
           Some (ServerQuote (Server.name server) (Server.id server)
                   (Server.emoji server) (MarketData.hasData data)
                   (Z.of_nat (length listings))
                   (minPrice (nqOf listings)) (minPrice (hqOf listings))
                   (MarketData.lastUploadTime data))
       end) as Hlookup.
  { intros i server Hi.
    assert (fallbackStep net itemId [] server
            = option_list (servers report !! i)) as Hstep
      by exact (fallback_servers_lookup net itemId i server Hi).
    destruct (servers report !! i) as [r|]; unfold fallbackStep in Hstep;
      destruct (getMarketData net (Server.id server) itemId) as [data|error];
      cbn zeta; try destruct (default [] (MarketData.listings data)) as [|l ls];
      rewrite ?decide_True in Hstep by (simpl; lia);
      simpl in Hstep; by simplify_eq. }
  split; [rewrite Hservers; apply fallback_bind_ids|].
  split; [done|].
  split.
  { intros i server data Hi Hdata Hempty.
    specialize (Hlookup i server Hi). rewrite Hdata in Hlookup.
    cbn zeta in Hlookup. rewrite Hempty in Hlookup. eexists. split; [done|].
    by split. }
  split.
  { intros net' i server Hi Hsame.
    assert (fallbackStep net itemId [] server
            = option_list (servers report !! i)) as H1
      by exact (fallback_servers_lookup net itemId i server Hi).
    pose proof (fallback_servers_lookup net' itemId i server Hi) as H2.
    assert (fallbackStep net' itemId [] server
            = fallbackStep net itemId [] server) as Hstep.
    { unfold fallbackStep, getMarketData. by rewrite Hsame. }
    rewrite Hstep, H1 in H2.
    destruct (servers report !! i), (servers _ !! i); by simplify_eq. }
  assert (length (filter (λ r, hasFailureMarker r = true) (servers report))
    = length (filter (λ s, shardCallFails net itemId s = true) KOREAN_SERVERS))
    as Hcount by (rewrite Hservers; apply fallback_bind_failures).
  split; [done | by rewrite Hcount].
Qed.

(** C6 (amended): a fallback report has no recent-trade minima, carries
    no [sourceLabel], and its only label, [dcName], is the constant
    "Korea". *)
Theorem C6_fallback_report (net : Network) (itemId : Z) :
  let report := getAllKoreanServerPricesFallback net itemId in
  recentTradeMinNQ report = None
  ∧ recentTradeMinHQ report = None
  ∧ reportProperty report "recentTradeMinNQ" = JSNull
  ∧ reportProperty report "recentTradeMinHQ" = JSNull
  ∧ reportProperty report "sourceLabel" = JSUndefined
  ∧ reportProperty report "dcName" = JSText (js "Korea").
Proof. by repeat split. Qed.

(** A rejected data-center request, whatever its status, is answered by
    the per-server queries. *)
Lemma rejected_starts_fallback net itemId status message :
  requestDC net itemId = Rejected status message →
  getAllKoreanServerPrices net itemId
  = getAllKoreanServerPricesFallback net itemId.
Proof. unfold getAllKoreanServerPrices. by intros ->. Qed.

(** ** Unified mode *)

Lemma unifiedReport_servers data :
  servers (unifiedReport data) = unifiedResult data <$> KOREAN_SERVERS.
Proof. unfold unifiedReport. cbn [servers]. by rewrite foldl_push. Qed.

Lemma unifiedResult_fields data server :
  let own := listingsOf data server in
  unifiedResult data server =
  ServerQuote (Server.name server) (Server.id server) (Server.emoji server)
    (Some (bool_decide (0 < Z.of_nat (length own)))) (Z.of_nat (length own))
    (minPrice (nqOf own)) (minPrice (hqOf own))
    (match MarketData.worldUploadTimes data ≫= (.!! Server.id server) with
     | Some time => if decide (time = 0) then None else Some time
     | None => None
     end).
Proof.
  unfold unifiedResult, listingsOf.
  destruct (filter _ (default [] (MarketData.listings data))) as [|l ls];
    [done|].
  by rewrite !decide_True by (simpl; lia).
Qed.

(** C10: on a resolved data-center payload the report has exactly five
    summaries, one per declared shard in declared order, none of them
    failure-marked; the count and the two minimum prices of a shard are
    those of the payload listings whose worldID is the id of this shard,
    so two payloads with the same listings for a shard give it the same
    count and minima. *)
Theorem C10_unified_per_shard (net : Network) (itemId : Z)
    (data : MarketData.t) :
  requestDC net itemId = Resolved data →
  let report := getAllKoreanServerPrices net itemId in
  length (servers report) = 5%nat
  ∧ serverIdOf <$> servers report = [2075; 2076; 2077; 2078; 2080]
  ∧ (∀ i server, KOREAN_SERVERS !! i = Some server →
       ∃ r, servers report !! i = Some r
            ∧ serverIdOf r = Server.id server
            ∧ hasFailureMarker r = false
            ∧ listingCountOf r
              = JSNumber (Z.of_nat (length (listingsOf data server)))
            ∧ minPriceNQOf r
              = ofNullable (minPrice (nqOf (listingsOf data server)))
            ∧ minPriceHQOf r
              = ofNullable (minPrice (hqOf (listingsOf data server))))
  ∧ (∀ data' i server, KOREAN_SERVERS !! i = Some server →
       listingsOf data' server = listingsOf data server →
       ∃ r r', servers report !! i = Some r
               ∧ servers (unifiedReport data') !! i = Some r'
               ∧ listingCountOf r' = listingCountOf r
               ∧ minPriceNQOf r' = minPriceNQOf r
               ∧ minPriceHQOf r' = minPriceHQOf r).
Proof.
  intros Hdc report.
  assert (servers report = unifiedResult data <$> KOREAN_SERVERS) as Hservers.
  { unfold report, getAllKoreanServerPrices. rewrite Hdc.
    apply unifiedReport_servers. }
  assert (∀ d i server, KOREAN_SERVERS !! i = Some server →
            (unifiedResult d <$> KOREAN_SERVERS) !! i
            = Some (unifiedResult d server)) as Hlookup.
  { intros d i server Hi. by rewrite list_lookup_fmap, Hi. }
  split; [by rewrite Hservers|].
  split; [by rewrite Hservers|].
  split.
  - intros i server Hi. exists (unifiedResult data server).
    rewrite Hservers, (Hlookup data i server Hi).
    by rewrite unifiedResult_fields.
  - intros data' i server Hi Hsame.
    exists (unifiedResult data server), (unifiedResult data' server).
    rewrite Hservers, unifiedReport_servers.
    rewrite (Hlookup data i server Hi), (Hlookup data' i server Hi).
    rewrite !unifiedResult_fields. cbn zeta. by rewrite Hsame.
Qed.

(** Listings whose worldID is not the id of the shard do not change what
    the shard is given. *)
Lemma listingsOf_foreign data data' server before foreign after :
  MarketData.listings data = Some (before ++ after) →
  MarketData.listings data' = Some (before ++ foreign ++ after) →
  Forall (λ l, Listing.worldID l ≠ Some (Server.id server)) foreign →
  listingsOf data' server = listingsOf data server.
Proof.
  unfold listingsOf. intros -> -> Hforeign. simpl.
  rewrite !filter_app. f_equal.
  replace (filter _ foreign) with (@nil Listing.t); [done|].
  symmetry. induction Hforeign as [|x l Hx _ IH]; [done|].
  by rewrite filter_cons, decide_False.
Qed.

(** ** The summary of a report *)

Lemma overallMin_fold (price : ServerResult → JSValue)
    (present : ServerResult → option Z) (servers : list ServerResult)
    (acc : option Z) :
  Forall (λ r, if truthy (errorOf r) then present r = None
               else price r = ofNullable (present r)) servers →
  foldl (overallMinStep price) (ofNullable acc)
    (filter (λ r, truthy (errorOf r) = false
                  ∧ strictEquals (price r) JSNull = false) servers)
  = ofNullable (leastOf (option_list acc ++ omap present servers)).
Proof.
  intros Hall. revert acc.
  induction Hall as [|r servers Hr _ IH]; intros acc.
  - simpl. rewrite app_nil_r. by destruct acc.
  - rewrite filter_cons. cbn [omap list_omap].
    destruct (truthy (errorOf r)) eqn:Herr.
    + rewrite Hr. rewrite decide_False by (intros [? _]; done). apply IH.
    + destruct (present r) as [p|] eqn:Hp; rewrite Hr; cbn [ofNullable].
      * rewrite decide_True by done. cbn [foldl].
        replace (overallMinStep price (ofNullable acc) r)
          with (ofNullable (Some (from_option (λ a, Z.min a p) p acc))).
        { rewrite IH. by destruct acc. }
        unfold overallMinStep. rewrite Hr. destruct acc as [a|]; simpl; [|done].
        unfold lessThan. simpl. destruct (Z.ltb_spec p a); f_equal; lia.
      * rewrite decide_False by (intros [_ ?]; done). apply IH.
Qed.

Lemma markerNonEmpty_NQ servers :
  Forall markerNonEmpty servers →
  Forall (λ r, if truthy (errorOf r)
               then match r with
                    | ServerQuote _ _ _ _ _ minPriceNQ _ _ => minPriceNQ
                    | ServerError _ _ _ _ => None
                    end = None
               else minPriceNQOf r
                    = ofNullable match r with
                                 | ServerQuote _ _ _ _ _ minPriceNQ _ _ => minPriceNQ
                                 | ServerError _ _ _ _ => None
                                 end) servers.
Proof.
  intros Hall. eapply Forall_impl; [exact Hall|].
  intros [| ? ? ? [|c s]]; simpl; done.
Qed.

Lemma markerNonEmpty_HQ servers :
  Forall markerNonEmpty servers →
  Forall (λ r, if truthy (errorOf r)
               then match r with
                    | ServerQuote _ _ _ _ _ _ minPriceHQ _ => minPriceHQ
                    | ServerError _ _ _ _ => None
                    end = None
               else minPriceHQOf r
                    = ofNullable match r with
                                 | ServerQuote _ _ _ _ _ _ minPriceHQ _ => minPriceHQ
                                 | ServerError _ _ _ _ => None
                                 end) servers.
Proof.
  intros Hall. eapply Forall_impl; [exact Hall|].
  intros [| ? ? ? [|c s]]; simpl; done.
Qed.

Lemma summaryOf_overall report :
  Forall markerNonEmpty (servers report) →
  overallMinNQ (summaryOf report)
  = ofNullable (leastOf (presentNQ (servers report)))
  ∧ overallMinHQ (summaryOf report)
    = ofNullable (leastOf (presentHQ (servers report))).
Proof.
  intros Hall. unfold summaryOf. cbn [overallMinNQ overallMinHQ]. split.
  - apply (overallMin_fold minPriceNQOf _ _ None), markerNonEmpty_NQ, Hall.
  - apply (overallMin_fold minPriceHQOf _ _ None), markerNonEmpty_HQ, Hall.
Qed.

Lemma summaryOf_stars report :
  stars (summaryOf report) =
  (λ r, if truthy (errorOf r) then false
        else
          if negb (strictEquals (minPriceNQOf r) JSNull)
             || negb (strictEquals (minPriceHQOf r) JSNull)
          then
            strictEquals (minPriceNQOf r) (overallMinNQ (summaryOf report))
            && negb (strictEquals (overallMinNQ (summaryOf report)) JSNull)
            || strictEquals (minPriceHQOf r) (overallMinHQ (summaryOf report))
               && negb (strictEquals (overallMinHQ (summaryOf report)) JSNull)
          else false) <$> servers report.
Proof. reflexivity. Qed.

(** The failure markers of an aggregated report are the messages of the
    rejected requests. *)
Lemma aggregated_markers net itemId :
  (∀ serverId status message,
     requestWorld net serverId itemId = Rejected status message →
     message ≠ []) →
  Forall markerNonEmpty (servers (getAllKoreanServerPrices net itemId)).
Proof.
  intros Hmessages. unfold getAllKoreanServerPrices.
  destruct (requestDC net itemId) as [data|status message].
  - rewrite unifiedReport_servers. apply Forall_fmap, Forall_forall.
    intros server _. unfold compose. by rewrite unifiedResult_fields.
  - unfold getAllKoreanServerPricesFallback. cbn [servers].
    rewrite fallback_foldl, app_nil_l. apply Forall_bind, Forall_forall.
    intros server _. unfold compose, fallbackStep, getMarketData.
    destruct (requestWorld net (Server.id server) itemId)
      as [d|st msg] eqn:Hreq.
    + cbn zeta. rewrite ?app_nil_l. by repeat constructor.
    + destruct (decide (st = Some 404)); rewrite ?app_nil_l;
        repeat constructor. simpl. by eapply Hmessages.
Qed.

Lemma star_spec (nq hq minNQ minHQ : option Z) :
  (if negb (strictEquals (ofNullable nq) JSNull)
      || negb (strictEquals (ofNullable hq) JSNull)
   then strictEquals (ofNullable nq) (ofNullable minNQ)
        && negb (strictEquals (ofNullable minNQ) JSNull)
        || strictEquals (ofNullable hq) (ofNullable minHQ)
           && negb (strictEquals (ofNullable minHQ) JSNull)
   else false) = true
  ↔ (∃ p, ofNullable nq = JSNumber p ∧ minNQ = Some p)
    ∨ (∃ p, ofNullable hq = JSNumber p ∧ minHQ = Some p).
Proof.
  destruct nq as [p|], hq as [p'|], minNQ as [m|], minHQ as [m'|]; simpl;
    repeat match goal with
    | |- context [?a =? ?b] => destruct (Z.eqb_spec a b)
    end; simpl;
    (split; [intros ?; try discriminate; subst; eauto
            | intros [(? & ? & ?)|(? & ? & ?)]; congruence]).
Qed.

Lemma priceLines_marked overallMinNQ overallMinHQ r :
  markerNonEmpty r →
  priceLines overallMinNQ overallMinHQ r
  = Return (if truthy (errorOf r) then false
            else
              if negb (strictEquals (minPriceNQOf r) JSNull)
                 || negb (strictEquals (minPriceHQOf r) JSNull)
              then
                strictEquals (minPriceNQOf r) overallMinNQ
                && negb (strictEquals overallMinNQ JSNull)
                || strictEquals (minPriceHQOf r) overallMinHQ
                   && negb (strictEquals overallMinHQ JSNull)
              else false).
Proof.
  destruct r as [? ? ? ? ? [nq|] [hq|] ?|? ? ? [|c s]]; done.
Qed.

Lemma forEach_Return {A B} (f : A → Completion B) (g : A → B) (l : list A) :
  Forall (λ x, f x = Return (g x)) l → forEach f l = Return (g <$> l).
Proof.
  induction 1 as [|x l Hx _ IH]; [done|]. simpl. by rewrite Hx, IH.
Qed.

(** With failure markers that are not empty, every price line is
    rendered and [createResultEmbed] returns the summary. *)
Lemma createResultEmbed_returns report :
  Forall markerNonEmpty (servers report) →
  createResultEmbed report = Return (summaryOf report).
Proof.
  intros Hall. unfold createResultEmbed, summaryOf. cbn zeta.
  erewrite forEach_Return; [done|].
  eapply Forall_impl; [exact Hall|]. intros r Hr.
  by apply priceLines_marked.
Qed.

(** X24: for a report whose failure markers are not empty texts,
    [createResultEmbed] returns, and the overall minimum of a quality is
    the least of the prices of this quality present on the non-failed
    shards, absent when there is none; a shard is starred exactly when it
    is not failure-marked and one of its two prices is present and equal
    to the overall minimum of its quality, so every tied shard is
    starred. *)
Theorem overall_minima_and_stars (report : Report) :
  Forall markerNonEmpty (servers report) →
  let minNQ := leastOf (presentNQ (servers report)) in
  let minHQ := leastOf (presentHQ (servers report)) in
  ∃ summary,
  createResultEmbed report = Return summary
  ∧ overallMinNQ summary = ofNullable minNQ
  ∧ overallMinHQ summary = ofNullable minHQ
  ∧ (∀ m, minNQ = Some m ↔
          m ∈ presentNQ (servers report)
          ∧ ∀ x, x ∈ presentNQ (servers report) → m ≤ x)
  ∧ (∀ m, minHQ = Some m ↔
          m ∈ presentHQ (servers report)
          ∧ ∀ x, x ∈ presentHQ (servers report) → m ≤ x)
  ∧ (minNQ = None ↔ presentNQ (servers report) = [])
  ∧ (minHQ = None ↔ presentHQ (servers report) = [])
  ∧ length (stars summary) = length (servers report)
  ∧ (∀ i r, servers report !! i = Some r →
       stars summary !! i = Some true ↔
       hasFailureMarker r = false
       ∧ ((∃ p, minPriceNQOf r = JSNumber p ∧ minNQ = Some p)
          ∨ (∃ p, minPriceHQOf r = JSNumber p ∧ minHQ = Some p))).
Proof.
  intros Hall minNQ minHQ. exists (summaryOf report).
  split; [by apply createResultEmbed_returns|].
  set (summary := summaryOf report).
  destruct (summaryOf_overall report Hall) as [HNQ HHQ].
  fold summary minNQ in HNQ. fold summary minHQ in HHQ.
  split; [done|]. split; [done|].
  split; [intros m; apply leastOf_Some|].
  split; [intros m; apply leastOf_Some|].
  split; [apply leastOf_None|]. split; [apply leastOf_None|].
  split.
  { unfold summary. by rewrite summaryOf_stars, length_fmap. }
  intros i r Hi. unfold summary.
  rewrite summaryOf_stars, list_lookup_fmap, Hi.
  fold summary. rewrite HNQ, HHQ. cbn [fmap option_fmap option_map].
  rewrite Forall_forall in Hall.
  specialize (Hall r (list_elem_of_lookup_2 _ _ _ Hi)).
  assert (∀ b : bool, Some b = Some true ↔ b = true) as Hsome
    by (intros b; split; congruence).
  rewrite Hsome.
  destruct r as [? ? ? ? ? nq hq ?|? ? ? [|c s]]; simpl in *.
  - rewrite star_spec. tauto.
  - done.
  - split; [done | by intros [? _]].
Qed.

(** ** The aggregator on concrete networks *)

Example unified_minimum :
  (λ r, (serverIdOf r, listingCountOf r, minPriceNQOf r, minPriceHQOf r))
    <$> servers (getAllKoreanServerPrices netUnified 17534)
  = [(2075, JSNumber 2, JSNumber 30, JSNull);
     (2076, JSNumber 1, JSNull, JSNumber 70);
     (2077, JSNumber 0, JSNull, JSNull);
     (2078, JSNumber 0, JSNull, JSNull);
     (2080, JSNumber 0, JSNull, JSNull)].
Proof. vm_compute. reflexivity. Qed.

Example ties_are_all_starred :
  createResultEmbed reportTies
  = Return (mkEmbedSummary (JSNumber 30) (JSNumber 80)
                           [false; true; true; false; false] false).
Proof. vm_compute. reflexivity. Qed.

Lemma forEach_Throw {A B} (f : A → Completion B) (l : list A) x error :
  x ∈ l → f x = Throw error → ∃ error', forEach f l = Throw error'.
Proof.
  intros Hx Hthrow.
  induction l as [|y l IH]; [by apply elem_of_nil in Hx|].
  simpl. destruct (f y) as [v|error'] eqn:Hy; [|by eexists].
  apply elem_of_cons in Hx as [->|Hx]; [congruence|].
  destruct (IH Hx) as [error' ->]. by eexists.
Qed.

(** C5: a shard whose request failed with an empty error message is not
    taken for a failed shard, because [r.error] is tested for truthiness.
    In the aggregated report below the first shard failed and the others
    have the standard-quality price 30; [createResultEmbed] formats the
    absent price of the failed shard and throws a TypeError, so that
    neither an overall minimum nor a star is computed. The same happens
    for every report that has a summary with an empty error text. *)
Theorem C5_empty_marker_throws :
  let report := getAllKoreanServerPrices netEmptyMessage 17534 in
  shardCallFails netEmptyMessage 17534 carbuncle = true
  ∧ servers report !! 0%nat
    = Some (ServerError (Server.name carbuncle) 2075 (Server.emoji carbuncle)
                        [])
  ∧ leastOf (presentNQ (servers report)) = Some 30
  ∧ createResultEmbed report
    = Throw (JSError.mk None
               (js "Cannot read properties of undefined (reading 'toLocaleString')"))
  ∧ ∀ report' r, r ∈ servers report' → errorOf r = JSText [] →
                 ∃ error, createResultEmbed report' = Throw error.
Proof.
  intros report. split; [reflexivity|]. split; [reflexivity|].
  split; [vm_compute; reflexivity|]. split; [vm_compute; reflexivity|].
  intros report' r Hr Herror. unfold createResultEmbed. cbn zeta.
  destruct r as [|? ? ? message]; [done|]. injection Herror as ->.
  edestruct (forEach_Throw
               (priceLines
                  (foldl (overallMinStep minPriceNQOf) JSNull
                     (filter (λ r, truthy (errorOf r) = false
                                   ∧ strictEquals (minPriceNQOf r) JSNull
                                     = false) (servers report')))
                  (foldl (overallMinStep minPriceHQOf) JSNull
                     (filter (λ r, truthy (errorOf r) = false
                                   ∧ strictEquals (minPriceHQOf r) JSNull
                                     = false) (servers report'))))
               (servers report')) as [error Hthrow]; [exact Hr | reflexivity |].
  rewrite Hthrow. by eexists.
Qed.

(** C2: a 404 answer to the data-center request is caught like any other
    rejection and starts the per-server queries; here they all time out
    and the report has five failure-marked summaries instead of five
    empty ones. *)
Theorem C2_not_found_starts_fallback :
  let report := getAllKoreanServerPrices netNotFoundThenTimeouts 17534 in
  requestDC netNotFoundThenTimeouts 17534 = notFound
  ∧ report = getAllKoreanServerPricesFallback netNotFoundThenTimeouts 17534
  ∧ servers report
    = (λ s, ServerError (Server.name s) (Server.id s) (Server.emoji s)
              timeoutMessage) <$> KOREAN_SERVERS
  ∧ Forall (λ r, hasFailureMarker r = true ∧ listingCountOf r ≠ JSNumber 0)
           (servers report).
Proof.
  intros report. split; [reflexivity|]. split; [reflexivity|].
  split; [vm_compute; reflexivity|].
  unfold report. vm_compute. repeat constructor; discriminate.
Qed.

(** The sibling path: the same 404 on a world request is an empty quote. *)
Example world_not_found_is_empty :
  getMarketData netOneShardDown 2080 17534
  = Return (MarketData.mk (Some false) (Some []) (Some []) None None None).
Proof. reflexivity. Qed.

(** C6 as stated fails: the fallback report has no [sourceLabel]. *)
Lemma C6_source_label_counterexample :
  let report := getAllKoreanServerPricesFallback netOneShardDown 17534 in
  ¬ (recentTradeMinNQ report = None
     ∧ recentTradeMinHQ report = None
     ∧ reportProperty report "sourceLabel" = JSText (js "fallback")).
Proof. intros report (_ & _ & H). vm_compute in H. discriminate. Qed.

Lemma C3_fallback_isolation_witness :
  let report := getAllKoreanServerPricesFallback netOneShardDown 17534 in
  length (filter (λ s, shardCallFails netOneShardDown 17534 s = true)
                 KOREAN_SERVERS) = 1%nat
  ∧ length (filter (λ r, hasFailureMarker r = true) (servers report)) = 1%nat.
Proof.
  intros report.
  assert (length (filter (λ s, shardCallFails netOneShardDown 17534 s = true)
                         KOREAN_SERVERS) = 1%nat) as Hone
    by (vm_compute; reflexivity).
  split; [done|].
  destruct (C3_fallback_isolation netOneShardDown 17534)
    as (_ & _ & _ & _ & _ & H).
  exact (H Hone).
Defined.

Lemma C10_unified_per_shard_witness :
  requestDC netUnified 17534 = Resolved dcPayload
  ∧ serverIdOf <$> servers (getAllKoreanServerPrices netUnified 17534)
    = [2075; 2076; 2077; 2078; 2080].
Proof.
  split; [reflexivity|].
  destruct (C10_unified_per_shard netUnified 17534 dcPayload eq_refl)
    as (_ & H & _).
  exact H.
Defined.

Lemma overall_minima_and_stars_witness :
  Forall markerNonEmpty (servers reportTies)
  ∧ ∃ summary,
      createResultEmbed reportTies = Return summary
      ∧ overallMinNQ summary
        = ofNullable (leastOf (presentNQ (servers reportTies))).
Proof.
  assert (Forall markerNonEmpty (servers reportTies)) as Hmarkers.
  { repeat constructor. discriminate. }
  split; [done|].
  destruct (overall_minima_and_stars reportTies Hmarkers)
    as (summary & Hreturn & H & _).
  exists summary. split; [exact Hreturn | exact H].
Defined.

(** ** The catalog generator *)

Example parseInt_examples :
  parseInt (js "25847") 10 = Some 25847
  ∧ parseInt (js "  -12px") 0 = Some (-12)
  ∧ parseInt (js "0x1A") 0 = Some 26
  ∧ parseInt (js "0x1A") 10 = Some 0
  ∧ parseInt (js "0x") 0 = None
  ∧ parseInt [] 10 = None
  ∧ parseInt (js "Icon") 10 = None.
Proof. vm_compute. repeat split. Qed.

Example toString_examples :
  Number_toString (Some 25847) = js "25847"
  ∧ Number_toString (Some 0) = js "0"
  ∧ Number_toString (Some (-5)) = js "-5"
  ∧ Number_toString (Some 1234567) = js "1234567".
Proof. vm_compute. repeat split. Qed.

Example iconOf_examples :
  iconOf (js "25847") = Some (js "/i/025000/025847.png")
  ∧ iconOf (js "0") = None
  ∧ iconOf [] = None
  ∧ iconOf (js "n/a") = None
  ∧ iconOf (js "1234567") = Some (js "/i/123000/1234567.png").
Proof. vm_compute. repeat split. Qed.

Example parseCSVLine_example :
  parseCSVLine (js "17534," ++ [34%N] ++ js "a, " ++ [34; 34]%N ++ js "b"
                ++ [34; 34]%N ++ js " c" ++ [34%N] ++ js ",,25847")
  = [js "17534"; js "a, " ++ [34%N] ++ js "b" ++ [34%N] ++ js " c"; [];
     js "25847"].
Proof. vm_compute. reflexivity. Qed.

Lemma isWhiteSpace_range c :
  JSString.isWhiteSpace c = true → (c ≤ 32 ∨ 160 ≤ c)%N.
Proof.
  unfold JSString.isWhiteSpace.
  rewrite !orb_true_iff, !andb_true_iff, !N.leb_le, !N.eqb_eq. lia.
Qed.

Lemma isWhiteSpace_decimal c :
  isDecimalDigit c → JSString.isWhiteSpace c = false.
Proof.
  intros Hc. destruct (JSString.isWhiteSpace c) eqn:Hws; [|done].
  apply isWhiteSpace_range in Hws. unfold isDecimalDigit in Hc. lia.
Qed.

Lemma digitValue_decimal c :
  isDecimalDigit c → digitValue c = Some (Z.of_N c - 48).
Proof.
  unfold isDecimalDigit, digitValue. intros [H1 H2].
  destruct (N.leb_spec 48 c); [|lia]. by destruct (N.leb_spec c 57); [|lia].
Qed.

Lemma parseDigits_acc_Some radix s a : is_Some (parseDigits radix s (Some a)).
Proof.
  revert a. induction s as [|c s IH]; intros a; simpl; [by eexists|].
  destruct (digitValue c) as [d|]; [|by eexists].
  destruct (d <? radix); [apply IH | by eexists].
Qed.

Lemma parseDigits_decimal ds a :
  Forall isDecimalDigit ds →
  parseDigits 10 ds (Some a) = Some (decimalValue a ds).
Proof.
  intros Hds. revert a. induction Hds as [|c ds Hc _ IH]; intros a; [done|].
  simpl. rewrite (digitValue_decimal c Hc).
  unfold isDecimalDigit in Hc.
  destruct (Z.ltb_spec (Z.of_N c - 48) 10); [apply IH | lia].
Qed.

Lemma parseInt_10 s :
  parseInt s 10 =
  (λ mathInt, signOf (JSString.trimStart s) * mathInt)
  <$> parseDigits 10 (stripSign (JSString.trimStart s)) None.
Proof. reflexivity. Qed.

Lemma parseInt_0 s :
  parseInt s 0 =
  let unsigned := stripSign (JSString.trimStart s) in
  (λ mathInt, signOf (JSString.trimStart s) * mathInt)
  <$> parseDigits (if hasHexPrefix unsigned then 16 else 10)
        (if hasHexPrefix unsigned then drop 2 unsigned else unsigned) None.
Proof. reflexivity. Qed.

(** When [parseInt] without radix reads a number, so does [parseInt] in
    base 10: [iconNum] is never [NaN] when the icon field is set. *)
Lemma parseInt_0_10 s : is_Some (parseInt s 0) → is_Some (parseInt s 10).
Proof.
  rewrite parseInt_0, parseInt_10. cbn zeta.
  generalize (stripSign (JSString.trimStart s)). intros u.
  rewrite !fmap_is_Some.
  destruct (hasHexPrefix u) eqn:Hprefix; [|done]. intros _.
  destruct u as [|c0 [|c1 u]]; try discriminate. simpl in Hprefix.
  apply andb_true_iff in Hprefix as [->%N.eqb_eq _].
  change (parseDigits 10 (48%N :: c1 :: u) None)
    with (parseDigits 10 (c1 :: u) (Some 0)).
  apply parseDigits_acc_Some.
Qed.

Lemma parseInt_decimal ds radix :
  radix = 0 ∨ radix = 10 →
  Forall isDecimalDigit ds → ds ≠ [] →
  parseInt ds radix = Some (decimalValue 0 ds).
Proof.
  intros Hradix Hds Hne. destruct Hds as [|c ds Hc Hds]; [done|].
  assert (JSString.trimStart (c :: ds) = c :: ds) as Htrim.
  { simpl. by rewrite isWhiteSpace_decimal. }
  assert (signOf (c :: ds) = 1 ∧ stripSign (c :: ds) = c :: ds) as [Hsign Hstrip].
  { unfold signOf, stripSign, isDecimalDigit in *.
    destruct (N.eqb_spec c 45); [lia|]. destruct (N.eqb_spec c 43); [lia|].
    done. }
  assert (hasHexPrefix (c :: ds) = false) as Hprefix.
  { destruct Hds as [|c1 ds Hc1 _]; [done|]. simpl.
    unfold isDecimalDigit in Hc1.
    destruct (N.eqb_spec c1 120); [lia|]. destruct (N.eqb_spec c1 88); [lia|].
    by rewrite andb_false_r. }
  assert (parseDigits 10 (c :: ds) None = Some (decimalValue 0 (c :: ds)))
    as Hdigits.
  { simpl. rewrite (digitValue_decimal c Hc). unfold isDecimalDigit in Hc.
    destruct (Z.ltb_spec (Z.of_N c - 48) 10); [|lia].
    by apply parseDigits_decimal. }
  destruct Hradix as [-> | ->].
  - rewrite parseInt_0, Htrim, Hstrip, Hsign. cbn zeta.
    rewrite Hprefix, Hdigits. simpl. f_equal. lia.
  - rewrite parseInt_10, Htrim, Hstrip, Hsign, Hdigits. simpl. f_equal. lia.
Qed.

Lemma decimalValue_snoc a ds c :
  decimalValue a (ds ++ [c]) = decimalValue a ds * 10 + (Z.of_N c - 48).
Proof. unfold decimalValue. by rewrite foldl_app. Qed.

(** The digits written for [n]: decimal digits that read back as [n],
    at least one, and as many as [n] needs. *)
Lemma decimalDigits_spec fuel n acc :
  (0 < fuel)%nat → 0 ≤ n < 2 ^ Z.of_nat fuel →
  ∃ ds, decimalDigits fuel n acc = ds ++ acc
        ∧ Forall isDecimalDigit ds
        ∧ (0 < length ds)%nat
        ∧ (∀ a, decimalValue a ds = a * 10 ^ Z.of_nat (length ds) + n)
        ∧ (0 < n → 10 ^ (Z.of_nat (length ds) - 1) ≤ n).
Proof.
  revert n acc. induction fuel as [|fuel IH]; intros n acc Hfuel Hn; [lia|].
  assert (isDecimalDigit (Z.to_N (48 + n mod 10))
          ∧ Z.of_N (Z.to_N (48 + n mod 10)) - 48 = n mod 10) as [Hd Hval].
  { pose proof (Z.mod_pos_bound n 10). unfold isDecimalDigit. lia. }
  simpl. destruct (Z.ltb_spec n 10) as [Hsmall|Hbig].
  - exists [Z.to_N (48 + n mod 10)]. repeat split.
    + by constructor.
    + simpl. lia.
    + intros a. unfold decimalValue. simpl. rewrite Hval.
      rewrite Z.mod_small by lia. lia.
    + simpl. lia.
  - rewrite Nat2Z.inj_succ, Z.pow_succ_r in Hn by lia.
    assert (0 < fuel)%nat as Hfuel'.
    { destruct fuel; [simpl in Hn; lia | lia]. }
    assert (0 ≤ n / 10 < 2 ^ Z.of_nat fuel) as Hn'.
    { split; [apply Z.div_pos; lia|].
      apply Z.div_lt_upper_bound; lia. }
    destruct (IH (n / 10) (Z.to_N (48 + n mod 10) :: acc) Hfuel' Hn')
      as (ds & Heq & Hds & Hlen & Hvalue & Hlead).
    exists (ds ++ [Z.to_N (48 + n mod 10)]). repeat split.
    + by rewrite Heq, <- app_assoc.
    + apply Forall_app. split; [done | by constructor].
    + rewrite length_app. lia.
    + intros a. rewrite decimalValue_snoc, Hvalue, Hval, length_app. simpl.
      rewrite Nat2Z.inj_add, Z.pow_add_r by lia.
      pose proof (Z.div_mod n 10). lia.
    + intros _. rewrite length_app. simpl.
      replace (Z.of_nat (length ds + 1) - 1)
        with (Z.succ (Z.of_nat (length ds) - 1)) by lia.
      rewrite Z.pow_succ_r by lia.
      assert (0 < n / 10) as Hpos by (apply Z.div_str_pos; lia).
      specialize (Hlead Hpos). pose proof (Z.div_mod n 10).
      pose proof (Z.mod_pos_bound n 10). lia.
Qed.

Lemma Number_toString_nonneg n :
  0 ≤ n →
  Forall isDecimalDigit (Number_toString (Some n))
  ∧ (0 < length (Number_toString (Some n)))%nat
  ∧ decimalValue 0 (Number_toString (Some n)) = n
  ∧ (0 < n → 10 ^ (Z.of_nat (length (Number_toString (Some n))) - 1) ≤ n).
Proof.
  intros Hn. unfold Number_toString.
  destruct (Z.ltb_spec n 0); [lia|].
  destruct (decimalDigits_spec (S (Z.to_nat (Z.log2 n))) n [])
    as (ds & Heq & Hds & Hlen & Hvalue & Hlead); [lia| |].
  - rewrite Nat2Z.inj_succ, Z2Nat.id by apply Z.log2_nonneg.
    destruct (decide (n = 0)) as [->|?]; [done|].
    pose proof (Z.log2_spec n). lia.
  - rewrite Heq, app_nil_r. repeat split; try done; rewrite Hvalue; lia.
Qed.

(** Writing a non-negative integer and reading it back. *)
Lemma parseInt_toString n radix :
  radix = 0 ∨ radix = 10 → 0 ≤ n →
  parseInt (Number_toString (Some n)) radix = Some n.
Proof.
  intros Hradix Hn.
  destruct (Number_toString_nonneg n Hn) as (Hds & Hlen & Hvalue & _).
  rewrite parseInt_decimal; [by rewrite Hvalue | done | done |].
  intros Hnil. rewrite Hnil in Hlen. simpl in Hlen. lia.
Qed.

Lemma padStart_length s n fill :
  length (JSString.padStart s n fill) = Nat.max n (length s).
Proof.
  unfold JSString.padStart. rewrite length_app, length_replicate. lia.
Qed.

Lemma toString_length_lt n k :
  0 < n < 10 ^ Z.of_nat k → (length (Number_toString (Some n)) ≤ k)%nat.
Proof.
  intros [Hpos Hlt].
  destruct (Number_toString_nonneg n) as (_ & Hlen & _ & Hlead); [lia|].
  specialize (Hlead Hpos).
  destruct (decide (length (Number_toString (Some n)) ≤ k)%nat); [done|].
  exfalso.
  assert (10 ^ Z.of_nat k ≤ 10 ^ (Z.of_nat (length (Number_toString (Some n))) - 1)).
  { apply Z.pow_le_mono_r; lia. }
  lia.
Qed.

Lemma decimalValue_zeros k ds :
  decimalValue 0 (replicate k 48%N ++ ds) = decimalValue 0 ds.
Proof. induction k as [|k IH]; [done | exact IH]. Qed.

Lemma trim_nil_inv s : JSString.trim s ≠ [] → s ≠ [].
Proof. by intros H ->. Qed.

Lemma iconOf_is_Some cell :
  is_Some (iconOf cell) ↔
  cell ≠ [] ∧ cell ≠ js "0" ∧ is_Some (parseInt cell 0).
Proof.
  unfold iconOf. repeat case_bool_decide; simpl; split;
    try (intros [? [=]]); try tauto; by intros _; eexists.
Qed.

Lemma iconOf_Some cell iconNum :
  cell ≠ [] → cell ≠ js "0" → is_Some (parseInt cell 0) →
  parseInt cell 10 = Some iconNum →
  iconOf cell =
  Some (js "/i/"
        ++ (take 3 (JSString.padStart (Number_toString (Some iconNum)) 6 48%N)
            ++ js "000")
        ++ js "/" ++ JSString.padStart (Number_toString (Some iconNum)) 6 48%N
        ++ js ".png").
Proof.
  intros H1 H2 H3 H4. unfold iconOf.
  rewrite !bool_decide_eq_true_2 by done. by rewrite H4.
Qed.

(** X25: a row with enough cells, a first cell that [parseInt] reads in
    base 10 as an id with 0 < id < 2^53 and a name that is not blank is
    emitted with this id and its trimmed name; it has an icon field
    exactly when the icon cell is not empty, is not the text "0" and
    starts with a number for [parseInt]; when the number read in base 10
    is below 2^53 in absolute value, the field is
    /i/<folder>/<padded>.png where <padded> is the decimal text of this
    number, padded with "0" to at least 6 characters, and <folder> is
    its first 3 characters followed by "000". For a cell that is the
    decimal text of n with 0 < n < 2^53, <padded> is the cell padded
    with zeros, of value n, and of exactly 6 digits when n < 10^6. *)
Theorem icon_field_of_row (nameIndex iconIndex : nat) (cols : list JSString.t)
    (id : Z) :
  (Nat.max nameIndex iconIndex < length cols)%nat →
  parseInt (default [] (cols !! 0%nat)) 10 = Some id →
  0 < id < 2 ^ 53 →
  JSString.trim (default [] (cols !! nameIndex)) ≠ [] →
  let name := default [] (cols !! nameIndex) in
  let cell := default [] (cols !! iconIndex) in
  ∃ icon,
  parseRow nameIndex iconIndex cols
  = RowItem (Item.mk id (JSString.trim name) icon)
  ∧ (is_Some icon ↔
     cell ≠ [] ∧ cell ≠ js "0" ∧ is_Some (parseInt cell 0))
  ∧ (∀ path, icon = Some path →
       ∃ iconNum, parseInt cell 10 = Some iconNum
         ∧ (Z.abs iconNum < 2 ^ 53 →
            let padded :=
              JSString.padStart (Number_toString (Some iconNum)) 6 48%N in
            path = js "/i/" ++ (take 3 padded ++ js "000") ++ js "/"
                   ++ padded ++ js ".png"
            ∧ (6 ≤ length padded)%nat))
  ∧ (∀ n, 0 < n < 2 ^ 53 → cell = Number_toString (Some n) →
       let padded := JSString.padStart cell 6 48%N in
       icon
       = Some (js "/i/" ++ (take 3 padded ++ js "000") ++ js "/"
               ++ padded ++ js ".png")
       ∧ Forall isDecimalDigit padded
       ∧ decimalValue 0 padded = n
       ∧ (n < 10 ^ 6 → length padded = 6%nat)).
Proof.
  intros Hcols Hid Hpos Hname name cell. exists (iconOf cell).
  split.
  { unfold parseRow. rewrite decide_False by lia. rewrite Hid.
    destruct (Z.ltb_spec 0 id); [|lia].
    rewrite !bool_decide_eq_true_2; [done | done | by apply trim_nil_inv]. }
  split; [apply iconOf_is_Some|].
  split.
  { intros path Hpath.
    assert (is_Some (iconOf cell)) as Hsome by (by eexists).
    apply iconOf_is_Some in Hsome as (H1 & H2 & H3).
    destruct (parseInt_0_10 cell H3) as [iconNum HiconNum].
    exists iconNum. split; [done|]. intros _. cbn zeta.
    rewrite (iconOf_Some cell iconNum) in Hpath by done.
    injection Hpath as <-. split; [done|].
    rewrite padStart_length. lia. }
  intros n Hn Hcell. cbn zeta.
  destruct (Number_toString_nonneg n) as (Hds & Hlen & Hvalue & _); [lia|].
  rewrite <- Hcell in Hds, Hlen, Hvalue.
  assert (cell ≠ []) as H1.
  { intros Hnil. rewrite Hnil in Hlen. simpl in Hlen. lia. }
  assert (cell ≠ js "0") as H2.
  { intros H0. rewrite H0 in Hvalue. vm_compute in Hvalue. lia. }
  assert (parseInt cell 0 = Some n ∧ parseInt cell 10 = Some n) as [H3 H4].
  { rewrite Hcell. split; apply parseInt_toString; lia || auto. }
  split.
  { rewrite (iconOf_Some cell n); [by rewrite <- Hcell | done | done | | done].
    by rewrite H3. }
  split.
  { unfold JSString.padStart. apply Forall_app. split; [|done].
    apply Forall_replicate. unfold isDecimalDigit. lia. }
  split.
  { unfold JSString.padStart. by rewrite decimalValue_zeros. }
  intros Hsmall. rewrite padStart_length.
  assert (length cell ≤ 6)%nat; [|lia].
  rewrite Hcell. apply toString_length_lt. simpl. lia.
Qed.

Lemma parseRows_foldl nameIndex iconIndex (l : list JSString.t)
    (items : list Item.t) (errorCount : Z) :
  (foldl (λ '(items, errorCount) rawLine,
            let line := JSString.trim rawLine in
            if decide (line = []) then (items, errorCount)
            else
              match parseRow nameIndex iconIndex (parseCSVLine line) with
              | RowSkipped => (items, errorCount + 1)
              | RowDropped => (items, errorCount)
              | RowItem item => (items ++ [item], errorCount)
              end)
         (items, errorCount) l).1
  = items ++
    omap (λ rawLine,
            if decide (JSString.trim rawLine = []) then None
            else match parseRow nameIndex iconIndex
                         (parseCSVLine (JSString.trim rawLine)) with
                 | RowItem item => Some item
                 | _ => None
                 end) l.
Proof.
  revert items errorCount. induction l as [|raw l IH]; intros items errorCount.
  - simpl. by rewrite app_nil_r.
  - cbn [foldl omap list_omap]. cbn zeta.
    destruct (decide (JSString.trim raw = [])); [apply IH|].
    destruct (parseRow _ _ _); rewrite IH; [done | done |].
    by rewrite <- app_assoc.
Qed.

(** The items the loop emits are the items of the rows, in order. *)
Lemma parseRows_items nameIndex iconIndex lines :
  (parseRows nameIndex iconIndex lines).1 =
  omap (λ rawLine,
          if decide (JSString.trim rawLine = []) then None
          else match parseRow nameIndex iconIndex
                       (parseCSVLine (JSString.trim rawLine)) with
               | RowItem item => Some item
               | _ => None
               end) (drop 3 lines).
Proof. unfold parseRows. by rewrite parseRows_foldl. Qed.

Example row_dye :
  parseRow 1 2 rowDye
  = RowItem (Item.mk 17534 (js "Pure White Dye")
               (Some (js "/i/025000/025847.png"))).
Proof. vm_compute. reflexivity. Qed.

(** A row that lacks the icon cell is skipped, whatever its id and name. *)
Example short_row_skipped :
  parseRow 1 2 [js "17534"; js "Potion"] = RowSkipped.
Proof. reflexivity. Qed.

Example lines_example :
  parseRows 1 2 [js "key,0,1"; js "#,Name,Icon"; js "int32,str,Image";
                 js "1,Gil,65002"; js "  "; js "2,,0"; js "3,Potion,0";
                 js "4,Short"]
  = ([Item.mk 1 (js "Gil") (Some (js "/i/065000/065002.png"));
      Item.mk 3 (js "Potion") None], 1).
Proof. vm_compute. reflexivity. Qed.

(** C9: the guard on the icon cell compares its text with "0"
    ([iconId !== '0']), not the icon id with 0. For a cell of two or more
    zeros, which is present, numeric and has the icon id 0, the row is
    emitted with the icon field /i/000000/000000.png, while the cell "0"
    gives no icon field. *)
Theorem C9_zero_icon_emitted (k : nat) :
  let cell := replicate (S (S k)) 48%N in
  parseInt cell 10 = Some 0
  ∧ iconOf cell = Some (js "/i/000000/000000.png")
  ∧ parseRow 1 2 [js "17534"; js "Potion"; cell]
    = RowItem (Item.mk 17534 (js "Potion")
                 (Some (js "/i/000000/000000.png")))
  ∧ iconOf (js "0") = None.
Proof.
  intros cell.
  assert (Forall isDecimalDigit cell) as Hdigits.
  { apply Forall_replicate. unfold isDecimalDigit. lia. }
  assert (decimalValue 0 cell = 0) as Hvalue.
  { unfold cell. rewrite <- (app_nil_r (replicate _ _)).
    by rewrite decimalValue_zeros. }
  assert (cell ≠ []) as Hne by done.
  assert (cell ≠ js "0") as Hzero by done.
  assert (∀ radix, radix = 0 ∨ radix = 10 → parseInt cell radix = Some 0)
    as Hparse.
  { intros radix Hradix. by rewrite parseInt_decimal, Hvalue. }
  assert (iconOf cell = Some (js "/i/000000/000000.png")) as Hicon.
  { rewrite (iconOf_Some cell 0); [done | done | done | | by apply Hparse; right].
    rewrite Hparse by (by left). by eexists. }
  split; [by apply Hparse; right|]. split; [exact Hicon|].
  split; [|reflexivity].
  transitivity (RowItem (Item.mk 17534 (js "Potion") (iconOf cell)));
    [reflexivity | by rewrite Hicon].
Qed.

Lemma icon_field_of_row_witness :
  (Nat.max 1 2 < length rowDye)%nat
  ∧ parseInt (default [] (rowDye !! 0%nat)) 10 = Some 17534
  ∧ 0 < 17534 < 2 ^ 53
  ∧ JSString.trim (default [] (rowDye !! 1%nat)) ≠ []
  ∧ ∃ icon,
      parseRow 1 2 rowDye
      = RowItem (Item.mk 17534 (JSString.trim (js " Pure White Dye ")) icon).
Proof.
  assert (Nat.max 1 2 < length rowDye)%nat as Hcols by (simpl; lia).
  assert (parseInt (default [] (rowDye !! 0%nat)) 10 = Some 17534) as Hid
    by (vm_compute; reflexivity).
  assert (0 < 17534 < 2 ^ 53) as Hpos by (vm_compute; split; reflexivity).
  assert (JSString.trim (default [] (rowDye !! 1%nat)) ≠ []) as Hname
    by (vm_compute; discriminate).
  repeat (split; [done|]).
  destruct (icon_field_of_row 1 2 rowDye 17534 Hcols Hid Hpos Hname)
    as (icon & H & _).
  exists icon. exact H.
Defined.

(* ================================================================== *)
(** * Further properties of the resolver *)
(* ================================================================== *)

Lemma tierOf_is_Some q name :
  is_Some (tierOf q name) ↔ ∃ a b, name = a ++ q ++ b.
Proof.
  split.
  - intros [T HT]. apply tierOf_inTier in HT. destruct T; simpl in HT.
    + destruct HT as [k ->]. exists k, []. by rewrite app_nil_r.
    + destruct HT as (_ & k & ->). by exists [], k.
    + by destruct HT as (_ & _ & ?).
  - intros Hin. apply includes_infix in Hin. unfold tierOf.
    rewrite Hin. repeat case_match; by eexists.
Qed.

Lemma set_keys {V} (m : JSMap.t V) k v :
  JSMap.keys (JSMap.set m k v)
  = if decide (k ∈ JSMap.keys m) then JSMap.keys m else JSMap.keys m ++ [k].
Proof.
  unfold JSMap.keys. induction m as [|[k0 v0] m IH].
  - cbn [JSMap.set fmap list_fmap fst].
    by rewrite decide_False by apply not_elem_of_nil.
  - cbn [JSMap.set]. destruct (decide (k0 = k)) as [->|Hne].
    + rewrite !fmap_cons. cbn [fst]. rewrite decide_True; [done | left].
    + rewrite !fmap_cons. cbn [fst]. rewrite IH.
      destruct (decide (k ∈ m.*1)) as [Hin|Hnotin].
      * rewrite decide_True; [done | by right].
      * rewrite decide_False; [done|].
        intros [?|?]%elem_of_cons; congruence.
Qed.

Lemma firstOccurrences_snoc {A} `{EqDecision A} (l : list A) x :
  firstOccurrences (l ++ [x])
  = if decide (x ∈ firstOccurrences l) then firstOccurrences l
    else firstOccurrences l ++ [x].
Proof.
  unfold firstOccurrences. rewrite reverse_snoc. simpl.
  destruct (decide_rel elem_of x (reverse l)) as [Hin|Hnotin].
  - rewrite decide_True; [done|].
    by rewrite elem_of_reverse, elem_of_remove_dups.
  - rewrite decide_False, reverse_cons; [done|].
    by rewrite elem_of_reverse, elem_of_remove_dups.
Qed.

Lemma firstOccurrences_elem_of {A} `{EqDecision A} (l : list A) x :
  x ∈ firstOccurrences l ↔ x ∈ l.
Proof.
  unfold firstOccurrences.
  by rewrite elem_of_reverse, elem_of_remove_dups, elem_of_reverse.
Qed.

Lemma firstOccurrences_NoDup {A} `{EqDecision A} (l : list A) :
  NoDup (firstOccurrences l).
Proof.
  unfold firstOccurrences. rewrite reverse_Permutation.
  apply NoDup_remove_dups.
Qed.

Section ResolverMore.
Variable toLowerCase : JSString.t → JSString.t.

Local Abbreviation load := (loadKoreanItemDB toLowerCase).
Local Abbreviation search := (searchKoreanItem toLowerCase).
Local Abbreviation normalized it := (toLowerCase (Item.name it)).

Lemma load_snoc data it db :
  load (data ++ [it]) db = JSMap.set (load data db) (normalized it) it.
Proof. unfold loadKoreanItemDB. by rewrite foldl_app. Qed.

(** X1: the Map iterates over the distinct lower-cased names in the order
    of their first appearance in the file; its size is their number, and
    it is empty only for an empty file. *)
Theorem catalog_keys_first_occurrences (data : list Item.t) :
  let db := load data JSMap.empty in
  JSMap.keys db = firstOccurrences ((λ it, normalized it) <$> data)
  ∧ length db = length (remove_dups ((λ it, normalized it) <$> data))
  ∧ (db = [] ↔ data = []).
Proof.
  intros db.
  assert (JSMap.keys db = firstOccurrences ((λ it, normalized it) <$> data))
    as Hkeys.
  { unfold db. induction data as [|it data IH] using rev_ind; [done|].
    rewrite load_snoc, set_keys, IH, fmap_app. simpl.
    by rewrite firstOccurrences_snoc. }
  split; [done|]. split.
  - transitivity (length (JSMap.keys db));
      [unfold JSMap.keys; by rewrite length_fmap|].
    rewrite Hkeys. apply Permutation_length, NoDup_Permutation.
    + apply firstOccurrences_NoDup.
    + apply NoDup_remove_dups.
    + intros k. by rewrite firstOccurrences_elem_of, elem_of_remove_dups.
  - split.
    + intros Hdb. destruct data as [|it data]; [done|]. exfalso.
      assert (normalized it ∈ JSMap.keys db) as Hin.
      { rewrite Hkeys, firstOccurrences_elem_of. left. }
      rewrite Hdb in Hin. by apply elem_of_nil in Hin.
    + by intros ->.
Qed.

Lemma allMatches_elem_of db q x :
  keyedByNormalizedName toLowerCase db →
  x ∈ allMatches db q ↔
  x ∈ JSMap.values db ∧ is_Some (tierOf q (normalized x)).
Proof.
  intros Hdb. rewrite (allMatches_tiers toLowerCase) by done.
  rewrite !elem_of_app, !Array_sort_Permutation. unfold tierItems.
  rewrite !list_elem_of_filter. split.
  - intros [[H ?]|[[H ?]|[H ?]]]; rewrite H; split; by eauto.
  - intros [Hin [[| |] HT]]; rewrite HT; tauto.
Qed.

Lemma search_results_subset db query x :
  JSMap.has db (toLowerCase query) = false →
  item (search db query) = Some x ∨ x ∈ suggestions (search db query) →
  x ∈ allMatches db (toLowerCase query).
Proof.
  intros Hhas. rewrite (search_no_exact_match toLowerCase) by done. simpl.
  intros [Hhead|Hin].
  - destruct (allMatches db (toLowerCase query)); simplify_eq/=. left.
  - by eapply subseteq_drop, subseteq_take.
Qed.

(** X2: every entry the search returns, as primary or as alternate, is an
    entry of the catalog whose lower-cased name contains the lower-cased
    query. *)
Theorem search_results_match (data : list Item.t) (query : JSString.t)
    (x : Item.t) :
  let db := load data JSMap.empty in
  item (search db query) = Some x ∨ x ∈ suggestions (search db query) →
  x ∈ JSMap.values db
  ∧ ∃ a b, normalized x = a ++ toLowerCase query ++ b.
Proof.
  intros db Hx. pose proof (load_empty_keyed toLowerCase data) as Hdb.
  fold db in Hdb. rewrite <- tierOf_is_Some.
  destruct (JSMap.has db (toLowerCase query)) eqn:Hhas.
  - unfold searchKoreanItem in Hx. rewrite Hhas in Hx. simpl in Hx.
    destruct Hx as [Hget|Hin]; [|by apply elem_of_nil in Hin].
    apply get_elem_of in Hget. split.
    + apply list_elem_of_fmap. by exists (toLowerCase query, x).
    + rewrite <- (proj2 Hdb _ _ Hget). apply tierOf_is_Some.
      exists [], []. by rewrite app_nil_r.
  - apply (allMatches_elem_of db (toLowerCase query) x Hdb).
    by apply search_results_subset.
Qed.

(** X3: the search returns no primary exactly when no entry of the catalog
    has a lower-cased name that contains the lower-cased query; there is
    then no alternate either. *)
Theorem search_null_iff (data : list Item.t) (query : JSString.t) :
  let db := load data JSMap.empty in
  (item (search db query) = None ↔
   ∀ x, x ∈ JSMap.values db →
        ¬ ∃ a b, normalized x = a ++ toLowerCase query ++ b)
  ∧ (item (search db query) = None → suggestions (search db query) = []).
Proof.
  intros db. pose proof (load_empty_keyed toLowerCase data) as Hdb.
  fold db in Hdb.
  destruct (JSMap.has db (toLowerCase query)) eqn:Hhas.
  - apply has_true in Hhas as [v Hget].
    assert (item (search db query) = Some v) as Hitem.
    { unfold searchKoreanItem.
      replace (JSMap.has db (toLowerCase query)) with true; [done|].
      symmetry. apply has_true. by eexists. }
    rewrite Hitem. split; [|done]. split; [done|]. intros Hnone. exfalso.
    apply get_elem_of in Hget. apply (Hnone v).
    + apply list_elem_of_fmap. by exists (toLowerCase query, v).
    + rewrite <- (proj2 Hdb _ _ Hget). exists [], []. by rewrite app_nil_r.
  - rewrite (search_no_exact_match toLowerCase) by done. simpl.
    pose proof (allMatches_elem_of db (toLowerCase query)) as Hall.
    destruct (allMatches db (toLowerCase query)) as [|p l] eqn:Heq; simpl.
    + split; [|done]. split; [|done]. intros _ x Hx Hcontains.
      apply tierOf_is_Some in Hcontains.
      assert (x ∈ @nil Item.t) as Hnil by (by apply Hall).
      by apply elem_of_nil in Hnil.
    + split; [|done]. split; [done|]. intros Hnone. exfalso.
      destruct (proj1 (Hall p Hdb)) as [Hp Hmatch]; [left|].
      apply (Hnone p Hp). by apply tierOf_is_Some.
Qed.

Lemma tierItems_rank db q T x :
  x ∈ Array_sort sortFn (tierItems toLowerCase db q T) →
  tierRank (tierOf q (normalized x)) = tierRank (Some T).
Proof.
  rewrite Array_sort_Permutation. unfold tierItems.
  rewrite list_elem_of_filter. by intros [-> _].
Qed.

Lemma tier_bestFirst db q T :
  StronglySorted (bestFirst toLowerCase q)
    (Array_sort sortFn (tierItems toLowerCase db q T)).
Proof.
  destruct (Array_sort_sortFn (tierItems toLowerCase db q T)) as [Hsorted _].
  pose proof (tierItems_rank db q T) as Hrank.
  induction Hsorted as [|x l _ IH Hx]; constructor.
  - apply IH. intros y Hy. apply Hrank. by right.
  - rewrite Forall_forall in *. intros y Hy. right. split; [|by apply Hx].
    rewrite (Hrank x), (Hrank y); [done | by right | left].
Qed.

Lemma allMatches_bestFirst db q :
  keyedByNormalizedName toLowerCase db →
  StronglySorted (bestFirst toLowerCase q) (allMatches db q).
Proof.
  intros Hdb. rewrite (allMatches_tiers toLowerCase) by done.
  rewrite !StronglySorted_app. repeat split; try apply tier_bestFirst.
  - intros x y Hx [Hy|Hy]%elem_of_app; left;
      rewrite (tierItems_rank _ _ _ _ Hx), (tierItems_rank _ _ _ _ Hy);
      simpl; lia.
  - intros x y Hx Hy. left.
    rewrite (tierItems_rank _ _ _ _ Hx), (tierItems_rank _ _ _ _ Hy).
    simpl; lia.
Qed.

(** X4: with no exact match, the matches are ordered by tier, then by name
    length, then by id, over the three tiers together; the primary is
    therefore at least as good as every entry of the catalog that contains
    the query. *)
Theorem search_best_first (data : list Item.t) (query : JSString.t) :
  let db := load data JSMap.empty in
  let q := toLowerCase query in
  JSMap.has db q = false →
  StronglySorted (bestFirst toLowerCase q) (allMatches db q)
  ∧ (∀ p y, item (search db query) = Some p →
       y ∈ JSMap.values db →
       (∃ a b, normalized y = a ++ q ++ b) →
       bestFirst toLowerCase q p y).
Proof.
  intros db q Hhas. pose proof (load_empty_keyed toLowerCase data) as Hdb.
  fold db in Hdb.
  pose proof (allMatches_bestFirst db q Hdb) as Hsorted.
  split; [done|]. intros p y Hp Hy Hcontains.
  apply tierOf_is_Some in Hcontains.
  assert (y ∈ allMatches db q) as Hin by (by apply allMatches_elem_of).
  rewrite (search_no_exact_match toLowerCase) in Hp by done.
  fold q in Hp. simpl in Hp.
  destruct (allMatches db q) as [|p' l]; simplify_eq/=.
  apply StronglySorted_cons in Hsorted as [Hall _].
  apply elem_of_cons in Hin as [->|Hin].
  - right. split; [done|]. unfold byLengthThenId. lia.
  - rewrite Forall_forall in Hall. by apply Hall.
Qed.

(** X5: the primary and the alternates are pairwise distinct entries, and
    there are at most 10 alternates, for every catalog and query. *)
Theorem search_results_distinct (data : list Item.t) (query : JSString.t) :
  let r := search (load data JSMap.empty) query in
  NoDup (option_list (item r) ++ suggestions r)
  ∧ (length (suggestions r) ≤ 10)%nat.
Proof.
  intros r. split; [|apply suggestions_at_most_10].
  pose proof (load_empty_keyed toLowerCase data) as Hdb.
  unfold r, searchKoreanItem.
  destruct (JSMap.has _ _) eqn:Hhas; simpl.
  - rewrite app_nil_r. destruct (JSMap.get _ _); simpl;
      [apply NoDup_singleton | apply NoDup_nil_2].
  - pose proof (allMatches_NoDup toLowerCase _ (toLowerCase query) Hdb) as Hnd.
    destruct (allMatches _ _) as [|p l]; simpl; [apply NoDup_nil_2|].
    apply NoDup_cons in Hnd as [Hp Hl]. apply NoDup_cons. split.
    + intros Hin. apply Hp. by eapply subseteq_take.
    + exact (sublist_NoDup _ _ Hl (sublist_take l 10)).
Qed.

End ResolverMore.

(* ================================================================== *)
(** * Further properties of the aggregator *)
(* ================================================================== *)

Lemma minPrice_Some (xs : list Listing.t) (m : Z) :
  minPrice xs = Some m ↔
  (∃ l, l ∈ xs ∧ Listing.pricePerUnit l = m)
  ∧ (∀ l, l ∈ xs → m ≤ Listing.pricePerUnit l).
Proof.
  rewrite minPrice_leastOf, leastOf_Some, list_elem_of_fmap. split.
  - intros [(l & -> & Hl) Hle]. split; [by exists l|].
    intros l' Hl'. by apply Hle, list_elem_of_fmap_2.
  - intros [(l & Hl & <-) Hle]. split; [by exists l|].
    intros x (l' & -> & Hl')%list_elem_of_fmap. by apply Hle.
Qed.

Lemma minPrice_None (xs : list Listing.t) : minPrice xs = None ↔ xs = [].
Proof.
  rewrite minPrice_leastOf, leastOf_None. split; [|by intros ->].
  by intros ?%fmap_nil_inv.
Qed.

Lemma quality_split (xs : list Listing.t) :
  length xs = (length (nqOf xs) + length (hqOf xs))%nat.
Proof.
  unfold nqOf, hqOf. induction xs as [|l xs IH]; [done|].
  rewrite !filter_cons. destruct (Listing.hq l); simpl; lia.
Qed.

Lemma quality_filters_nil (xs : list Listing.t) :
  nqOf xs = [] ∧ hqOf xs = [] ↔ xs = [].
Proof.
  split; [|by intros ->]. intros [Hnq Hhq].
  pose proof (quality_split xs) as Hlen. rewrite Hnq, Hhq in Hlen.
  by destruct xs.
Qed.

(** The summary of one server in fallback mode, read off its own call. *)
Lemma fallback_summary net itemId i server :
  KOREAN_SERVERS !! i = Some server →
  servers (getAllKoreanServerPricesFallback net itemId) !! i =
  Some match getMarketData net (Server.id server) itemId with
       | Throw error =>
           ServerError (Server.name server) (Server.id server)
             (Server.emoji server) (JSError.message error)
       | Return data =>
           let listings := default [] (MarketData.listings data) in
           ServerQuote (Server.name server) (Server.id server)
             (Server.emoji server) (MarketData.hasData data)
             (Z.of_nat (length listings))
             (minPrice (nqOf listings)) (minPrice (hqOf listings))
             (MarketData.lastUploadTime data)
       end.
Proof.
  intros Hi.
  pose proof (fallback_servers_lookup net itemId i server Hi) as Hstep.
  destruct (servers (getAllKoreanServerPricesFallback net itemId) !! i)
    as [r|]; unfold fallbackStep in Hstep;
    destruct (getMarketData net (Server.id server) itemId) as [data|error];
    cbn zeta; try destruct (default [] (MarketData.listings data)) as [|l ls];
    rewrite ?decide_True in Hstep by (simpl; lia);
    simpl in Hstep; by simplify_eq.
Qed.

(** The summary of a shard that is not failure-marked is the quote of the
    listings of this shard, in both modes. *)
Lemma shard_summary_fields net itemId i server r :
  KOREAN_SERVERS !! i = Some server →
  servers (getAllKoreanServerPrices net itemId) !! i = Some r →
  hasFailureMarker r = false →
  listingCountOf r
  = JSNumber (Z.of_nat (length (shardListings net itemId server)))
  ∧ minPriceNQOf r
    = ofNullable (minPrice (nqOf (shardListings net itemId server)))
  ∧ minPriceHQOf r
    = ofNullable (minPrice (hqOf (shardListings net itemId server))).
Proof.
  intros Hi. unfold getAllKoreanServerPrices, shardListings.
  destruct (requestDC net itemId) as [data|status message].
  - rewrite unifiedReport_servers, list_lookup_fmap, Hi. simpl.
    intros [= <-] _. by rewrite unifiedResult_fields.
  - rewrite (fallback_summary net itemId i server Hi).
    destruct (getMarketData net (Server.id server) itemId);
      intros [= <-]; [done | discriminate].
Qed.

(** X6: whatever the network answers, the aggregator returns a report with
    one summary per declared server, in the declared order, and a
    data-center name that is not empty. *)
Theorem report_always_five (net : Network) (itemId : Z) :
  let report := getAllKoreanServerPrices net itemId in
  serverIdOf <$> servers report = [2075; 2076; 2077; 2078; 2080]
  ∧ dcName report ≠ [].
Proof.
  intros report. unfold report, getAllKoreanServerPrices.
  destruct (requestDC net itemId) as [data|status message].
  - split.
    + by rewrite unifiedReport_servers.
    + unfold unifiedReport, dcNameOr. simpl.
      by destruct (MarketData.dcName data) as [[|c s]|].
  - split; [|done].
    unfold getAllKoreanServerPricesFallback. cbn [servers].
    rewrite fallback_foldl. apply fallback_bind_ids.
Qed.

(** X7: in both modes, the standard-quality (resp. high-quality) price of
    a shard that is not failure-marked is m exactly when m is the price
    of one of the shard's listings of this quality and no listing of this
    quality on the shard is cheaper. *)
Theorem shard_price_is_minimum (net : Network) (itemId : Z) (i : nat)
    (server : Server.t) (r : ServerResult) (m : Z) :
  KOREAN_SERVERS !! i = Some server →
  servers (getAllKoreanServerPrices net itemId) !! i = Some r →
  hasFailureMarker r = false →
  (minPriceNQOf r = JSNumber m ↔
   (∃ l, l ∈ shardListings net itemId server
         ∧ Listing.hq l = false ∧ Listing.pricePerUnit l = m)
   ∧ (∀ l, l ∈ shardListings net itemId server →
           Listing.hq l = false → m ≤ Listing.pricePerUnit l))
  ∧ (minPriceHQOf r = JSNumber m ↔
     (∃ l, l ∈ shardListings net itemId server
           ∧ Listing.hq l = true ∧ Listing.pricePerUnit l = m)
     ∧ (∀ l, l ∈ shardListings net itemId server →
             Listing.hq l = true → m ≤ Listing.pricePerUnit l)).
Proof.
  intros Hi Hr Hok.
  destruct (shard_summary_fields net itemId i server r Hi Hr Hok)
    as (_ & -> & ->).
  assert (∀ o : option Z, ofNullable o = JSNumber m ↔ o = Some m) as Hnum.
  { intros [x|]; simpl; split; congruence. }
  rewrite !Hnum, !minPrice_Some. unfold nqOf, hqOf.
  setoid_rewrite list_elem_of_filter. split; split.
  - intros [(l & [? ?] & ?) Hle]. split; [by exists l|].
    intros l' ? ?. by apply Hle.
  - intros [(l & ? & ? & ?) Hle]. split; [by exists l|].
    intros l' [? ?]. by apply Hle.
  - intros [(l & [? ?] & ?) Hle]. split; [by exists l|].
    intros l' ? ?. by apply Hle.
  - intros [(l & ? & ? & ?) Hle]. split; [by exists l|].
    intros l' [? ?]. by apply Hle.
Qed.

(** X8: in both modes, the listing count of a shard that is not
    failure-marked is the number of its listings, which are of one
    quality or the other; the shard has no price in either quality
    exactly when it has no listing. *)
Theorem shard_count_and_prices (net : Network) (itemId : Z) (i : nat)
    (server : Server.t) (r : ServerResult) :
  KOREAN_SERVERS !! i = Some server →
  servers (getAllKoreanServerPrices net itemId) !! i = Some r →
  hasFailureMarker r = false →
  let own := shardListings net itemId server in
  listingCountOf r = JSNumber (Z.of_nat (length own))
  ∧ length own = (length (nqOf own) + length (hqOf own))%nat
  ∧ (minPriceNQOf r = JSNull ∧ minPriceHQOf r = JSNull ↔
     listingCountOf r = JSNumber 0).
Proof.
  intros Hi Hr Hok own.
  destruct (shard_summary_fields net itemId i server r Hi Hr Hok)
    as (Hcount & HNQ & HHQ). fold own in Hcount, HNQ, HHQ.
  split; [done|]. split; [apply quality_split|].
  rewrite Hcount, HNQ, HHQ.
  assert (∀ o : option Z, ofNullable o = JSNull ↔ o = None) as Hnull.
  { intros [x|]; simpl; split; congruence. }
  rewrite !Hnull, !minPrice_None, quality_filters_nil.
  split; [by intros -> | intros [= Hlen]]. destruct own; [done | simpl in Hlen; lia].
Qed.

Lemma minPrice_prices xs ys :
  Listing.pricePerUnit <$> xs = Listing.pricePerUnit <$> ys →
  minPrice xs = minPrice ys.
Proof. unfold minPrice. by intros ->. Qed.

(** X9: the two modes compute the same quote: the summary that fallback
    mode derives from the payload of one world is, in count and in both
    minimum prices, the summary that unified mode derives from the same
    listings tagged with the id of this world. *)
Theorem modes_agree (net : Network) (itemId : Z) (i : nat)
    (server : Server.t) (data : MarketData.t) :
  KOREAN_SERVERS !! i = Some server →
  getMarketData net (Server.id server) itemId = Return data →
  ∃ r, servers (getAllKoreanServerPricesFallback net itemId) !! i = Some r
       ∧ hasFailureMarker r = false
       ∧ let unified :=
           unifiedResult (asDataCenterPayload (Server.id server) data)
                         server in
         listingCountOf r = listingCountOf unified
         ∧ minPriceNQOf r = minPriceNQOf unified
         ∧ minPriceHQOf r = minPriceHQOf unified.
Proof.
  intros Hi Hdata. eexists. split.
  { rewrite (fallback_summary net itemId i server Hi), Hdata. done. }
  split; [done|]. cbn zeta. rewrite unifiedResult_fields. cbn zeta.
  unfold listingsOf, asDataCenterPayload. simpl.
  set (ls := default [] (MarketData.listings data)).
  set (tag := λ l, Listing.mk (Some (Server.id server)) (Listing.hq l)
                     (Listing.pricePerUnit l)).
  assert (filter (λ l, Listing.worldID l = Some (Server.id server))
                 (tag <$> ls) = tag <$> ls) as ->.
  { induction ls as [|l ls IH]; [done|].
    rewrite fmap_cons, filter_cons_True by done. by rewrite IH. }
  rewrite length_fmap. split; [done|]. split; f_equal.
  - symmetry. apply minPrice_prices. unfold nqOf.
    rewrite <- (filter_fmap_agree tag (λ l, Listing.hq l = false)
                  (λ l, Listing.hq l = false)) by done.
    by rewrite <- list_fmap_compose.
  - symmetry. apply minPrice_prices. unfold hqOf.
    rewrite <- (filter_fmap_agree tag (λ l, Listing.hq l = true)
                  (λ l, Listing.hq l = true)) by done.
    by rewrite <- list_fmap_compose.
Qed.

(** X10: in unified mode, the recent-trade minimum of a quality is m
    exactly when m is the price of an entry of this quality in the payload's
    recent history and no such entry is cheaper; it does not depend on
    the listings. *)
Theorem recent_trade_is_minimum (net : Network) (itemId : Z)
    (data : MarketData.t) (m : Z) :
  requestDC net itemId = Resolved data →
  let report := getAllKoreanServerPrices net itemId in
  let history := default [] (MarketData.recentHistory data) in
  (recentTradeMinNQ report = Some m ↔
   (∃ h, h ∈ history ∧ Listing.hq h = false ∧ Listing.pricePerUnit h = m)
   ∧ (∀ h, h ∈ history → Listing.hq h = false → m ≤ Listing.pricePerUnit h))
  ∧ (recentTradeMinHQ report = Some m ↔
     (∃ h, h ∈ history ∧ Listing.hq h = true ∧ Listing.pricePerUnit h = m)
     ∧ (∀ h, h ∈ history → Listing.hq h = true → m ≤ Listing.pricePerUnit h))
  ∧ (recentTradeMinNQ report = None ↔ nqOf history = [])
  ∧ (recentTradeMinHQ report = None ↔ hqOf history = []).
Proof.
  intros Hdc report history.
  assert (recentTradeMinNQ report = minPrice (nqOf history)
          ∧ recentTradeMinHQ report = minPrice (hqOf history)) as [-> ->].
  { unfold report, getAllKoreanServerPrices. rewrite Hdc.
    unfold unifiedReport. cbn [recentTradeMinNQ recentTradeMinHQ].
    fold history. by destruct history. }
  rewrite !minPrice_Some, !minPrice_None. unfold nqOf, hqOf.
  setoid_rewrite list_elem_of_filter.
  repeat split; try done; firstorder.
Qed.

(** ** The no-data message *)

Lemma present_filter_length (price : ServerResult → JSValue)
    (present : ServerResult → option Z) (servers : list ServerResult) :
  Forall (λ r, if truthy (errorOf r) then present r = None
               else price r = ofNullable (present r)) servers →
  length (filter (λ r, truthy (errorOf r) = false
                       ∧ strictEquals (price r) JSNull = false) servers)
  = length (omap present servers).
Proof.
  induction 1 as [|r servers Hr _ IH]; [done|].
  rewrite filter_cons. cbn [omap list_omap].
  destruct (truthy (errorOf r)) eqn:Herr.
  - rewrite Hr. by rewrite decide_False by (intros [? _]; done).
  - destruct (present r) as [p|]; rewrite Hr; cbn [ofNullable].
    + rewrite decide_True by done. simpl. by rewrite IH.
    + by rewrite decide_False by (intros [_ ?]; done).
Qed.

Lemma summaryOf_noData report :
  Forall markerNonEmpty (servers report) →
  noData (summaryOf report) = true ↔
  presentNQ (servers report) = [] ∧ presentHQ (servers report) = [].
Proof.
  intros Hall. unfold summaryOf. cbn [noData].
  rewrite andb_true_iff, !bool_decide_eq_true.
  rewrite (present_filter_length minPriceNQOf _ _ (markerNonEmpty_NQ _ Hall)).
  rewrite (present_filter_length minPriceHQOf _ _ (markerNonEmpty_HQ _ Hall)).
  fold (presentNQ (servers report)). fold (presentHQ (servers report)).
  by rewrite !length_zero_iff_nil.
Qed.

Lemma stars_lookup report i r :
  Forall markerNonEmpty (servers report) →
  servers report !! i = Some r →
  stars (summaryOf report) !! i = Some true ↔
  hasFailureMarker r = false
  ∧ ((∃ p, minPriceNQOf r = JSNumber p
           ∧ leastOf (presentNQ (servers report)) = Some p)
     ∨ (∃ p, minPriceHQOf r = JSNumber p
             ∧ leastOf (presentHQ (servers report)) = Some p)).
Proof.
  intros Hall Hi.
  destruct (summaryOf_overall report Hall) as [HNQ HHQ].
  rewrite summaryOf_stars, list_lookup_fmap, Hi.
  rewrite HNQ, HHQ. cbn [fmap option_fmap option_map].
  rewrite Forall_forall in Hall.
  specialize (Hall r (list_elem_of_lookup_2 _ _ _ Hi)).
  assert (∀ b : bool, Some b = Some true ↔ b = true) as Hsome
    by (intros b; split; congruence).
  rewrite Hsome.
  destruct r as [? ? ? ? ? nq hq ?|? ? ? [|c s]]; simpl in *.
  - rewrite star_spec. tauto.
  - done.
  - split; [done | by intros [? _]].
Qed.

Lemma present_elem_of_NQ servers p :
  p ∈ presentNQ servers ↔ ∃ r, r ∈ servers ∧ minPriceNQOf r = JSNumber p.
Proof.
  unfold presentNQ. rewrite list_elem_of_omap. split.
  - intros (r & Hr & Hp). exists r. split; [done|].
    destruct r; simpl in *; [by rewrite Hp | done].
  - intros (r & Hr & Hp). exists r. split; [done|].
    destruct r as [? ? ? ? ? nq hq ?|]; simpl in *; [|done].
    destruct nq; simpl in *; congruence.
Qed.

Lemma present_elem_of_HQ servers p :
  p ∈ presentHQ servers ↔ ∃ r, r ∈ servers ∧ minPriceHQOf r = JSNumber p.
Proof.
  unfold presentHQ. rewrite list_elem_of_omap. split.
  - intros (r & Hr & Hp). exists r. split; [done|].
    destruct r; simpl in *; [by rewrite Hp | done].
  - intros (r & Hr & Hp). exists r. split; [done|].
    destruct r as [? ? ? ? ? nq hq ?|]; simpl in *; [|done].
    destruct hq; simpl in *; congruence.
Qed.

(** X11: for a report whose failure markers are not empty texts,
    [createResultEmbed] returns, and the embed is replaced by the no-data
    message exactly when no shard that is not failed has a price; no
    shard is starred then, and otherwise at least one shard is starred. *)
Theorem no_data_iff_no_price (report : Report) :
  Forall markerNonEmpty (servers report) →
  ∃ summary,
  createResultEmbed report = Return summary
  ∧ (noData summary = true ↔
     presentNQ (servers report) = [] ∧ presentHQ (servers report) = [])
  ∧ (noData summary = true → Forall (λ b, b = false) (stars summary))
  ∧ (noData summary = false → ∃ i, stars summary !! i = Some true).
Proof.
  intros Hall. exists (summaryOf report).
  split; [by apply createResultEmbed_returns|].
  set (summary := summaryOf report).
  pose proof (summaryOf_noData report Hall) as HnoData.
  fold summary in HnoData. split; [done|]. split.
  - intros [HNQ HHQ]%HnoData. apply Forall_lookup. intros i b Hb.
    destruct b; [|done]. exfalso.
    assert (is_Some (servers report !! i)) as [r Hr].
    { apply lookup_lt_is_Some. pose proof (lookup_lt_Some _ _ _ Hb) as Hlt.
      unfold summary in Hlt.
      by rewrite summaryOf_stars, length_fmap in Hlt. }
    pose proof (proj1 (stars_lookup report i r Hall Hr) Hb) as [_ Hmin].
    rewrite HNQ, HHQ in Hmin. by destruct Hmin as [(? & _ & ?)|(? & _ & ?)].
  - intros Hsome.
    assert (∃ r, r ∈ servers report ∧ hasFailureMarker r = false
             ∧ ((∃ p, minPriceNQOf r = JSNumber p
                      ∧ leastOf (presentNQ (servers report)) = Some p)
                ∨ (∃ p, minPriceHQOf r = JSNumber p
                        ∧ leastOf (presentHQ (servers report)) = Some p)))
      as (r & Hr & Hstar).
    { destruct (presentNQ (servers report)) as [|x xs] eqn:HNQ.
      - destruct (presentHQ (servers report)) as [|y ys] eqn:HHQ.
        + rewrite (proj2 HnoData) in Hsome; done.
        + destruct (leastOf (y :: ys)) as [m|] eqn:Hm; [|done].
          pose proof (proj1 (leastOf_Some _ _) Hm) as [Hin _].
          rewrite <- HHQ in Hin.
          apply present_elem_of_HQ in Hin as (r & Hr & Hp).
          exists r. split; [done|]. split; [by destruct r|].
          right. by exists m.
      - destruct (leastOf (x :: xs)) as [m|] eqn:Hm; [|done].
        pose proof (proj1 (leastOf_Some _ _) Hm) as [Hin _].
        rewrite <- HNQ in Hin.
        apply present_elem_of_NQ in Hin as (r & Hr & Hp).
        exists r. split; [done|]. split; [by destruct r|].
        left. by exists m. }
    apply list_elem_of_lookup_1 in Hr as [i Hi]. exists i.
    by apply (stars_lookup report i r Hall Hi).
Qed.

Lemma present_nil_NQ servers :
  presentNQ servers = [] ↔
  ∀ r, r ∈ servers → ∀ p, minPriceNQOf r ≠ JSNumber p.
Proof.
  split.
  - intros Hnil r Hr p Hp.
    assert (p ∈ presentNQ servers) as Hin
      by (apply present_elem_of_NQ; eauto).
    rewrite Hnil in Hin. by apply elem_of_nil in Hin.
  - intros Hall. destruct (presentNQ servers) as [|p ps] eqn:Heq; [done|].
    assert (p ∈ presentNQ servers) as Hin by (rewrite Heq; left).
    apply present_elem_of_NQ in Hin as (r & Hr & Hp). by destruct (Hall r Hr p).
Qed.

Lemma present_nil_HQ servers :
  presentHQ servers = [] ↔
  ∀ r, r ∈ servers → ∀ p, minPriceHQOf r ≠ JSNumber p.
Proof.
  split.
  - intros Hnil r Hr p Hp.
    assert (p ∈ presentHQ servers) as Hin
      by (apply present_elem_of_HQ; eauto).
    rewrite Hnil in Hin. by apply elem_of_nil in Hin.
  - intros Hall. destruct (presentHQ servers) as [|p ps] eqn:Heq; [done|].
    assert (p ∈ presentHQ servers) as Hin by (rewrite Heq; left).
    apply present_elem_of_HQ in Hin as (r & Hr & Hp). by destruct (Hall r Hr p).
Qed.

Lemma report_length net itemId :
  length (servers (getAllKoreanServerPrices net itemId))
  = length KOREAN_SERVERS.
Proof.
  unfold getAllKoreanServerPrices.
  destruct (requestDC net itemId) as [data|status message].
  - by rewrite unifiedReport_servers, length_fmap.
  - transitivity (length (serverIdOf
      <$> servers (getAllKoreanServerPricesFallback net itemId)));
      [by rewrite length_fmap|].
    unfold getAllKoreanServerPricesFallback. cbn [servers].
    by rewrite fallback_foldl, app_nil_l, fallback_bind_ids, length_fmap.
Qed.

Lemma shard_no_price_iff net itemId i r :
  servers (getAllKoreanServerPrices net itemId) !! i = Some r →
  hasFailureMarker r = false →
  (∀ p, minPriceNQOf r ≠ JSNumber p) ∧ (∀ p, minPriceHQOf r ≠ JSNumber p) ↔
  listingCountOf r = JSNumber 0.
Proof.
  intros Hr Hok.
  assert (is_Some (KOREAN_SERVERS !! i)) as [server Hi].
  { apply lookup_lt_is_Some. rewrite <- (report_length net itemId).
    by eapply lookup_lt_Some. }
  destruct (shard_summary_fields net itemId i server r Hi Hr Hok)
    as (-> & -> & ->).
  set (own := shardListings net itemId server).
  assert (∀ o : option Z, (∀ p, ofNullable o ≠ JSNumber p) ↔ o = None)
    as Hnull.
  { intros [x|]; simpl; split; try done. intros H. by destruct (H x). }
  rewrite !Hnull, !minPrice_None, quality_filters_nil.
  split; [by intros -> | intros [= Hlen]].
  destruct own; [done | simpl in Hlen; lia].
Qed.

(** X12: when the rejected world requests carry a message that is not
    empty, [createResultEmbed] returns on the aggregated report, and the
    embed is the no-data message exactly when every shard either failed
    or has no listing. *)
Theorem aggregated_no_data (net : Network) (itemId : Z) :
  (∀ serverId status message,
     requestWorld net serverId itemId = Rejected status message →
     message ≠ []) →
  let report := getAllKoreanServerPrices net itemId in
  ∃ summary,
  createResultEmbed report = Return summary
  ∧ (noData summary = true ↔
     ∀ i r, servers report !! i = Some r →
            hasFailureMarker r = true ∨ listingCountOf r = JSNumber 0).
Proof.
  intros Hmessages report.
  pose proof (aggregated_markers net itemId Hmessages) as Hall.
  fold report in Hall. exists (summaryOf report).
  split; [by apply createResultEmbed_returns|].
  rewrite (summaryOf_noData report Hall).
  rewrite present_nil_NQ, present_nil_HQ. split.
  - intros [HNQ HHQ] i r Hr.
    destruct (hasFailureMarker r) eqn:Hok; [by left|]. right.
    apply (shard_no_price_iff net itemId i r Hr Hok).
    pose proof (list_elem_of_lookup_2 _ _ _ Hr). split; eauto.
  - intros Hall'. split; intros r Hr p Hp;
      apply list_elem_of_lookup_1 in Hr as [i Hi];
      (destruct (Hall' i r Hi) as [Hfail|Hzero];
       [by destruct r|]);
      (assert (hasFailureMarker r = false) as Hok by (by destruct r));
      apply (shard_no_price_iff net itemId i r Hi Hok) in Hzero as [H1 H2];
      [by destruct (H1 p) | by destruct (H2 p)].
Qed.

(* ================================================================== *)
(** * Further properties of the catalog generator *)
(* ================================================================== *)

(** ** [parseCSVLine] *)

Lemma parse_step_other c rest result current inQuotes :
  c ≠ 34%N → (c = 44%N → inQuotes = true) →
  parseCSVLine_from (c :: rest) result current inQuotes
  = parseCSVLine_from rest result (current ++ [c]) inQuotes.
Proof.
  intros Hquote Hcomma. cbn [parseCSVLine_from].
  destruct (N.eqb_spec c 34); [done|].
  destruct (N.eqb_spec c 44) as [Heq|?]; [|done].
  by rewrite (Hcomma Heq).
Qed.

Lemma parse_step_comma rest result current :
  parseCSVLine_from (44%N :: rest) result current false
  = parseCSVLine_from rest (result ++ [current]) [] false.
Proof. reflexivity. Qed.

Lemma parse_step_open rest result current :
  parseCSVLine_from (34%N :: rest) result current false
  = parseCSVLine_from rest result current true.
Proof. by destruct rest. Qed.

Lemma parse_step_escaped rest result current :
  parseCSVLine_from (34%N :: 34%N :: rest) result current true
  = parseCSVLine_from rest result (current ++ [34%N]) true.
Proof. reflexivity. Qed.

Lemma parse_step_close rest result current :
  head rest ≠ Some 34%N →
  parseCSVLine_from (34%N :: rest) result current true
  = parseCSVLine_from rest result current false.
Proof.
  destruct rest as [|next rest]; [done|]. simpl head. intros Hnext.
  cbn [parseCSVLine_from]. change (34 =? 34)%N with true. cbn [andb].
  destruct (N.eqb_spec next 34) as [->|?]; done.
Qed.

Lemma parse_plain cell rest result current :
  csvPlain cell →
  parseCSVLine_from (cell ++ rest) result current false
  = parseCSVLine_from rest result (current ++ cell) false.
Proof.
  intros Hplain. revert current.
  induction Hplain as [|c cell [Hq Hc] _ IH]; intros current.
  - by rewrite app_nil_r.
  - rewrite <- app_comm_cons, parse_step_other by done.
    by rewrite IH, <- app_assoc.
Qed.

Lemma parse_quoted_body cell rest result current :
  head rest ≠ Some 34%N →
  parseCSVLine_from
    ((cell ≫= λ c, if (c =? 34)%N then [34; 34]%N else [c]) ++ 34%N :: rest)
    result current true
  = parseCSVLine_from rest result (current ++ cell) false.
Proof.
  intros Hrest. revert current. induction cell as [|c cell IH]; intros current.
  - rewrite app_nil_r. by apply parse_step_close.
  - rewrite bind_cons, <- app_assoc.
    destruct (N.eqb_spec c 34) as [->|Hne].
    + cbn [app]. rewrite parse_step_escaped, IH. by rewrite <- app_assoc.
    + cbn [app]. rewrite parse_step_other by done.
      rewrite IH. by rewrite <- app_assoc.
Qed.

Lemma parse_cell cell rest result current :
  (cell.1 = false → csvPlain cell.2) →
  head rest ≠ Some 34%N →
  parseCSVLine_from (csvCell cell ++ rest) result current false
  = parseCSVLine_from rest result (current ++ cell.2) false.
Proof.
  destruct cell as [[|] text]; unfold csvCell; cbn [fst snd];
    intros Hplain Hrest.
  - unfold csvQuoted. rewrite <- !app_assoc. cbn [app].
    rewrite parse_step_open. by apply parse_quoted_body.
  - by apply parse_plain, Hplain.
Qed.

Lemma parse_row cells result :
  cells ≠ [] →
  Forall (λ cell, cell.1 = false → csvPlain cell.2) cells →
  parseCSVLine_from (Array_join [44%N] (csvCell <$> cells)) result [] false
  = result ++ cells.*2.
Proof.
  intros Hne Hcells. revert result.
  induction Hcells as [|cell cells Hcell Hcells IH]; intros result; [done|].
  destruct cells as [|cell' cells].
  - simpl. rewrite <- (app_nil_r (csvCell cell)).
    by rewrite parse_cell.
  - change (Array_join [44%N] (csvCell <$> cell :: cell' :: cells))
      with (csvCell cell
            ++ 44%N :: Array_join [44%N] (csvCell <$> cell' :: cells)).
    rewrite parse_cell by done. rewrite parse_step_comma, IH by done.
    by rewrite <- app_assoc.
Qed.

(** X13: [parseCSVLine] reads back a row of cells written in CSV form:
    cells separated by commas, each either between quotes with its quotes
    doubled, or as it is when it has neither quote nor comma. *)
Theorem parseCSVLine_reads_row (cells : list (bool * JSString.t)) :
  cells ≠ [] →
  Forall (λ cell, cell.1 = false → csvPlain cell.2) cells →
  parseCSVLine (Array_join [44%N] (csvCell <$> cells)) = cells.*2.
Proof. intros Hne Hcells. unfold parseCSVLine. by rewrite parse_row. Qed.

Lemma Array_join_snoc sep xs y :
  Array_join sep (xs ++ [y])
  = match xs with
    | [] => y
    | _ :: _ => Array_join sep xs ++ sep ++ y
    end.
Proof.
  induction xs as [|x xs IH]; [done|].
  destruct xs as [|x' xs]; [done|].
  change (Array_join sep ((x :: x' :: xs) ++ [y]))
    with (x ++ sep ++ Array_join sep ((x' :: xs) ++ [y])).
  rewrite IH.
  change (Array_join sep (x :: x' :: xs))
    with (x ++ sep ++ Array_join sep (x' :: xs)).
  by rewrite <- !app_assoc.
Qed.

Lemma parse_unquoted line result current :
  Forall (λ c, c ≠ 34%N) line →
  Array_join [44%N] (parseCSVLine_from line result current false)
  = Array_join [44%N] (result ++ [current]) ++ line
  ∧ length (parseCSVLine_from line result current false)
    = (length result + 1 + length (filter (λ c, c = 44%N) line))%nat.
Proof.
  intros Hline. revert result current.
  induction Hline as [|c line Hc _ IH]; intros result current.
  - simpl. rewrite app_nil_r, length_app. simpl. split; [done | lia].
  - rewrite filter_cons. destruct (decide (c = 44%N)) as [->|Hne].
    + rewrite parse_step_comma.
      destruct (IH (result ++ [current]) []) as [-> ->]. split.
      * rewrite (Array_join_snoc _ (result ++ [current])).
        destruct (result ++ [current]) eqn:Heq;
          [by destruct result | by rewrite <- !app_assoc].
      * rewrite length_app. simpl. lia.
    + rewrite parse_step_other by done.
      destruct (IH result (current ++ [c])) as [-> ->]. split; [|done].
      rewrite !Array_join_snoc. destruct result; by rewrite <- !app_assoc.
Qed.

Lemma parse_from_length line :
  ∀ result current inQuotes,
    (length result < length (parseCSVLine_from line result current inQuotes))%nat.
Proof.
  induction line as [line IH] using (induction_ltof1 _ (@length N)).
  unfold ltof in IH. intros result current inQuotes.
  destruct line as [|c rest]; cbn [parseCSVLine_from].
  - rewrite length_app. simpl. lia.
  - destruct (c =? 34)%N.
    + destruct rest as [|next rest'].
      * apply IH. simpl. lia.
      * destruct (inQuotes && (next =? 34)%N); apply IH; simpl; lia.
    + destruct ((c =? 44)%N && negb inQuotes).
      * etransitivity; [|apply IH; simpl; lia]. rewrite length_app. simpl. lia.
      * apply IH. simpl. lia.
Qed.

(** X14: [parseCSVLine] always returns at least one cell; on a line without
    quotes it returns one cell more than the line has commas, and joining
    the cells with commas gives the line back. *)
Theorem parseCSVLine_unquoted (line : JSString.t) :
  (0 < length (parseCSVLine line))%nat
  ∧ (Forall (λ c, c ≠ 34%N) line →
     Array_join [44%N] (parseCSVLine line) = line
     ∧ length (parseCSVLine line)
       = S (length (filter (λ c, c = 44%N) line))).
Proof.
  split.
  - unfold parseCSVLine.
    pose proof (parse_from_length line [] [] false). simpl in *. lia.
  - intros Hline. unfold parseCSVLine.
    destruct (parse_unquoted line [] [] Hline) as [-> ->]. by split.
Qed.


(** ** [trim] *)

Lemma trimStart_spec s :
  ∃ pre, s = pre ++ JSString.trimStart s
         ∧ Forall (λ c, JSString.isWhiteSpace c = true) pre.
Proof.
  induction s as [|c s (pre & Heq & Hpre)]; [by exists []|].
  simpl. destruct (JSString.isWhiteSpace c) eqn:Hc.
  - exists (c :: pre). split; [by rewrite Heq at 1 | by constructor].
  - by exists [].
Qed.

Lemma trimStart_head s c :
  head (JSString.trimStart s) = Some c → JSString.isWhiteSpace c = false.
Proof.
  induction s as [|d s IH]; [done|]. simpl.
  destruct (JSString.isWhiteSpace d) eqn:Hd; [done|].
  simpl. by intros [= <-].
Qed.

Lemma trimStart_fixed s :
  (∀ c, head s = Some c → JSString.isWhiteSpace c = false) →
  JSString.trimStart s = s.
Proof.
  destruct s as [|c s]; [done|]. intros H. simpl. by rewrite (H c).
Qed.

Lemma trimStart_blank s :
  Forall (λ c, JSString.isWhiteSpace c = true) s → JSString.trimStart s = [].
Proof. induction 1 as [|c s Hc _ IH]; [done|]. simpl. by rewrite Hc. Qed.

(** [trim] removes white space at both ends, and nothing else. *)
Lemma trim_spec s :
  ∃ pre post, s = pre ++ JSString.trim s ++ post
              ∧ Forall (λ c, JSString.isWhiteSpace c = true) pre
              ∧ Forall (λ c, JSString.isWhiteSpace c = true) post.
Proof.
  destruct (trimStart_spec s) as (pre & Hs & Hpre).
  destruct (trimStart_spec (reverse (JSString.trimStart s)))
    as (post & Ht & Hpost).
  exists pre, (reverse post). split; [|split; [done|]].
  - rewrite Hs at 1. f_equal. unfold JSString.trim.
    rewrite <- reverse_app, <- Ht. by rewrite reverse_involutive.
  - by apply Forall_reverse.
Qed.

(** A text with a character that is not white space is not blank. *)
Lemma trim_elem s c :
  c ∈ s → JSString.isWhiteSpace c = false → c ∈ JSString.trim s.
Proof.
  intros Hc Hws. destruct (trim_spec s) as (pre & post & Hs & Hpre & Hpost).
  rewrite Hs in Hc. rewrite !elem_of_app in Hc.
  destruct Hc as [Hc|[Hc|Hc]]; [|done|].
  - rewrite Forall_forall in Hpre. specialize (Hpre c Hc). congruence.
  - rewrite Forall_forall in Hpost. specialize (Hpost c Hc). congruence.
Qed.

Lemma trim_blank s :
  JSString.trim s = [] ↔ Forall (λ c, JSString.isWhiteSpace c = true) s.
Proof.
  split.
  - intros Htrim. destruct (trim_spec s) as (pre & post & Hs & Hpre & Hpost).
    rewrite Hs, Htrim. apply Forall_app. split; [done|].
    by apply Forall_app.
  - intros Hs. unfold JSString.trim. by rewrite (trimStart_blank s Hs).
Qed.

Lemma trim_ends s :
  (∀ c, head (JSString.trim s) = Some c → JSString.isWhiteSpace c = false)
  ∧ (∀ c, last (JSString.trim s) = Some c → JSString.isWhiteSpace c = false).
Proof.
  unfold JSString.trim. split; intros c Hc.
  - destruct (trimStart_spec (reverse (JSString.trimStart s)))
      as (post & Ht & _).
    apply (f_equal reverse) in Ht.
    rewrite reverse_involutive, reverse_app in Ht.
    apply (trimStart_head s). rewrite Ht.
    destruct (reverse (JSString.trimStart (reverse (JSString.trimStart s))));
      [done | exact Hc].
  - rewrite last_reverse in Hc. by apply trimStart_head in Hc.
Qed.

(** Trimming twice is trimming once. *)
Lemma trim_idemp s : JSString.trim (JSString.trim s) = JSString.trim s.
Proof.
  destruct (trim_ends s) as [Hhead Hlast].
  unfold JSString.trim at 1. rewrite (trimStart_fixed _ Hhead).
  rewrite trimStart_fixed; [apply reverse_involutive|].
  intros c. rewrite head_reverse. apply Hlast.
Qed.
(** ** [splitCSVLines] *)

Lemma pushLine_nonblank lines currentLine :
  Forall (λ l, JSString.trim l ≠ []) lines →
  Forall (λ l, JSString.trim l ≠ []) (pushLine lines currentLine).
Proof.
  intros Hlines. unfold pushLine. case_decide; [done|].
  apply Forall_app. split; [done | by constructor].
Qed.

Lemma pushLine_filter lines currentLine :
  pushLine lines currentLine
  = lines ++ filter (λ l, JSString.trim l ≠ []) [currentLine].
Proof.
  unfold pushLine. rewrite filter_cons, filter_nil.
  destruct (decide (JSString.trim currentLine = [])) as [Heq|Hne].
  - rewrite decide_False by (intros H; by apply H). by rewrite app_nil_r.
  - by rewrite decide_True.
Qed.

Lemma split_from_nonblank csvText :
  ∀ lines currentLine inQuotes,
    Forall (λ l, JSString.trim l ≠ []) lines →
    Forall (λ l, JSString.trim l ≠ [])
           (splitCSVLines_from csvText lines currentLine inQuotes).
Proof.
  induction csvText as [csvText IH] using (induction_ltof1 _ (@length N)).
  unfold ltof in IH. intros lines currentLine inQuotes Hlines.
  destruct csvText as [|c rest]; cbn [splitCSVLines_from].
  - by apply pushLine_nonblank.
  - destruct (c =? 34)%N; [apply IH; [simpl; lia | done]|].
    destruct (((c =? 10) || (c =? 13))%N && negb inQuotes).
    + destruct rest as [|next rest'].
      * apply IH; [simpl; lia | by apply pushLine_nonblank].
      * destruct ((c =? 13) && (next =? 10))%N;
          (apply IH; [simpl; lia | by apply pushLine_nonblank]).
    + apply IH; [simpl; lia | done].
Qed.

Lemma filter_blank_cons (l : list JSString.t) :
  filter (λ l, JSString.trim l ≠ []) ([] :: l)
  = filter (λ l, JSString.trim l ≠ []) l.
Proof.
  rewrite filter_cons, decide_False; [done|]. intros H. by apply H.
Qed.

Lemma split_from_unquoted csvText :
  ∀ lines currentLine,
    Forall (λ c, c ≠ 34%N) csvText →
    splitCSVLines_from csvText lines currentLine false
    = lines ++ filter (λ l, JSString.trim l ≠ [])
                      (segmentsFrom isLineBreak csvText currentLine).
Proof.
  induction csvText as [csvText IH] using (induction_ltof1 _ (@length N)).
  unfold ltof in IH. intros lines currentLine Htext.
  destruct csvText as [|c rest];
    cbn [splitCSVLines_from segmentsFrom].
  - apply pushLine_filter.
  - apply Forall_cons in Htext as [Hc Hrest].
    destruct (N.eqb_spec c 34); [done|].
    change (isLineBreak c) with ((c =? 10) || (c =? 13))%N.
    destruct ((c =? 10) || (c =? 13))%N eqn:Hbreak; cbn [andb negb].
    + assert (splitCSVLines_from rest (pushLine lines currentLine) [] false
              = lines ++ filter (λ l, JSString.trim l ≠ [])
                           (currentLine
                            :: segmentsFrom isLineBreak rest [])) as Hone.
      { rewrite IH by (simpl; lia || done).
        rewrite pushLine_filter, <- app_assoc. f_equal.
        by rewrite <- filter_app. }
      destruct rest as [|next rest']; [done|].
      destruct ((c =? 13) && (next =? 10))%N eqn:Hcrlf; [|done].
      apply andb_true_iff in Hcrlf as [_ ->%N.eqb_eq].
      apply Forall_cons in Hrest as [_ Hrest'].
      rewrite IH by (simpl; lia || done).
      rewrite pushLine_filter, <- app_assoc. f_equal.
      cbn [segmentsFrom]. change (isLineBreak 10) with true. cbn iota.
      change (currentLine :: [] :: segmentsFrom isLineBreak rest' [])
        with ([currentLine] ++ [] :: segmentsFrom isLineBreak rest' []).
      by rewrite filter_app, filter_blank_cons.
    + apply IH; [simpl; lia | done].
Qed.

(** X15: [splitCSVLines] never returns a blank line; on a text without
    quotes its lines are the pieces of the text between line breaks (line
    feed or carriage return) that are not blank, in order. *)
Theorem splitCSVLines_lines (csvText : JSString.t) :
  Forall (λ l, JSString.trim l ≠ []) (splitCSVLines csvText)
  ∧ (Forall (λ c, c ≠ 34%N) csvText →
     splitCSVLines csvText
     = filter (λ l, JSString.trim l ≠ [])
              (segmentsFrom isLineBreak csvText [])).
Proof.
  split.
  - by apply split_from_nonblank.
  - intros Htext. unfold splitCSVLines. by rewrite split_from_unquoted.
Qed.

Lemma split_run s rest lines currentLine inQuotes :
  Forall (λ c, c ≠ 34%N ∧ (isLineBreak c = true → inQuotes = true)) s →
  splitCSVLines_from (s ++ rest) lines currentLine inQuotes
  = splitCSVLines_from rest lines (currentLine ++ s) inQuotes.
Proof.
  intros Hs. revert currentLine.
  induction Hs as [|c s [Hq Hb] _ IH]; intros currentLine.
  - by rewrite app_nil_r.
  - rewrite <- app_comm_cons. cbn [splitCSVLines_from].
    destruct (N.eqb_spec c 34); [done|]. change (isLineBreak c) with ((c =? 10) || (c =? 13))%N in Hb.
    destruct ((c =? 10) || (c =? 13))%N.
    + specialize (Hb eq_refl). subst inQuotes. cbn [andb negb].
      by rewrite IH, <- app_assoc.
    + cbn [andb]. by rewrite IH, <- app_assoc.
Qed.

(** X16: a line break between quotes does not end the line: a text made
    of a part without quote or line break, a quoted part that may hold
    line breaks, and a second part without quote or line break is a
    single line. *)
Theorem splitCSVLines_quoted_break (before quoted after : JSString.t) :
  Forall (λ c, c ≠ 34%N ∧ isLineBreak c = false) before →
  Forall (λ c, c ≠ 34%N) quoted →
  Forall (λ c, c ≠ 34%N ∧ isLineBreak c = false) after →
  let text := before ++ [34%N] ++ quoted ++ [34%N] ++ after in
  splitCSVLines text = [text].
Proof.
  intros Hbefore Hquoted Hafter text. unfold splitCSVLines, text.
  rewrite split_run.
  2:{ eapply Forall_impl; [exact Hbefore|]. intros c [? ?]. split; [done|].
      congruence. }
  cbn [app splitCSVLines_from]. change (34 =? 34)%N with true. cbn iota.
  rewrite split_run.
  2:{ eapply Forall_impl; [exact Hquoted|]. by intros c ?. }
  cbn [app splitCSVLines_from negb]. change (34 =? 34)%N with true. cbn iota.
  rewrite <- (app_nil_r after), split_run.
  2:{ eapply Forall_impl; [exact Hafter|]. intros c [? ?]. split; [done|].
      congruence. }
  cbn [splitCSVLines_from]. unfold pushLine.
  rewrite decide_False.
  - simpl. by rewrite <- !app_assoc, app_nil_r.
  - intros Htrim.
    match type of Htrim with JSString.trim ?s = [] =>
      assert (34%N ∈ JSString.trim s) as Hin
        by (apply trim_elem; [set_solver | done])
    end.
    rewrite Htrim in Hin. set_solver.
Qed.

(** ** [parseCSV] *)

Lemma findColumns_snoc columnNames column :
  findColumns (columnNames ++ [column])
  = (if decide (JSString.trim column = js "Name")
     then Some (length columnNames) else (findColumns columnNames).1,
     if decide (JSString.trim column = js "Icon")
     then Some (length columnNames) else (findColumns columnNames).2).
Proof.
  unfold findColumns. rewrite imap_app, foldl_app. simpl.
  destruct (foldl _ _ (imap pair columnNames)) as [nameIndex iconIndex].
  by rewrite Nat.add_0_r.
Qed.

Lemma lastColumn_snoc target columnNames column index :
  lastColumn target columnNames index →
  lastColumn target (columnNames ++ [column])
    (if decide (JSString.trim column = target)
     then Some (length columnNames) else index).
Proof.
  intros Hindex. destruct (decide (JSString.trim column = target)) as [Heq|Hne].
  - split.
    + exists column. split; [|done]. by rewrite list_lookup_middle.
    + intros j c Hj Hc. apply lookup_lt_Some in Hc.
      rewrite length_app in Hc. simpl in Hc. lia.
  - destruct index as [i|]; simpl in *.
    + destruct Hindex as [(c & Hc & Htrim) Hlater]. split.
      * exists c. split; [|done]. by apply lookup_app_l_Some.
      * intros j c' Hj Hc'. apply lookup_app_Some in Hc' as [Hc'|[Hge Hc']].
        -- by eapply Hlater.
        -- apply list_lookup_singleton_Some in Hc' as [_ <-]. done.
    + apply Forall_app. split; [done | by constructor].
Qed.

(** X17: the header scan of [parseCSV] finds the last column whose
    trimmed name is Name and the last one whose trimmed name is Icon,
    and finds none only when no column has that name. *)
Theorem findColumns_last_match (columnNames : list JSString.t) :
  lastColumn (js "Name") columnNames (findColumns columnNames).1
  ∧ lastColumn (js "Icon") columnNames (findColumns columnNames).2.
Proof.
  induction columnNames as [|column columnNames [IHname IHicon]] using rev_ind.
  - split; constructor.
  - rewrite findColumns_snoc. split; by apply lastColumn_snoc.
Qed.

Lemma iconOf_shape cell path :
  iconOf cell = Some path →
  js "/i/" `prefix_of` path ∧ js ".png" `suffix_of` path
  ∧ (20 ≤ length path)%nat.
Proof.
  unfold iconOf. cbn zeta. destruct (_ && _); [|done]. intros [= <-].
  set (paddedId := JSString.padStart _ 6 48%N).
  assert (6 ≤ length paddedId)%nat as Hlen.
  { unfold paddedId. rewrite padStart_length. lia. }
  split; [by eexists|]. split.
  - exists (js "/i/" ++ (JSString.substring paddedId 0 3 ++ js "000")
            ++ js "/" ++ paddedId).
    by rewrite <- !app_assoc.
  - unfold JSString.substring. rewrite drop_0.
    assert (length (take (3 - 0) paddedId) = 3%nat) as Htake
      by (rewrite length_take; lia).
    cbn [length]. rewrite !length_app, Htake. cbn [length].
    rewrite length_app. simpl. lia.
Qed.

Lemma parseRow_wellFormed nameIndex iconIndex cols item :
  parseRow nameIndex iconIndex cols = RowItem item → wellFormedItem item.
Proof.
  unfold parseRow. case_decide; [done|].
  destruct (parseInt _ 10) as [id|]; [|done].
  destruct (Z.ltb_spec 0 id); [|done]. simpl.
  case_bool_decide; [|done]. case_bool_decide as Htrim; [|done]. simpl.
  intros [= <-]. unfold wellFormedItem. simpl.
  split; [done|]. split; [done|]. split; [apply trim_idemp|].
  destruct (iconOf _) as [path|] eqn:Hicon; [|done].
  by apply iconOf_shape in Hicon.
Qed.

Lemma omap_length_le {A B} (f : A → option B) (l : list A) :
  (length (omap f l) ≤ length l)%nat.
Proof.
  induction l as [|x l IH]; [done|]. cbn [omap list_omap].
  destruct (f x); simpl in *; lia.
Qed.

(** X18: [parseCSV] throws, with its format message, exactly when the
    text has fewer than 4 non-blank lines; otherwise it returns at most
    one entry for each line after the third, and every entry has a
    positive id, a name that is not empty and is trimmed, and, if it has
    an icon, a path of at least 20 characters that starts with /i/ and
    ends with .png. *)
Theorem parseCSV_outcome (csvText : JSString.t) :
  match parseCSV csvText with
  | Throw error =>
      (length (splitCSVLines csvText) < 4)%nat
      ∧ JSError.message error = csvFormatError
  | Return items =>
      (4 ≤ length (splitCSVLines csvText))%nat
      ∧ (length items ≤ length (splitCSVLines csvText) - 3)%nat
      ∧ Forall wellFormedItem items
  end.
Proof.
  unfold parseCSV. case_decide as Hlen; [done|].
  destruct (findColumns _) as [nameIndex iconIndex].
  rewrite parseRows_items. split; [lia|]. split.
  - etransitivity; [apply omap_length_le|]. rewrite length_drop. lia.
  - apply Forall_forall. intros item Hitem.
    apply list_elem_of_omap in Hitem as (rawLine & _ & Hitem).
    case_decide; [done|].
    destruct (parseRow _ _ _) as [| |item'] eqn:Hrow; try done.
    injection Hitem as <-. by eapply parseRow_wellFormed.
Qed.

(** ** Icon paths *)

Lemma decimalValue_app a xs ys :
  decimalValue a (xs ++ ys) = decimalValue (decimalValue a xs) ys.
Proof. unfold decimalValue. by rewrite foldl_app. Qed.

Lemma decimalValue_shift ds :
  ∀ a, decimalValue a ds
       = a * 10 ^ Z.of_nat (length ds) + decimalValue 0 ds.
Proof.
  induction ds as [|c ds IH]; intros a.
  - simpl. lia.
  - change (decimalValue a (c :: ds))
      with (decimalValue (a * 10 + (Z.of_N c - 48)) ds).
    change (decimalValue 0 (c :: ds))
      with (decimalValue (0 * 10 + (Z.of_N c - 48)) ds).
    rewrite (IH (a * 10 + _)), (IH (0 * 10 + _)).
    cbn [length]. rewrite Nat2Z.inj_succ, Z.pow_succ_r by lia. lia.
Qed.

Lemma decimalValue_bound ds :
  Forall isDecimalDigit ds →
  0 ≤ decimalValue 0 ds < 10 ^ Z.of_nat (length ds).
Proof.
  induction ds as [|c ds IH] using rev_ind; intros Hds; [simpl; lia|].
  apply Forall_app in Hds as [Hds Hc]. rewrite Forall_singleton in Hc.
  specialize (IH Hds). rewrite decimalValue_snoc, length_app. cbn [length].
  rewrite Nat2Z.inj_add, Z.pow_add_r by lia.
  change (10 ^ Z.of_nat 1) with 10. unfold isDecimalDigit in Hc. lia.
Qed.

Lemma iconOf_decimal n :
  0 < n →
  iconOf (Number_toString (Some n))
  = Some (js "/i/"
          ++ (take 3 (JSString.padStart (Number_toString (Some n)) 6 48%N)
              ++ js "000")
          ++ js "/" ++ JSString.padStart (Number_toString (Some n)) 6 48%N
          ++ js ".png").
Proof.
  intros Hn.
  destruct (Number_toString_nonneg n) as (Hds & Hlen & Hvalue & _); [lia|].
  assert (parseInt (Number_toString (Some n)) 0 = Some n
          ∧ parseInt (Number_toString (Some n)) 10 = Some n) as [H0 H10].
  { split; apply parseInt_toString; lia || auto. }
  rewrite (iconOf_Some _ n); [done | | | by rewrite H0 | done].
  - intros Hnil. rewrite Hnil in Hlen. simpl in Hlen. lia.
  - intros Hzero. rewrite Hzero in Hvalue. vm_compute in Hvalue. lia.
Qed.

(** X19: for an icon number n with 0 < n < 10^6 the icon path is
    /i/<folder>/<file>.png where <file> is n written with 6 digits and
    <folder> is n rounded down to a multiple of 1000, written with 6
    digits. *)
Theorem icon_folder_of_thousands (n : Z) :
  0 < n < 10 ^ 6 →
  ∃ folder file,
    iconOf (Number_toString (Some n))
    = Some (js "/i/" ++ folder ++ js "/" ++ file ++ js ".png")
    ∧ length folder = 6%nat ∧ Forall isDecimalDigit folder
    ∧ decimalValue 0 folder = 1000 * (n / 1000)
    ∧ length file = 6%nat ∧ Forall isDecimalDigit file
    ∧ decimalValue 0 file = n.
Proof.
  intros [Hpos Hsmall].
  set (file := JSString.padStart (Number_toString (Some n)) 6 48%N).
  destruct (Number_toString_nonneg n) as (Hds & _ & Hvalue & _); [lia|].
  assert (length file = 6%nat) as Hlen.
  { unfold file. rewrite padStart_length.
    assert (length (Number_toString (Some n)) ≤ 6)%nat; [|lia].
    apply toString_length_lt. simpl. lia. }
  assert (Forall isDecimalDigit file) as Hfile.
  { unfold file, JSString.padStart. apply Forall_app. split; [|done].
    apply Forall_replicate. unfold isDecimalDigit. lia. }
  assert (decimalValue 0 file = n) as Hn.
  { unfold file, JSString.padStart. by rewrite decimalValue_zeros. }
  exists (take 3 file ++ js "000"), file.
  split; [by apply iconOf_decimal|].
  assert (length (take 3 file) = 3%nat) as Htake
    by (rewrite length_take; lia).
  split; [rewrite length_app, Htake; done|].
  split.
  { apply Forall_app. split; [by apply Forall_take|].
    repeat constructor; unfold isDecimalDigit; simpl; lia. }
  split; [|done].
  rewrite <- (take_drop 3 file) in Hn.
  rewrite decimalValue_app, decimalValue_shift in Hn.
  pose proof (decimalValue_bound (drop 3 file) (Forall_drop _ 3 _ Hfile))
    as Hlow.
  pose proof (decimalValue_bound (take 3 file) (Forall_take _ 3 _ Hfile))
    as Hhigh.
  rewrite length_drop, Hlen in Hn, Hlow. simpl in Hn, Hlow.
  rewrite decimalValue_app, decimalValue_shift.
  change (decimalValue 0 (js "000")) with 0. simpl.
  assert (n / 1000 = decimalValue 0 (take 3 file)) as ->; [|lia].
  symmetry. apply (Z.div_unique n 1000 _ (decimalValue 0 (drop 3 file))); lia.
Qed.

(** ** Reading a written catalog *)

Lemma split_step_quote rest lines currentLine inQuotes :
  splitCSVLines_from (34%N :: rest) lines currentLine inQuotes
  = splitCSVLines_from rest lines (currentLine ++ [34%N]) (negb inQuotes).
Proof. done. Qed.

Lemma split_quoted_body text :
  ∀ rest lines currentLine,
    splitCSVLines_from
      ((text ≫= λ c, if (c =? 34)%N then [34; 34]%N else [c]) ++ rest)
      lines currentLine true
    = splitCSVLines_from rest lines
        (currentLine ++ (text ≫= λ c, if (c =? 34)%N then [34; 34]%N else [c]))
        true.
Proof.
  induction text as [|c text IH]; intros rest lines currentLine.
  - simpl. by rewrite app_nil_r.
  - rewrite bind_cons, <- !app_assoc.
    destruct (N.eqb_spec c 34) as [->|Hne].
    + cbn [app]. rewrite !split_step_quote. cbn [negb].
      rewrite IH. by rewrite <- !app_assoc.
    + cbn [app splitCSVLines_from].
      destruct (N.eqb_spec c 34); [done|]. rewrite andb_false_r.
      rewrite IH. by rewrite <- !app_assoc.
Qed.

Lemma split_cell cell rest lines currentLine :
  (cell.1 = false →
   Forall (λ c, c ≠ 34%N ∧ c ≠ 44%N ∧ isLineBreak c = false) cell.2) →
  splitCSVLines_from (csvCell cell ++ rest) lines currentLine false
  = splitCSVLines_from rest lines (currentLine ++ csvCell cell) false.
Proof.
  destruct cell as [[|] text]; unfold csvCell; cbn [fst snd]; intros Hplain.
  - unfold csvQuoted. rewrite <- !app_assoc. cbn [app].
    rewrite split_step_quote. cbn [negb]. rewrite split_quoted_body.
    cbn [app]. rewrite split_step_quote. cbn [negb].
    by rewrite <- !app_assoc.
  - apply split_run. eapply Forall_impl; [by apply Hplain|].
    intros c (? & _ & ?). split; [done | congruence].
Qed.

Lemma split_line cells :
  ∀ rest lines currentLine,
    cells ≠ [] →
    Forall (λ cell, cell.1 = false →
                    Forall (λ c, c ≠ 34%N ∧ c ≠ 44%N ∧ isLineBreak c = false)
                           cell.2) cells →
    splitCSVLines_from (csvLine cells ++ rest) lines currentLine false
    = splitCSVLines_from rest lines (currentLine ++ csvLine cells) false.
Proof.
  induction cells as [|cell cells IH]; intros rest lines currentLine Hne Hcells;
    [done|].
  apply Forall_cons in Hcells as [Hcell Hcells].
  destruct cells as [|cell' cells].
  - by apply split_cell.
  - change (csvLine (cell :: cell' :: cells))
      with (csvCell cell ++ [44%N] ++ csvLine (cell' :: cells)).
    rewrite <- !app_assoc, split_cell by done.
    rewrite (split_run [44%N]).
    2:{ repeat constructor; done. }
    rewrite IH by done. by rewrite <- !app_assoc.
Qed.

Lemma split_text rows :
  ∀ lines,
    Forall csvWritten rows →
    splitCSVLines_from (csvText rows) lines [] false
    = lines ++ (csvLine <$> rows).
Proof.
  induction rows as [|row rows IH]; intros lines Hrows.
  - simpl. unfold pushLine. rewrite decide_True by done.
    by rewrite app_nil_r.
  - apply Forall_cons in Hrows as [(Hne & Hcells & Hblank) Hrows].
    destruct rows as [|row' rows].
    + change (csvText [row]) with (csvLine row).
      rewrite <- (app_nil_r (csvLine row)), split_line by done.
      cbn [app splitCSVLines_from]. unfold pushLine.
      by rewrite decide_False.
    + change (csvText (row :: row' :: rows))
        with (csvLine row ++ [10%N] ++ csvText (row' :: rows)).
      rewrite split_line by done. cbn [app].
      assert (∀ rest,
                splitCSVLines_from (10%N :: rest) lines (csvLine row) false
                = splitCSVLines_from rest (lines ++ [csvLine row]) [] false)
        as ->.
      { intros rest. cbn [splitCSVLines_from]. unfold pushLine.
        rewrite decide_False by done. by destruct rest. }
      rewrite IH by done. by rewrite <- app_assoc.
Qed.

Lemma written_plain cells :
  Forall (λ cell, cell.1 = false →
                  Forall (λ c, c ≠ 34%N ∧ c ≠ 44%N ∧ isLineBreak c = false)
                         cell.2) cells →
  Forall (λ cell, cell.1 = false → csvPlain cell.2) cells.
Proof.
  intros Hcells. eapply Forall_impl; [exact Hcells|].
  intros cell Hcell Hplain. unfold csvPlain.
  eapply Forall_impl; [by apply Hcell|]. by intros c (? & ? & _).
Qed.

Lemma rows_items nameIndex iconIndex rows :
  Forall csvWritten rows →
  Forall (λ row, JSString.trim (csvLine row) = csvLine row) rows →
  omap (λ rawLine,
          if decide (JSString.trim rawLine = []) then None
          else match parseRow nameIndex iconIndex
                       (parseCSVLine (JSString.trim rawLine)) with
               | RowItem item => Some item
               | _ => None
               end) (csvLine <$> rows)
  = omap (λ row, itemOfRow nameIndex iconIndex row.*2) rows.
Proof.
  intros Hrows Htrim.
  induction Hrows as [|row rows (Hne & Hcells & Hblank) _ IH]; [done|].
  apply Forall_cons in Htrim as [Hrow Htrim].
  assert (parseCSVLine (csvLine row) = row.*2) as Hparse
    by exact (parse_row row [] Hne (written_plain _ Hcells)).
  rewrite fmap_cons. cbn [omap list_omap].
  rewrite decide_False by done. rewrite Hrow, Hparse.
  by rewrite (IH Htrim).
Qed.

(** X20: [parseCSV] reads back a written catalog. For a text of three
    header rows and data rows, each row written as its cells separated
    by commas and the rows separated by line feeds, where a cell is
    between quotes with its quotes doubled, or has no quote, comma or
    line break, and where no line is blank and no data line starts or
    ends with white space: [parseCSV] throws when there is no data row,
    and otherwise returns, in order, the item of each data row that has
    enough cells, a positive id and a name that is not blank, the name
    and icon cells being those under the columns found in the second
    header row. *)
Theorem parseCSV_reads_catalog
    (header1 columns header3 : list (bool * JSString.t))
    (rows : list (list (bool * JSString.t))) :
  Forall csvWritten (header1 :: columns :: header3 :: rows) →
  Forall (λ row, JSString.trim (csvLine row) = csvLine row) rows →
  let nameIndex := default 10%nat (findColumns columns.*2).1 in
  let iconIndex := default 11%nat (findColumns columns.*2).2 in
  parseCSV (csvText (header1 :: columns :: header3 :: rows))
  = if decide (rows = []) then Throw (JSError.mk None csvFormatError)
    else Return (omap (λ row, itemOfRow nameIndex iconIndex row.*2) rows).
Proof.
  intros Hall Htrim nameIndex iconIndex. unfold parseCSV, splitCSVLines.
  rewrite split_text by done. cbn [app].
  do 3 (apply Forall_cons in Hall as [? Hall]).
  destruct H0 as (Hne & Hcells & _).
  rewrite !fmap_cons. cbn [length lookup list_lookup].
  change (default [] (Some (csvLine columns))) with (csvLine columns).
  rewrite length_fmap.
  destruct (decide (rows = [])) as [->|Hrows].
  - by rewrite decide_True by (simpl; lia).
  - rewrite decide_False by (destruct rows; [done | simpl; lia]).
    assert (parseCSVLine (csvLine columns) = columns.*2) as ->
      by exact (parse_row columns [] Hne (written_plain _ Hcells)).
    subst nameIndex iconIndex.
    destruct (findColumns columns.*2) as [nameIndex iconIndex]. cbn [fst snd].
    rewrite parseRows_items. cbn [drop]. rewrite drop_0.
    by rewrite rows_items.
Qed.

(* ================================================================== *)
(** * Properties of the commands *)

Lemma startsWith_app (q s : JSString.t) : JSString.startsWith (q ++ s) q = true.
Proof. induction q as [|c q IH]; [done|]. simpl. by rewrite N.eqb_refl. Qed.

Lemma trim_fixed s :
  Forall (λ c, JSString.isWhiteSpace c = false) s → JSString.trim s = s.
Proof.
  intros Hs. unfold JSString.trim. rewrite Forall_forall in Hs.
  rewrite (trimStart_fixed s).
  - rewrite trimStart_fixed; [apply reverse_involutive|].
    intros c Hc. apply Hs. rewrite head_reverse in Hc.
    apply last_Some in Hc as [l ->]. set_solver.
  - intros c Hc. apply Hs. destruct s; simplify_eq/=. left.
Qed.

Lemma lookupById_first (db : JSMap.t Item.t) (itemId : Z) :
  match lookupById db itemId with
  | Some item => item ∈ JSMap.values db ∧ Item.id item = itemId
  | None => Forall (λ item, Item.id item ≠ itemId) (JSMap.values db)
  end.
Proof.
  induction db as [|[k item] db IH]; [constructor|]. simpl.
  destruct (decide (Item.id item = itemId)) as [Heq|Hne].
  - split; [left | done].
  - destruct (lookupById db itemId).
    + destruct IH. split; [by right | done].
    + by constructor.
Qed.

Lemma NoDup_fmap_eq {A B} (f : A → B) (l : list A) x y :
  NoDup (f <$> l) → x ∈ l → y ∈ l → f x = f y → x = y.
Proof.
  induction l as [|z l IH]; [by intros _ ?%elem_of_nil|].
  rewrite fmap_cons, NoDup_cons, !elem_of_cons.
  intros [Hz Hl] [->|Hx] [->|Hy] Heq; try done.
  - exfalso. apply Hz. rewrite Heq. by apply list_elem_of_fmap_2.
  - exfalso. apply Hz. rewrite <- Heq. by apply list_elem_of_fmap_2.
  - by apply IH.
Qed.

Section CommandFacts.
Variable toLowerCase : JSString.t → JSString.t.
Variable xivapi : JSString.t → XivResult.
Variable net : Network.

Local Abbreviation load := (loadKoreanItemDB toLowerCase).
Local Abbreviation search := (searchKoreanItem toLowerCase).

Lemma loaded_values data x :
  x ∈ JSMap.values (load data JSMap.empty) → x ∈ data.
Proof.
  intros Hx. pose proof (load_empty_keyed toLowerCase data) as Hdb.
  apply (keyed_get_value toLowerCase _ _ Hdb) in Hx.
  rewrite load_get_last in Hx. apply last_Some in Hx as [l Hl].
  assert (x ∈ filter (λ it, toLowerCase (Item.name it)
                            = toLowerCase (Item.name x)) data) as Hin
    by (rewrite Hl; set_solver).
  by apply list_elem_of_filter in Hin as [_ Hin].
Qed.

(** X21: when the ids of the file are pairwise distinct, the loop of the
    id command finds every entry of the catalog by its id, and finds
    nothing for an id that no entry of the file has. *)
Theorem lookup_by_id_loaded (data : list Item.t) :
  NoDup (Item.id <$> data) →
  let db := load data JSMap.empty in
  (∀ item, item ∈ JSMap.values db → lookupById db (Item.id item) = Some item)
  ∧ (∀ itemId, itemId ∉ Item.id <$> data → lookupById db itemId = None).
Proof.
  intros Hids db. split.
  - intros item Hitem. pose proof (lookupById_first db (Item.id item)) as H.
    destruct (lookupById db (Item.id item)) as [item'|].
    + destruct H as [Hin Hid]. f_equal.
      apply (NoDup_fmap_eq Item.id data); try done; by apply loaded_values.
    + rewrite Forall_forall in H. by destruct (H item Hitem).
  - intros itemId Hnot. pose proof (lookupById_first db itemId) as H.
    destruct (lookupById db itemId) as [item'|]; [|done].
    destruct H as [Hin <-]. exfalso. apply Hnot.
    by apply list_elem_of_fmap_2, loaded_values.
Qed.

(** X22: the id command reads its number from the second character
    after the prefix on: the character that follows the prefix is
    dropped. With decimal digits after that character that write a
    number below 2^53, the command quotes the id that these digits
    write, and it replies with the usage when there is no digit after it
    or when they write 0. *)
Theorem id_command_argument (koreanItemDB : JSMap.t Item.t) (first : N)
    (digits : JSString.t) :
  Forall isDecimalDigit digits →
  decimalValue 0 digits < 2 ^ 53 →
  idCommandOutcome net koreanItemDB (idCommand ++ first :: digits)
  = if decide (decimalValue 0 digits = 0) then Usage
    else quoteById net koreanItemDB (decimalValue 0 digits).
Proof.
  intros Hdigits _. unfold idCommandOutcome.
  rewrite startsWith_app. cbn [negb].
  change (String_slice (idCommand ++ first :: digits) 7) with digits.
  rewrite trim_fixed
    by (eapply Forall_impl; [exact Hdigits | apply isWhiteSpace_decimal]).
  destruct digits as [|d digits]; [done|].
  rewrite (parseInt_decimal _ 10) by (auto || done).
  pose proof (decimalValue_bound _ Hdigits) as [Hge _].
  destruct (Z.leb_spec (decimalValue 0 (d :: digits)) 0);
    case_decide; try done; lia.
Qed.

Lemma search_none_no_suggestions db query :
  item (search db query) = None → suggestions (search db query) = [].
Proof.
  unfold searchKoreanItem. destruct (JSMap.has _ _); [done|].
  case_decide; [done|]. by destruct (allMatches _ _).
Qed.

Lemma search_empty query : item (search [] query) = None.
Proof. done. Qed.

(** X23: the name command with an argument that is not blank quotes the
    primary entry of the catalog search when there is one, with its icon
    and with the footer for the alternates, whatever the English search
    would answer; otherwise it quotes the first result of the English
    search, without footer; it says that nothing was found only when
    both searches find nothing. The same message is not an id command. *)
Theorem price_command_resolution (koreanItemDB : JSMap.t Item.t)
    (content : JSString.t) :
  JSString.startsWith content priceCommand = true →
  let itemName := JSString.trim (String_slice content 4) in
  itemName ≠ [] →
  priceCommandOutcome toLowerCase xivapi net koreanItemDB content
  = match item (search koreanItemDB itemName) with
    | Some item =>
        Quote (Item.name item) (Item.id item)
              (getAllKoreanServerPrices net (Item.id item))
              (iconUrlOf (Item.icon item))
              (footerOf (suggestions (search koreanItemDB itemName)))
    | None =>
        match searchItemByNameEN (xivapi itemName) with
        | Some item =>
            Quote (Item.name item) (Item.id item)
                  (getAllKoreanServerPrices net (Item.id item))
                  (iconUrlOf (Item.icon item)) None
        | None => NotFound itemName
        end
    end
  ∧ idCommandOutcome net koreanItemDB content = Ignored.
Proof.
  intros Hstarts itemName Hname. split.
  - unfold priceCommandOutcome. rewrite Hstarts. cbn [negb]. fold itemName.
    rewrite decide_False by done.
    destruct (decide (0 < length koreanItemDB)%nat) as [Hsize|Hsize].
    + destruct (item (search koreanItemDB itemName)) as [x|] eqn:Hitem;
        [done|].
      rewrite search_none_no_suggestions by done.
      destruct (searchItemByNameEN _) as [enItem|]; [|done].
      by destruct (iconUrlOf _).
    + assert (koreanItemDB = []) as -> by (destruct koreanItemDB; [done | simpl in Hsize; lia]).
      rewrite search_empty.
      destruct (searchItemByNameEN _) as [enItem|]; [|done].
      by destruct (iconUrlOf _).
  - unfold idCommandOutcome.
    replace (JSString.startsWith content idCommand) with false; [done|].
    symmetry. apply startsWith_prefix in Hstarts as [rest ->]. done.
Qed.

End CommandFacts.

(* ================================================================== *)
(** * Instances on concrete inputs *)

Lemma search_results_match_witness :
  let db := loadKoreanItemDB asciiLower catalogPot JSMap.empty in
  let r := searchKoreanItem asciiLower db (js "POT") in
  let x := entry 1 "Spot" in
  (item r = Some x ∨ x ∈ suggestions r)
  ∧ x ∈ JSMap.values db
  ∧ ∃ a b, asciiLower (Item.name x) = a ++ asciiLower (js "POT") ++ b.
Proof.
  intros db r x.
  assert (item r = Some x ∨ x ∈ suggestions r) as H
    by (left; vm_compute; reflexivity).
  split; [exact H|].
  exact (search_results_match asciiLower catalogPot (js "POT") x H).
Defined.

Lemma search_best_first_witness :
  let db := loadKoreanItemDB asciiLower catalogPot JSMap.empty in
  let q := asciiLower (js "POT") in
  JSMap.has db q = false
  ∧ StronglySorted (bestFirst asciiLower q) (allMatches db q).
Proof.
  intros db q.
  assert (JSMap.has db q = false) as H by (vm_compute; reflexivity).
  split; [exact H|].
  exact (proj1 (search_best_first asciiLower catalogPot (js "POT") H)).
Defined.

Lemma shard_price_is_minimum_witness :
  let r := unifiedResult dcPayload carbuncle in
  KOREAN_SERVERS !! 0%nat = Some carbuncle
  ∧ servers (getAllKoreanServerPrices netUnified 17534) !! 0%nat = Some r
  ∧ hasFailureMarker r = false
  ∧ ∀ l, l ∈ shardListings netUnified 17534 carbuncle →
         Listing.hq l = false → 30 ≤ Listing.pricePerUnit l.
Proof.
  intros r.
  assert (KOREAN_SERVERS !! 0%nat = Some carbuncle) as H1 by reflexivity.
  assert (servers (getAllKoreanServerPrices netUnified 17534) !! 0%nat
          = Some r) as H2 by (vm_compute; reflexivity).
  assert (hasFailureMarker r = false) as H3 by (vm_compute; reflexivity).
  split; [exact H1|]. split; [exact H2|]. split; [exact H3|].
  destruct (shard_price_is_minimum netUnified 17534 0 carbuncle r 30 H1 H2 H3)
    as [[Hmin _] _].
  apply Hmin. vm_compute. reflexivity.
Defined.

Lemma shard_count_and_prices_witness :
  let r := unifiedResult dcPayload carbuncle in
  KOREAN_SERVERS !! 0%nat = Some carbuncle
  ∧ servers (getAllKoreanServerPrices netUnified 17534) !! 0%nat = Some r
  ∧ hasFailureMarker r = false
  ∧ listingCountOf r
    = JSNumber (Z.of_nat (length (shardListings netUnified 17534 carbuncle))).
Proof.
  intros r.
  assert (KOREAN_SERVERS !! 0%nat = Some carbuncle) as H1 by reflexivity.
  assert (servers (getAllKoreanServerPrices netUnified 17534) !! 0%nat
          = Some r) as H2 by (vm_compute; reflexivity).
  assert (hasFailureMarker r = false) as H3 by (vm_compute; reflexivity).
  split; [exact H1|]. split; [exact H2|]. split; [exact H3|].
  exact (proj1 (shard_count_and_prices netUnified 17534 0 carbuncle r
                  H1 H2 H3)).
Defined.

Lemma modes_agree_witness :
  KOREAN_SERVERS !! 0%nat = Some carbuncle
  ∧ getMarketData netOneShardDown (Server.id carbuncle) 17534
    = Return worldPayload
  ∧ ∃ r, servers (getAllKoreanServerPricesFallback netOneShardDown 17534)
           !! 0%nat = Some r
         ∧ hasFailureMarker r = false
         ∧ let unified :=
             unifiedResult
               (asDataCenterPayload (Server.id carbuncle) worldPayload)
               carbuncle in
           listingCountOf r = listingCountOf unified
           ∧ minPriceNQOf r = minPriceNQOf unified
           ∧ minPriceHQOf r = minPriceHQOf unified.
Proof.
  assert (KOREAN_SERVERS !! 0%nat = Some carbuncle) as H1 by reflexivity.
  assert (getMarketData netOneShardDown (Server.id carbuncle) 17534
          = Return worldPayload) as H2 by reflexivity.
  split; [exact H1|]. split; [exact H2|].
  exact (modes_agree netOneShardDown 17534 0 carbuncle worldPayload H1 H2).
Defined.

Lemma recent_trade_is_minimum_witness :
  requestDC netUnified 17534 = Resolved dcPayload
  ∧ (recentTradeMinNQ (getAllKoreanServerPrices netUnified 17534) = None
     ↔ nqOf (default [] (MarketData.recentHistory dcPayload)) = []).
Proof.
  split; [reflexivity|].
  destruct (recent_trade_is_minimum netUnified 17534 dcPayload 40 eq_refl)
    as (_ & _ & H & _).
  exact H.
Defined.

Lemma no_data_iff_no_price_witness :
  Forall markerNonEmpty (servers reportTies)
  ∧ ∃ summary,
      createResultEmbed reportTies = Return summary
      ∧ (noData summary = false → ∃ i, stars summary !! i = Some true).
Proof.
  assert (Forall markerNonEmpty (servers reportTies)) as H
    by (repeat (constructor; try done)).
  split; [exact H|].
  destruct (no_data_iff_no_price reportTies H)
    as (summary & Hreturn & _ & _ & Hstar).
  exists summary. split; [exact Hreturn | exact Hstar].
Defined.

Lemma aggregated_no_data_witness :
  (∀ serverId status message,
     requestWorld netNotFoundThenTimeouts serverId 17534
     = Rejected status message → message ≠ [])
  ∧ ∃ summary,
      createResultEmbed
        (getAllKoreanServerPrices netNotFoundThenTimeouts 17534)
      = Return summary
      ∧ (noData summary = true ↔
         ∀ i r,
           servers (getAllKoreanServerPrices netNotFoundThenTimeouts 17534)
             !! i = Some r →
           hasFailureMarker r = true ∨ listingCountOf r = JSNumber 0).
Proof.
  assert (∀ serverId status message,
            requestWorld netNotFoundThenTimeouts serverId 17534
            = Rejected status message → message ≠ []) as H
    by (intros serverId status message [= _ <-]; discriminate).
  split; [exact H|].
  exact (aggregated_no_data netNotFoundThenTimeouts 17534 H).
Defined.

Lemma parseCSVLine_reads_row_witness :
  rowQuoted ≠ []
  ∧ Forall (λ cell, cell.1 = false → csvPlain cell.2) rowQuoted
  ∧ parseCSVLine (Array_join [44%N] (csvCell <$> rowQuoted)) = rowQuoted.*2.
Proof.
  assert (rowQuoted ≠ []) as H1 by discriminate.
  assert (Forall (λ cell, cell.1 = false → csvPlain cell.2) rowQuoted) as H2
    by (unfold csvPlain; compute_done).
  split; [exact H1|]. split; [exact H2|].
  exact (parseCSVLine_reads_row rowQuoted H1 H2).
Defined.

Lemma splitCSVLines_quoted_break_witness :
  let before := js "1," in
  let quoted := js "two" ++ [10%N] ++ js "lines" in
  let after := js ",3" in
  Forall (λ c, c ≠ 34%N ∧ isLineBreak c = false) before
  ∧ Forall (λ c, c ≠ 34%N) quoted
  ∧ Forall (λ c, c ≠ 34%N ∧ isLineBreak c = false) after
  ∧ splitCSVLines (before ++ [34%N] ++ quoted ++ [34%N] ++ after)
    = [before ++ [34%N] ++ quoted ++ [34%N] ++ after].
Proof.
  intros before quoted after.
  assert (Forall (λ c, c ≠ 34%N ∧ isLineBreak c = false) before) as H1
    by compute_done.
  assert (Forall (λ c, c ≠ 34%N) quoted) as H2 by compute_done.
  assert (Forall (λ c, c ≠ 34%N ∧ isLineBreak c = false) after) as H3
    by compute_done.
  split; [exact H1|]. split; [exact H2|]. split; [exact H3|].
  exact (splitCSVLines_quoted_break before quoted after H1 H2 H3).
Defined.

Lemma icon_folder_of_thousands_witness :
  0 < 25847 < 10 ^ 6
  ∧ ∃ folder file,
      iconOf (Number_toString (Some 25847))
      = Some (js "/i/" ++ folder ++ js "/" ++ file ++ js ".png")
      ∧ length folder = 6%nat ∧ Forall isDecimalDigit folder
      ∧ decimalValue 0 folder = 1000 * (25847 / 1000)
      ∧ length file = 6%nat ∧ Forall isDecimalDigit file
      ∧ decimalValue 0 file = 25847.
Proof.
  assert (0 < 25847 < 10 ^ 6) as H by (split; reflexivity).
  split; [exact H|]. exact (icon_folder_of_thousands 25847 H).
Defined.

Lemma parseCSV_reads_catalog_witness :
  Forall csvWritten
         (catalogHeader1 :: catalogColumns :: catalogHeader3 :: catalogRows)
  ∧ Forall (λ row, JSString.trim (csvLine row) = csvLine row) catalogRows
  ∧ parseCSV (csvText (catalogHeader1 :: catalogColumns :: catalogHeader3
                       :: catalogRows))
    = Return [Item.mk 17534 (js "Pure White Dye")
                (Some (js "/i/025000/025847.png"))].
Proof.
  assert (Forall csvWritten
            (catalogHeader1 :: catalogColumns :: catalogHeader3
             :: catalogRows)) as H1
    by (unfold csvWritten; compute_done).
  assert (Forall (λ row, JSString.trim (csvLine row) = csvLine row)
                 catalogRows) as H2 by compute_done.
  split; [exact H1|]. split; [exact H2|].
  rewrite (parseCSV_reads_catalog catalogHeader1 catalogColumns
             catalogHeader3 catalogRows H1 H2).
  vm_compute. reflexivity.
Defined.

Lemma lookup_by_id_loaded_witness :
  let db := loadKoreanItemDB asciiLower catalogPot JSMap.empty in
  NoDup (Item.id <$> catalogPot)
  ∧ lookupById db 2 = Some (entry 2 "Pottery")
  ∧ lookupById db 17534 = None.
Proof.
  intros db.
  assert (NoDup (Item.id <$> catalogPot)) as H by compute_done.
  split; [exact H|].
  destruct (lookup_by_id_loaded asciiLower catalogPot H) as [Hfound Hnone].
  split.
  - apply (Hfound (entry 2 "Pottery")). compute_done.
  - apply Hnone. compute_done.
Defined.

Lemma id_command_argument_witness :
  let db := loadKoreanItemDB asciiLower catalogPot JSMap.empty in
  Forall isDecimalDigit (js "7534")
  ∧ decimalValue 0 (js "7534") < 2 ^ 53
  ∧ idCommandOutcome netUnified db (idCommand ++ js "17534")
    = quoteById netUnified db 7534.
Proof.
  intros db.
  assert (Forall isDecimalDigit (js "7534")) as H1
    by (unfold isDecimalDigit; compute_done).
  assert (decimalValue 0 (js "7534") < 2 ^ 53) as H2 by reflexivity.
  split; [exact H1|]. split; [exact H2|].
  exact (id_command_argument netUnified db 49%N (js "7534") H1 H2).
Defined.

Lemma price_command_resolution_witness :
  let db := loadKoreanItemDB asciiLower catalogPot JSMap.empty in
  let content := priceCommand ++ js " POT " in
  JSString.startsWith content priceCommand = true
  ∧ JSString.trim (String_slice content 4) ≠ []
  ∧ priceCommandOutcome asciiLower xivapiDown netUnified db content
    = Quote (js "Spot") 1 (getAllKoreanServerPrices netUnified 1) None
            (footerOf [entry 3 "Hot Pot"; entry 2 "Pottery"])
  ∧ idCommandOutcome netUnified db content = Ignored.
Proof.
  intros db content.
  assert (JSString.startsWith content priceCommand = true) as H1
    by reflexivity.
  assert (JSString.trim (String_slice content 4) ≠ []) as H2 by compute_done.
  split; [exact H1|]. split; [exact H2|].
  destruct (price_command_resolution asciiLower xivapiDown netUnified db
              content H1 H2) as [Hprice Hid].
  split; [|exact Hid]. rewrite Hprice. vm_compute. reflexivity.
Defined.
